(** * SaaS Directory Agent: submission pipeline and worker scheduler

    A shallow embedding of the form-detection service, the field mapper,
    the outcome check of the page automation engine and the submission
    worker, with the properties their specification states.

    Conventions.  A Python [str] is held as the bytes of its UTF-8
    encoding ([string]): [len] and slices count characters, that is the
    bytes that do not continue a character; the case and whitespace
    functions below act on the ASCII range.  Python [int] is [Z].  A
    [datetime] is a number of microseconds ([Z]), and
    [Optional[T]] is [option T].  Everything that lives outside the
    repository (the HTTP transport, the JSON decoder, the HTML parser, the
    browser page, pydantic validation) enters either as the value it
    produced or as a section variable. *)

From Stdlib Require Import ZArith QArith Qcanon Ascii String.
From stdpp Require Import gmap strings list sorting pretty.

Open Scope string_scope.
Open Scope Z_scope.

(** ** Python string primitives *)

Module PyStr.

(** [c.lower()] on one character. *)
Definition lower_ascii (c : ascii) : ascii :=
  let n := nat_of_ascii c in
  if ((65 <=? n) && (n <=? 90))%nat then ascii_of_nat (n + 32) else c.

(** [s.lower()] *)
Fixpoint lower (s : string) : string :=
  match s with
  | "" => ""
  | String c s' => String (lower_ascii c) (lower s')
  end.

(** [s.replace(a, b)] for one-character [a] and [b]. *)
Fixpoint replace (a b : ascii) (s : string) : string :=
  match s with
  | "" => ""
  | String c s' => String (if Ascii.eqb c a then b else c) (replace a b s')
  end.

(** [sub in s] *)
Fixpoint contains (sub s : string) : bool :=
  String.prefix sub s ||
  match s with
  | "" => false
  | String _ s' => contains sub s'
  end.

(** [s.split(sep)] for a non-empty [sep]: the scan moves left to right;
    [skip] counts the characters of a separator just recognised that are
    still to be passed over, [cur] is the piece being collected. *)
Fixpoint split_go (sep : string) (skip : nat) (cur s : string) : list string :=
  match s with
  | "" => [cur]
  | String c s' =>
      match skip with
      | S k => split_go sep k cur s'
      | O =>
          if String.prefix sep s
          then cur :: split_go sep (String.length sep - 1) "" s'
          else split_go sep 0 (cur +:+ String c "") s'
      end
  end.

Definition split (sep s : string) : list string := split_go sep 0 "" s.

(** [c.isspace()] on the ASCII range. *)
Definition is_space (c : ascii) : bool :=
  let n := nat_of_ascii c in
  (((9 <=? n) && (n <=? 13)) || ((28 <=? n) && (n <=? 32)))%nat.

Fixpoint lstrip (s : string) : string :=
  match s with
  | "" => ""
  | String c s' => if is_space c then lstrip s' else s
  end.

Fixpoint rstrip (s : string) : string :=
  match s with
  | "" => ""
  | String c s' =>
      match rstrip s' with
      | "" => if is_space c then "" else String c ""
      | r => String c r
      end
  end.

(** A string that does not start with white space. *)
Definition starts_solid (s : string) : Prop :=
  match s with
  | "" => True
  | String c _ => is_space c = false
  end.

(** [s.strip()] *)
Definition strip (s : string) : string := rstrip (lstrip s).

(** A byte [10xxxxxx] continues the character begun before it. *)
Definition is_continuation (c : ascii) : bool :=
  let n := nat_of_ascii c in
  ((128 <=? n) && (n <? 192))%nat.

(** [len(s)]: the number of characters. *)
Fixpoint len (s : string) : nat :=
  match s with
  | "" => O
  | String c s' => if is_continuation c then len s' else S (len s')
  end.

(** [s[:n]]: the first [n] characters, each with the bytes that continue
    it. *)
Fixpoint slice_to (n : nat) (s : string) : string :=
  match s with
  | "" => ""
  | String c s' =>
      if is_continuation c then String c (slice_to n s')
      else
        match n with
        | O => ""
        | S k => String c (slice_to k s')
        end
  end.

(** A text that does not begin in the middle of a character. *)
Definition starts_character (s : string) : Prop :=
  match s with
  | "" => True
  | String c _ => is_continuation c = false
  end.

(** Truth value of a [str]: non-empty. *)
Definition truthy (s : string) : bool := negb (String.eqb s "").

(** Truth value of an [Optional[str]]. *)
Definition truthy_opt (o : option string) : bool :=
  match o with
  | Some s => truthy s
  | None => false
  end.

End PyStr.

(** ** Exceptions

    Python exceptions that the modelled code can meet.  Every handler in
    the modelled code is [except Exception] (or names the one class it
    expects), so the classes are kept only to follow the source. *)

Inductive Exn :=
| TransportError (msg : string)   (* httpx could not complete the request *)
| ApiError (status_code : Z)      (* raise Exception("... API error: <code>") *)
| JSONDecodeError
| RecursionError                  (* json.loads on text nested too deeply *)
| KeyError
| IndexError
| TypeError
| AttributeError
| ValidationError                 (* pydantic *)
| PageError (msg : string).       (* playwright *)

(** Computations that may raise. *)
Definition Res (A : Type) : Type := Exn + A.

Definition raise {A} (e : Exn) : Res A := inl e.

#[global] Instance Res_ret : MRet Res := λ A x, inr x.
#[global] Instance Res_bind : MBind Res := λ A B f m,
  match m with
  | inl e => inl e
  | inr x => f x
  end.

(** [for x in l: acc.append(f(x))], stopping at the first exception. *)
Fixpoint mapR {A B} (f : A → Res B) (l : list A) : Res (list B) :=
  match l with
  | [] => inr []
  | x :: l' =>
      match f x with
      | inl e => inl e
      | inr y =>
          match mapR f l' with
          | inl e => inl e
          | inr ys => inr (y :: ys)
          end
      end
  end.

(** ** schemas.py *)

Record FormField := mkFormField {
  name : string;
  field_type : string;
  label : option string;
  placeholder : option string;
  required : bool;
  selector : string;
  options : option (list string)
}.

Record FormDetectionResult := mkFormDetectionResult {
  url : string;
  form_found : bool;
  form_selector : option string;
  fields : list FormField;
  submit_button_selector : option string;
  detection_screenshot_path : option string;
  confidence : Qc
}.

(** The float literals of the source. *)
Definition conf_0_0 : Qc := Q2Qc 0.
Definition conf_0_5 : Qc := Q2Qc (1 # 2).

(** ** Values decoded from JSON

    What [json.loads] builds: [None], [bool], [int], [float], [str],
    [list] and [dict] (keys in insertion order). *)

#[warnings="-register-all"]
Inductive json :=
| JNull
| JBool (b : bool)
| JInt (z : Z)
| JFloat (q : Qc)
| JStr (s : string)
| JArr (l : list json)
| JObj (kv : list (string * json)).

Module PyDict.
Section dict.
Context {V : Type}.

(** [d.get(k)] *)
Fixpoint get (k : string) (d : list (string * V)) : option V :=
  match d with
  | [] => None
  | (k', v) :: d' => if String.eqb k k' then Some v else get k d'
  end.

(** [d[k] = v]: an existing key keeps its place, a new one goes last. *)
Fixpoint set (k : string) (v : V) (d : list (string * V)) : list (string * V) :=
  match d with
  | [] => [(k, v)]
  | (k', v') :: d' =>
      if String.eqb k k' then (k, v) :: d' else (k', v') :: set k v d'
  end.

End dict.
End PyDict.

(** [obj.get(key, default)]: only a dict has [get]. *)
Definition py_get (obj : json) (key : string) (default : json) : Res json :=
  match obj with
  | JObj kv => inr (from_option (λ v, v) default (PyDict.get key kv))
  | _ => raise AttributeError
  end.

(** [obj[key]] for a string key. *)
Definition py_item (obj : json) (key : string) : Res json :=
  match obj with
  | JObj kv =>
      match PyDict.get key kv with
      | Some v => inr v
      | None => raise KeyError
      end
  | _ => raise TypeError
  end.

(** [obj[0]] *)
Definition py_first (obj : json) : Res json :=
  match obj with
  | JArr (x :: _) => inr x
  | JArr [] => raise IndexError
  | JStr (String c _) => inr (JStr (String c ""))
  | JStr "" => raise IndexError
  | JObj _ => raise KeyError
  | _ => raise TypeError
  end.

Fixpoint chars (s : string) : list json :=
  match s with
  | "" => []
  | String c s' => JStr (String c "") :: chars s'
  end.

(** [for x in obj] *)
Definition py_iter (obj : json) : Res (list json) :=
  match obj with
  | JArr l => inr l
  | JObj kv => inr (map (λ p, JStr (fst p)) kv)
  | JStr s => inr (chars s)
  | _ => raise TypeError
  end.

(** [l[n]] on a list of strings. *)
Definition py_index (l : list string) (n : nat) : Res string :=
  match l !! n with
  | Some x => inr x
  | None => raise IndexError
  end.

(** ** A reference JSON decoder

    The service decodes provider text with [json.loads], which is not part
    of the repository: the service code below takes the decoder as a
    section variable.  [JsonRef.loads] is a decoder for the JSON grammar
    (RFC 8259) with which the parametrised definitions are instantiated
    on concrete provider responses.  Numbers with a fraction or an
    exponent are kept as exact rationals; an escape [\uXXXX] is stored as
    the UTF-8 bytes of the code unit. *)

Module JsonRef.

Definition dquote : ascii := ascii_of_nat 34.
Definition backslash : ascii := ascii_of_nat 92.

Definition is_ws (c : ascii) : bool :=
  let n := nat_of_ascii c in
  ((n =? 32) || (n =? 9) || (n =? 10) || (n =? 13))%nat.

Fixpoint skip_ws (s : string) : string :=
  match s with
  | "" => ""
  | String c s' => if is_ws c then skip_ws s' else s
  end.

Definition digit_val (c : ascii) : option Z :=
  let n := nat_of_ascii c in
  if ((48 <=? n) && (n <=? 57))%nat then Some (Z.of_nat (n - 48)) else None.

Definition hex_val (c : ascii) : option nat :=
  let n := nat_of_ascii c in
  if ((48 <=? n) && (n <=? 57))%nat then Some (n - 48)%nat
  else if ((65 <=? n) && (n <=? 70))%nat then Some (n - 55)%nat
  else if ((97 <=? n) && (n <=? 102))%nat then Some (n - 87)%nat
  else None.

(** A maximal run of decimal digits: its value, its length, the rest. *)
Fixpoint digits (acc : Z) (n : nat) (s : string) : Z * nat * string :=
  match s with
  | "" => (acc, n, "")
  | String c s' =>
      match digit_val c with
      | Some d => digits (10 * acc + d) (S n) s'
      | None => (acc, n, s)
      end
  end.

(** The integer part: a single [0], or a run of digits not starting with [0]. *)
Definition int_part (s : string) : option (Z * string) :=
  match s with
  | "" => None
  | String c r =>
      match digit_val c with
      | None => None
      | Some d =>
          if (d =? 0)%Z then Some (0, r)
          else let '(v, _, r') := digits d 1 r in Some (v, r')
      end
  end.

(** The optional fraction: digits as an integer and their number. *)
Definition frac_part (s : string) : option (option (Z * nat) * string) :=
  match s with
  | String "." r =>
      let '(v, n, r') := digits 0 0 r in
      if (n =? 0)%nat then None else Some (Some (v, n), r')
  | _ => Some (None, s)
  end.

Definition exp_digits (neg : bool) (s : string) : option (option Z * string) :=
  let '(v, n, r') := digits 0 0 s in
  if (n =? 0)%nat then None else Some (Some (if neg then - v else v), r').

Definition exp_part (s : string) : option (option Z * string) :=
  match s with
  | String c r =>
      if Ascii.eqb c "e" || Ascii.eqb c "E" then
        match r with
        | String "+" r' => exp_digits false r'
        | String "-" r' => exp_digits true r'
        | _ => exp_digits false r
        end
      else Some (None, s)
  | "" => Some (None, s)
  end.

Definition decimal (m e : Z) : Qc := Q2Qc (Qmult (inject_Z m) (Qpower (10 # 1) e)).

Definition parse_number (s : string) : option (json * string) :=
  let '(neg, s1) :=
    match s with
    | String "-" r => (true, r)
    | _ => (false, s)
    end in
  '(ip, s2) ← int_part s1;
  '(fr, s3) ← frac_part s2;
  '(ex, s4) ← exp_part s3;
  let sign (z : Z) := if neg then - z else z in
  match fr, ex with
  | None, None => Some (JInt (sign ip), s4)
  | _, _ =>
      let '(f, n) := default (0, 0%nat) fr in
      let e := default 0 ex in
      Some (JFloat (decimal (sign (ip * 10 ^ Z.of_nat n + f)) (e - Z.of_nat n)), s4)
  end.

Definition byte (n : nat) : string := String (ascii_of_nat n) "".

(** UTF-8 bytes of a code unit below 65536. *)
Definition utf8 (cp : nat) : string :=
  if (cp <? 128)%nat then byte cp
  else if (cp <? 2048)%nat then
    byte (192 + cp / 64) +:+ byte (128 + cp mod 64)
  else
    byte (224 + cp / 4096) +:+ byte (128 + (cp / 64) mod 64) +:+ byte (128 + cp mod 64).

Definition hex4 (a b c d : ascii) : option nat :=
  x1 ← hex_val a; x2 ← hex_val b; x3 ← hex_val c; x4 ← hex_val d;
  Some (((x1 * 16 + x2) * 16 + x3) * 16 + x4)%nat.

Definition unescape (c : ascii) : option string :=
  if Ascii.eqb c dquote then Some (String dquote "")
  else if Ascii.eqb c backslash then Some (String backslash "")
  else if Ascii.eqb c "/" then Some "/"
  else if Ascii.eqb c "b" then Some (byte 8)
  else if Ascii.eqb c "f" then Some (byte 12)
  else if Ascii.eqb c "n" then Some (byte 10)
  else if Ascii.eqb c "r" then Some (byte 13)
  else if Ascii.eqb c "t" then Some (byte 9)
  else None.

(** The characters of a string literal after its opening quote, up to and
    without the closing quote. *)
Fixpoint parse_string (s : string) : option (string * string) :=
  match s with
  | "" => None
  | String c r =>
      if Ascii.eqb c dquote then Some ("", r)
      else if Ascii.eqb c backslash then
        match r with
        | "" => None
        | String e r' =>
            if Ascii.eqb e "u" then
              match r' with
              | String h1 (String h2 (String h3 (String h4 r''))) =>
                  cp ← hex4 h1 h2 h3 h4;
                  '(t, rest) ← parse_string r'';
                  Some (utf8 cp +:+ t, rest)
              | _ => None
              end
            else
              ch ← unescape e;
              '(t, rest) ← parse_string r';
              Some (ch +:+ t, rest)
        end
      else if (nat_of_ascii c <? 32)%nat then None
      else
        '(t, rest) ← parse_string r;
        Some (String c t, rest)
  end.

Definition literal (lit : string) (v : json) (s : string) : option (json * string) :=
  if String.prefix lit s
  then Some (v, String.substring (String.length lit) (String.length s - String.length lit) s)
  else None.

(** Later occurrences of a key replace the value of the first. *)
Definition mk_dict (pairs : list (string * json)) : json :=
  JObj (fold_left (λ d p, PyDict.set (fst p) (snd p) d) pairs []).

Fixpoint parse_value (fuel : nat) (s : string) : option (json * string) :=
  match fuel with
  | O => None
  | S f =>
      match skip_ws s with
      | "" => None
      | String c r as s0 =>
          if Ascii.eqb c "{" then
            match skip_ws r with
            | String "}" r' => Some (JObj [], r')
            | r1 => '(kv, r') ← parse_members f r1; Some (mk_dict kv, r')
            end
          else if Ascii.eqb c "[" then
            match skip_ws r with
            | String "]" r' => Some (JArr [], r')
            | r1 => '(vs, r') ← parse_elements f r1; Some (JArr vs, r')
            end
          else if Ascii.eqb c dquote then
            '(t, r') ← parse_string r; Some (JStr t, r')
          else if Ascii.eqb c "t" then literal "true" (JBool true) s0
          else if Ascii.eqb c "f" then literal "false" (JBool false) s0
          else if Ascii.eqb c "n" then literal "null" JNull s0
          else parse_number s0
      end
  end
with parse_elements (fuel : nat) (s : string) : option (list json * string) :=
  match fuel with
  | O => None
  | S f =>
      '(v, r) ← parse_value f s;
      match skip_ws r with
      | String "," r' => '(vs, r'') ← parse_elements f r'; Some (v :: vs, r'')
      | String "]" r' => Some ([v], r')
      | _ => None
      end
  end
with parse_members (fuel : nat) (s : string) : option (list (string * json) * string) :=
  match fuel with
  | O => None
  | S f =>
      match skip_ws s with
      | String c r =>
          if Ascii.eqb c dquote then
            '(k, r1) ← parse_string r;
            match skip_ws r1 with
            | String ":" r2 =>
                '(v, r3) ← parse_value f r2;
                match skip_ws r3 with
                | String "," r4 => '(kv, r5) ← parse_members f r4; Some ((k, v) :: kv, r5)
                | String "}" r4 => Some ([(k, v)], r4)
                | _ => None
                end
            | _ => None
            end
          else None
      | "" => None
      end
  end.

(** One value, white space around it, nothing else. *)
Definition decode (s : string) : option json :=
  '(v, r) ← parse_value (S (String.length s)) s;
  if String.eqb (skip_ws r) "" then Some v else None.

(** [json.loads(s)]: the value, or [JSONDecodeError] for a text that is
    not JSON. *)
Definition loads (s : string) : Res json :=
  match decode s with
  | Some v => inr v
  | None => raise JSONDecodeError
  end.

End JsonRef.

(** Text between double quotes. *)
Definition quoted (s : string) : string :=
  String JsonRef.dquote "" +:+ s +:+ String JsonRef.dquote "".

(** ** automation/form_detector.py: the providers *)


Inductive Provider :=
| OpenAIProvider
| AnthropicProvider
| GeminiProvider
| GroqProvider.

(** What came back from [client.post]: the call raised, or a response with
    its status code and body. *)
Inductive HttpOutcome :=
| RequestFailed (msg : string)
| HttpResponse (status_code : Z) (text : string).

(** [page_html[:n] if len(page_html) > n else page_html] *)
Definition truncate_html (n : nat) (page_html : string) : string :=
  if (n <? PyStr.len page_html)%nat then PyStr.slice_to n page_html else page_html.

Definition html_limit (p : Provider) : nat :=
  match p with
  | GroqProvider => Z.to_nat 10000
  | _ => Z.to_nat 15000
  end.

(** The three branches that pick the JSON text out of the model's answer. *)
Definition extract_json (content : string) : Res string :=
  if PyStr.contains "```json" content then
    rest ← py_index (PyStr.split "```json" content) 1;
    py_index (PyStr.split "```" rest) 0
  else if PyStr.contains "```" content then
    rest ← py_index (PyStr.split "```" content) 1;
    py_index (PyStr.split "```" rest) 0
  else inr content.

(** The text of [s] before the first occurrence of [sep] (all of [s] when
    there is none), the text after that occurrence, and [s] without its
    first [n] bytes.  They serve to say what [extract_json] takes. *)
Fixpoint text_before (sep s : string) : string :=
  match s with
  | "" => ""
  | String c s' => if String.prefix sep s then "" else String c (text_before sep s')
  end.





(** Two of the providers strip the answer before looking at it. *)
Definition cleaned (p : Provider) (content : string) : string :=
  match p with
  | GeminiProvider | GroqProvider => PyStr.strip content
  | _ => content
  end.

(** The dict returned when the text is not JSON. *)
Definition parse_failure : json :=
  JObj [("form_found", JBool false);
        ("fields", JArr []);
        ("confidence", JFloat conf_0_0);
        ("error", JStr "Failed to parse LLM response")].

(** [result["choices"][0]["message"]["content"]] and its siblings. *)
Definition response_content (p : Provider) (result : json) : Res json :=
  match p with
  | OpenAIProvider | GroqProvider =>
      a ← py_item result "choices"; b ← py_first a;
      c ← py_item b "message"; py_item c "content"
  | AnthropicProvider =>
      a ← py_item result "content"; b ← py_first a; py_item b "text"
  | GeminiProvider =>
      a ← py_item result "candidates"; b ← py_first a;
      c ← py_item b "content"; d ← py_item c "parts";
      e ← py_first d; py_item e "text"
  end.

Module LLMProvider.
Section provider.

(** [json.loads]: the value decoded or the exception raised, which is
    [JSONDecodeError] for a text that is not JSON and can be another one,
    such as [RecursionError] for a text nested too deeply. *)
Variable json_loads : string → Res json.

(** The provider's endpoint: what the POST of a screenshot and the
    truncated markup comes back with. *)
Variable post : Provider → string → string → HttpOutcome.

Definition _parse_response (p : Provider) (content : string) : Res json :=
  let content := cleaned p content in
  json_str ← extract_json content;
  match json_loads (PyStr.strip json_str) with
  | inr v => inr v
  | inl JSONDecodeError => inr parse_failure
  | inl e => raise e
  end.

Definition analyze_form (p : Provider) (screenshot_base64 page_html : string) : Res json :=
  match post p screenshot_base64 (truncate_html (html_limit p) page_html) with
  | RequestFailed msg => raise (TransportError msg)
  | HttpResponse status_code text =>
      if bool_decide (status_code ≠ 200) then raise (ApiError status_code)
      else
        result ← json_loads text;
        content ← response_content p result;
        match content with
        | JStr c => _parse_response p c
        | JArr _ | JObj _ => raise AttributeError
        | _ => raise TypeError
        end
  end.

End provider.
End LLMProvider.

(** ** automation/form_detector.py: FormDetectionService *)

Module FormDetectionService.
Section service.

Variable json_loads : string → Res json.
Variable post : Provider → string → string → HttpOutcome.

(** pydantic's validation of a [str], a [bool] and a [float] field. *)
Variable validate_str : json → option string.
Variable validate_bool : json → option bool.
Variable validate_float : json → option Qc.

Definition as_str (v : json) : Res string :=
  match validate_str v with
  | Some s => inr s
  | None => raise ValidationError
  end.

Definition as_bool (v : json) : Res bool :=
  match validate_bool v with
  | Some b => inr b
  | None => raise ValidationError
  end.

Definition as_float (v : json) : Res Qc :=
  match validate_float v with
  | Some q => inr q
  | None => raise ValidationError
  end.

(** [Optional[str]] *)
Definition as_opt_str (v : json) : Res (option string) :=
  match v with
  | JNull => inr None
  | _ => s ← as_str v; inr (Some s)
  end.

(** [Optional[List[str]]] *)
Definition as_opt_str_list (v : json) : Res (option (list string)) :=
  match v with
  | JNull => inr None
  | JArr l => ss ← mapR as_str l; inr (Some ss)
  | _ => raise ValidationError
  end.

(** [FormField(name=field_data.get("name", ""), ...)] *)
Definition build_field (field_data : json) : Res FormField :=
  v_name ← py_get field_data "name" (JStr "");
  v_type ← py_get field_data "field_type" (JStr "text");
  v_label ← py_get field_data "label" JNull;
  v_placeholder ← py_get field_data "placeholder" JNull;
  v_required ← py_get field_data "required" (JBool false);
  v_selector ← py_get field_data "selector" (JStr "");
  v_options ← py_get field_data "options" JNull;
  f_name ← as_str v_name;
  f_type ← as_str v_type;
  f_label ← as_opt_str v_label;
  f_placeholder ← as_opt_str v_placeholder;
  f_required ← as_bool v_required;
  f_selector ← as_str v_selector;
  f_options ← as_opt_str_list v_options;
  inr (mkFormField f_name f_type f_label f_placeholder f_required f_selector f_options).

(** The body of the [try] in [detect_form]. *)
Definition detect_form_try (p : Provider) (screenshot_base64 page_html url : string)
  : Res FormDetectionResult :=
  result ← LLMProvider.analyze_form json_loads post p screenshot_base64 page_html;
  v_fields ← py_get result "fields" (JArr []);
  items ← py_iter v_fields;
  fields ← mapR build_field items;
  v_found ← py_get result "form_found" (JBool false);
  v_form ← py_get result "form_selector" JNull;
  v_submit ← py_get result "submit_button_selector" JNull;
  v_conf ← py_get result "confidence" (JFloat conf_0_0);
  r_found ← as_bool v_found;
  r_form ← as_opt_str v_form;
  r_submit ← as_opt_str v_submit;
  r_conf ← as_float v_conf;
  inr (mkFormDetectionResult url r_found r_form fields r_submit None r_conf).

(** [FormDetectionResult(url=url, form_found=False, fields=[], confidence=0.0)] *)
Definition no_form (url : string) : FormDetectionResult :=
  mkFormDetectionResult url false None [] None None conf_0_0.

Definition detect_form (p : Provider) (screenshot_base64 page_html url : string)
  : FormDetectionResult :=
  match detect_form_try p screenshot_base64 page_html url with
  | inr r => r
  | inl _ => no_form url
  end.

End service.
End FormDetectionService.

(** ** automation/form_detector.py: the field mapper *)

(** One entry of the mapped output. *)
Record MappedField := mkMappedField {
  mapped_name : string;
  mapped_type : string;
  mapped_value : string
}.

(** A dict from selector to entry, in insertion order. *)
Abbreviation FieldMapping := (list (string * MappedField)).

Module FieldMapper.

(** The literal [field_mapping], in source order. *)
Definition field_mapping : list (string * list string) :=
  [ ("name", ["name"; "saas_name"; "product_name"; "title"; "tool_name"; "startup_name"]);
    ("product_name", ["name"; "saas_name"]);
    ("tool_name", ["name"]);
    ("startup_name", ["name"]);
    ("title", ["name"; "tagline"]);
    ("url", ["website_url"; "url"; "website"; "link"; "homepage"]);
    ("website", ["website_url"]);
    ("website_url", ["website_url"]);
    ("link", ["website_url"]);
    ("homepage", ["website_url"]);
    ("description", ["short_description"; "long_description"; "tagline"]);
    ("short_description", ["short_description"; "tagline"]);
    ("long_description", ["long_description"; "short_description"]);
    ("tagline", ["tagline"; "short_description"]);
    ("summary", ["short_description"]);
    ("about", ["long_description"; "short_description"]);
    ("email", ["contact_email"]);
    ("contact_email", ["contact_email"]);
    ("contact", ["contact_email"]);
    ("category", ["category"]);
    ("categories", ["category"]);
    ("type", ["category"]);
    ("pricing", ["pricing_model"; "pricing_details"]);
    ("price", ["pricing_model"]);
    ("pricing_model", ["pricing_model"]);
    ("twitter", ["twitter_url"]);
    ("twitter_url", ["twitter_url"]);
    ("linkedin", ["linkedin_url"]);
    ("github", ["github_url"]) ].

(** [s.lower().replace("-", "_").replace(" ", "_")] *)
Definition normalize (s : string) : string :=
  PyStr.replace " " "_" (PyStr.replace "-" "_" (PyStr.lower s)).

(** [key in field_name_lower or key in label_lower] *)
Definition key_matches (key : string) (f : FormField) : bool :=
  PyStr.contains key (normalize (name f)) ||
  PyStr.contains key (normalize (default "" (label f))).

(** The inner loop: the first [saas_key] that is in [saas_data] with a
    true value. *)
Fixpoint first_value (saas_data : gmap string string) (saas_keys : list string)
  : option string :=
  match saas_keys with
  | [] => None
  | saas_key :: rest =>
      match saas_data !! saas_key with
      | Some v => if PyStr.truthy v then Some v else first_value saas_data rest
      | None => first_value saas_data rest
      end
  end.

(** The outer loop over the table; it stops at the first group that
    sets [matched_value]. *)
Fixpoint match_value (table : list (string * list string)) (f : FormField)
  (saas_data : gmap string string) : option string :=
  match table with
  | [] => None
  | (key, saas_keys) :: rest =>
      if key_matches key f then
        match first_value saas_data saas_keys with
        | Some v => Some v
        | None => match_value rest f saas_data
        end
      else match_value rest f saas_data
  end.

(** One iteration of the loop over the fields. *)
Definition map_field (saas_data : gmap string string) (filled_fields : FieldMapping)
  (f : FormField) : FieldMapping :=
  match match_value field_mapping f saas_data with
  | Some v => PyDict.set (selector f) (mkMappedField (name f) (field_type f) v) filled_fields
  | None => filled_fields
  end.

Definition map_saas_data_to_fields (fields : list FormField)
  (saas_data : gmap string string) : FieldMapping :=
  fold_left (map_field saas_data) fields [].

End FieldMapper.

(** ** automation/form_detector.py: RuleBasedFormDetector *)

(** The tree BeautifulSoup builds: tags with their attributes and
    children, and text. *)
#[warnings="-register-all"]
Inductive node :=
| Tag (tag_name : string) (attrs : list (string * string)) (children : list node)
| NavigableString (s : string).

Module Soup.

(** All nodes below [n], in document order. *)
Fixpoint descendants (n : node) : list node :=
  match n with
  | Tag _ _ children => flat_map (λ c, c :: descendants c) children
  | NavigableString _ => []
  end.

Definition all_nodes (soup : list node) : list node :=
  flat_map (λ c, c :: descendants c) soup.

Definition tag_of (n : node) : option (string * list (string * string)) :=
  match n with
  | Tag t a _ => Some (t, a)
  | NavigableString _ => None
  end.

(** [soup.find_all(names)] *)
Definition find_all (names : list string) (soup : list node) : list node :=
  filter (λ n, match tag_of n with
               | Some (t, _) => bool_decide (t ∈ names)
               | None => false
               end = true) (all_nodes soup).

(** [soup.find(tag, {key: value})] *)
Definition find (tag key value : string) (soup : list node) : option node :=
  head (filter (λ n, match tag_of n with
                     | Some (t, a) => bool_decide (t = tag) && bool_decide (PyDict.get key a = Some value)
                     | None => false
                     end = true) (all_nodes soup)).

Definition stripped_text (n : node) : string :=
  match n with
  | NavigableString s => PyStr.strip s
  | Tag _ _ _ => ""
  end.

(** [elem.get_text(strip=True)] *)
Definition get_text_strip (n : node) : string :=
  fold_right String.append "" (map stripped_text (descendants n)).

End Soup.

Module RuleBasedFormDetector.

(** The body of the loop for one element: [None] is the [continue]. *)
Definition detect_field (soup : list node) (element : node) : option FormField :=
  match element with
  | NavigableString _ => None
  | Tag tag attrs _ =>
      let get k := PyDict.get k attrs in
      let field_type :=
        if String.eqb tag "textarea" then "textarea"
        else if String.eqb tag "select" then "select"
        else default "text" (get "type") in
      let name :=
        if PyStr.truthy (default "" (get "name")) then default "" (get "name")
        else default "" (get "id") in
      let placeholder := default "" (get "placeholder") in
      let label :=
        if PyStr.truthy_opt (get "id") then
          match Soup.find "label" "for" (default "" (get "id")) soup with
          | Some label_elem => Some (Soup.get_text_strip label_elem)
          | None => None
          end
        else None in
      let required := bool_decide (is_Some (get "required")) in
      if PyStr.truthy_opt (get "id") then
        Some (mkFormField name field_type label (Some placeholder) required
                ("#" +:+ default "" (get "id")) None)
      else if PyStr.truthy_opt (get "name") then
        Some (mkFormField name field_type label (Some placeholder) required
                ("[name='" +:+ default "" (get "name") +:+ "']") None)
      else None
  end.

(** The [input], [textarea] and [select] elements of the document. *)
Definition form_elements (soup : list node) : list node :=
  Soup.find_all ["input"; "textarea"; "select"] soup.

(** The element carries an [id] or a [name] attribute. *)
Definition has_id_or_name (e : node) : bool :=
  match e with
  | Tag _ attrs _ =>
      bool_decide (is_Some (PyDict.get "id" attrs)) ||
      bool_decide (is_Some (PyDict.get "name" attrs))
  | NavigableString _ => false
  end.

(** The element carries an [id] or a [name] attribute that is not empty. *)
Definition targetable (e : node) : bool :=
  match e with
  | Tag _ attrs _ =>
      PyStr.truthy_opt (PyDict.get "id" attrs) || PyStr.truthy_opt (PyDict.get "name" attrs)
  | NavigableString _ => false
  end.

Definition detect_fields_from_soup (soup : list node) : list FormField :=
  omap (detect_field soup) (form_elements soup).

Section parser.

(** [BeautifulSoup(html, 'lxml')] *)
Variable BeautifulSoup : string → list node.

Definition detect_fields_from_html (html : string) : list FormField :=
  detect_fields_from_soup (BeautifulSoup html).

End parser.
End RuleBasedFormDetector.

(** ** automation/browser.py: BrowserAutomation *)

(** The dict returned by [check_submission_success]; [check_success] is
    [True], [False] or [None]. *)
Record SubmissionCheck := mkSubmissionCheck {
  check_success : option bool;
  check_message : string;
  check_url : string
}.

Module BrowserAutomation.

Definition success_phrases : list string :=
  [ "thank you"; "thanks for"; "successfully submitted"; "submission received";
    "we will review"; "pending approval"; "listing added"; "product added";
    "successfully added" ].

Definition error_phrases : list string :=
  [ "error"; "failed"; "invalid"; "required field"; "please fill";
    "already exists"; "duplicate" ].

(** [for phrase in phrases: if phrase in html_lower: return ...] *)
Definition first_phrase (phrases : list string) (html_lower : string) : option string :=
  List.find (λ phrase, PyStr.contains phrase html_lower) phrases.

Definition check_submission_success (current_url html : string) : SubmissionCheck :=
  let html_lower := PyStr.lower html in
  match first_phrase success_phrases html_lower with
  | Some phrase =>
      mkSubmissionCheck (Some true) ("Detected success phrase: " +:+ phrase) current_url
  | None =>
      match first_phrase error_phrases html_lower with
      | Some phrase =>
          mkSubmissionCheck (Some false) ("Detected error phrase: " +:+ phrase) current_url
      | None =>
          mkSubmissionCheck None "Could not determine submission result" current_url
      end
  end.

Section detection.

Variable json_loads : string → Res json.
Variable post : Provider → string → string → HttpOutcome.
Variable validate_str : json → option string.
Variable validate_bool : json → option bool.
Variable validate_float : json → option Qc.
Variable BeautifulSoup : string → list node.

(** The provider chosen when the service was built. *)
Variable provider : Provider.

(** The primary detection, as [self.form_detector.detect_form]. *)
Definition primary (screenshot_base64 html url : string) : FormDetectionResult :=
  FormDetectionService.detect_form json_loads post validate_str validate_bool
    validate_float provider screenshot_base64 html url.

(** [page_state] is what [get_screenshot_base64] and [get_page_html] gave:
    the two strings, or the exception one of them raised. *)
Definition detect_form (page_state : Res (string * string)) (url : string)
  : FormDetectionResult :=
  match page_state with
  | inl _ => mkFormDetectionResult url false None [] None None conf_0_0
  | inr (screenshot_base64, html) =>
      let result := primary screenshot_base64 html url in
      if negb (form_found result) || (length (fields result) =? 0)%nat then
        match RuleBasedFormDetector.detect_fields_from_html BeautifulSoup html with
        | [] => result
        | fields => mkFormDetectionResult url true None fields None None conf_0_5
        end
      else result
  end.

End detection.
End BrowserAutomation.

(** ** automation/browser.py: SubmissionExecutor *)

(** One entry of [result["logs"]]. *)
Inductive StepLog :=
| Step (step status : string)
| StepFill (filled failed : nat)      (* fill_form, success, with the two counts *)
| StepUnknown (note : string)         (* submit, unknown, with a note *)
| StepError (message : string).       (* error, with the message *)

(** [result["detected_fields"]] once a form was found. *)
Record DetectedFields := mkDetectedFields {
  df_fields : list FormField;
  df_form_selector : option string;
  df_submit_button : option string;
  df_confidence : Qc
}.

(** The result dict of a run; [r_detected_fields = None] is the initial
    empty dict. *)
Record RunResult := mkRunResult {
  r_success : bool;
  r_url : string;
  r_detected_fields : option DetectedFields;
  r_filled_fields : FieldMapping;
  r_screenshot_path : option string;
  r_error : option string;
  r_logs : list StepLog
}.

(** What one browser page did during a run: the outcome of each call the
    executor makes on it. *)
Record Page := mkPage {
  started : Res unit;                            (* browser.start(), new_page() *)
  navigated : bool;                              (* navigate_to_url *)
  shot : string → Res string;                    (* take_screenshot, by name prefix *)
  page_state : Res (string * string);            (* screenshot and markup for detection *)
  fill_field : string → string → string → bool;  (* selector, value, field type *)
  captcha : bool;                                (* handle_captcha *)
  submit_button : option string;                 (* find_submit_button *)
  click_submit : string → bool;
  final_url : string;                            (* page.url after the click *)
  final_content : Res string;                    (* page.content() after the click *)
  stopped : Res unit                             (* browser.stop() *)
}.

(** [str(e)] *)
Definition str_exn (e : Exn) : string :=
  match e with
  | TransportError msg => msg
  | ApiError _ => "API error"
  | JSONDecodeError => "JSONDecodeError"
  | RecursionError => "RecursionError"
  | KeyError => "KeyError"
  | IndexError => "IndexError"
  | TypeError => "TypeError"
  | AttributeError => "AttributeError"
  | ValidationError => "ValidationError"
  | PageError msg => msg
  end.

Module SubmissionExecutor.

Definition log (r : RunResult) (entry : StepLog) : RunResult :=
  mkRunResult (r_success r) (r_url r) (r_detected_fields r) (r_filled_fields r)
    (r_screenshot_path r) (r_error r) (r_logs r ++ [entry]).

Definition set_error (r : RunResult) (msg : string) : RunResult :=
  mkRunResult (r_success r) (r_url r) (r_detected_fields r) (r_filled_fields r)
    (r_screenshot_path r) (Some msg) (r_logs r).

Definition set_success (r : RunResult) : RunResult :=
  mkRunResult true (r_url r) (r_detected_fields r) (r_filled_fields r)
    (r_screenshot_path r) (r_error r) (r_logs r).

Definition set_screenshot (r : RunResult) (path : string) : RunResult :=
  mkRunResult (r_success r) (r_url r) (r_detected_fields r) (r_filled_fields r)
    (Some path) (r_error r) (r_logs r).

Definition set_detected (r : RunResult) (d : DetectedFields) : RunResult :=
  mkRunResult (r_success r) (r_url r) (Some d) (r_filled_fields r)
    (r_screenshot_path r) (r_error r) (r_logs r).

Definition set_filled (r : RunResult) (m : FieldMapping) : RunResult :=
  mkRunResult (r_success r) (r_url r) (r_detected_fields r) m
    (r_screenshot_path r) (r_error r) (r_logs r).

(** The first field of type [file] takes the logo. *)
Definition add_logo (logo_path : option string) (fields : list FormField)
  (field_mapping : FieldMapping) : FieldMapping :=
  if PyStr.truthy_opt logo_path then
    match List.find (λ f, String.eqb (field_type f) "file") fields with
    | Some f =>
        PyDict.set (selector f)
          (mkMappedField (name f) "file" (default "" logo_path)) field_mapping
    | None => field_mapping
    end
  else field_mapping.

(** [fill_form]: one result per selector. *)
Definition fill_form (page : Page) (field_mapping : FieldMapping) : list (string * bool) :=
  map (λ p, (fst p, fill_field page (fst p) (mapped_value (snd p)) (mapped_type (snd p))))
    field_mapping.

(** Step 7, after the final screenshot: the three-way branch on the
    check. *)
Definition conclude (submission_check : SubmissionCheck) (result : RunResult) : RunResult :=
  match check_success submission_check with
  | Some true => log (set_success result) (Step "submit" "success")
  | Some false =>
      log (set_error result (check_message submission_check)) (Step "submit" "failed")
  | None =>
      log (set_success result) (StepUnknown "Could not confirm, assuming success")
  end.

Section executor.

Variable json_loads : string → Res json.
Variable post : Provider → string → string → HttpOutcome.
Variable validate_str : json → option string.
Variable validate_bool : json → option bool.
Variable validate_float : json → option Qc.
Variable BeautifulSoup : string → list node.
Variable provider : Provider.

Definition initial (directory_url : string) : RunResult :=
  mkRunResult false directory_url None [] None None [].

(** Steps 6 and 7, from the submit control to the verdict.  The first
    component is the exception that left the [try] body, if any. *)
Definition submit_and_check (page : Page) (form_result : FormDetectionResult)
  (result : RunResult) : option Exn * RunResult :=
  let result := log result (Step "submit" "started") in
  let submit_selector :=
    if PyStr.truthy_opt (submit_button_selector form_result)
    then submit_button_selector form_result
    else submit_button page in
  if negb (PyStr.truthy_opt submit_selector) then
    (None, log (set_error result "Could not find submit button") (Step "submit" "failed"))
  else if negb (click_submit page (default "" submit_selector)) then
    (None, log (set_error result "Failed to click submit button") (Step "submit" "failed"))
  else
    match final_content page with
    | inl e => (Some e, result)
    | inr html =>
        let submission_check :=
          BrowserAutomation.check_submission_success (final_url page) html in
        match shot page "result" with
        | inl e => (Some e, result)
        | inr final_screenshot =>
            (None, conclude submission_check (set_screenshot result final_screenshot))
        end
    end.

(** Steps 3 to 5: detection, mapping, filling, the CAPTCHA check. *)
Definition detect_and_fill (page : Page) (directory_url : string)
  (saas_data : gmap string string) (logo_path : option string)
  (result : RunResult) : option Exn * RunResult :=
  let result := log result (Step "detect_form" "started") in
  let form_result :=
    BrowserAutomation.detect_form json_loads post validate_str validate_bool
      validate_float BeautifulSoup provider (page_state page) directory_url in
  if negb (form_found form_result) then
    (None, log (set_error result "No submission form found") (Step "detect_form" "failed"))
  else
    let result :=
      set_detected result
        (mkDetectedFields (fields form_result) (form_selector form_result)
           (submit_button_selector form_result) (confidence form_result)) in
    let result := log result (Step "detect_form" "success") in
    let field_mapping :=
      add_logo logo_path (fields form_result)
        (FieldMapper.map_saas_data_to_fields (fields form_result) saas_data) in
    let result := log result (Step "fill_form" "started") in
    let fill_results := fill_form page field_mapping in
    let result := set_filled result field_mapping in
    let result :=
      log result
        (StepFill (length (filter (λ p, snd p = true) fill_results))
                  (length (filter (λ p, snd p = false) fill_results))) in
    if captcha page then
      (None, log (set_error result "CAPTCHA detected - requires manual intervention")
               (Step "captcha_check" "blocked"))
    else submit_and_check page form_result result.

(** The [try] body of [execute_submission], from the start of the
    browser on. *)
Definition run_steps (page : Page) (directory_url : string)
  (saas_data : gmap string string) (logo_path : option string)
  (result : RunResult) : option Exn * RunResult :=
  let result := log result (Step "navigate" "started") in
  if negb (navigated page) then
    (None, log (set_error result "Failed to load page") (Step "navigate" "failed"))
  else
    let result := log result (Step "navigate" "success") in
    match shot page "submission" with
    | inl e => (Some e, result)
    | inr path =>
        detect_and_fill page directory_url saas_data logo_path (set_screenshot result path)
    end.

(** The [except] block: the message, the log entry, and a screenshot if
    the page exists and can still be captured. *)
Definition on_exception (page : Page) (have_page : bool) (e : Exn) (result : RunResult)
  : RunResult :=
  let result := log (set_error result (str_exn e)) (StepError (str_exn e)) in
  if have_page then
    match shot page "error" with
    | inr path => set_screenshot result path
    | inl _ => result
    end
  else result.

(** [execute_submission]: an exception can leave it only through
    [browser.stop()] in the [finally]. *)
Definition execute_submission (page : Page) (directory_url : string)
  (saas_data : gmap string string) (logo_path : option string) : Res RunResult :=
  let result :=
    match started page with
    | inl e => on_exception page false e (initial directory_url)
    | inr _ =>
        match run_steps page directory_url saas_data logo_path (initial directory_url) with
        | (None, result) => result
        | (Some e, result) => on_exception page true e result
        end
    end in
  match stopped page with
  | inl e => inl e
  | inr _ => inr result
  end.

(** A run that gets as far as the check of the outcome: the browser
    starts and stops, the page loads, the screenshots are taken, a form
    is found, there is no CAPTCHA, and the submit control is found and
    clicked. *)
Definition reaches_check (page : Page) (directory_url html : string) : Prop :=
  let form_result := BrowserAutomation.detect_form json_loads post validate_str validate_bool
      validate_float BeautifulSoup provider (page_state page) directory_url in
  let submit_selector :=
    if PyStr.truthy_opt (submit_button_selector form_result)
    then submit_button_selector form_result
    else submit_button page in
  started page = inr () ∧
  navigated page = true ∧
  (∃ path, shot page "submission" = inr path) ∧
  form_found form_result = true ∧
  captcha page = false ∧
  PyStr.truthy_opt submit_selector = true ∧
  click_submit page (default "" submit_selector) = true ∧
  final_content page = inr html ∧
  (∃ path, shot page "result" = inr path) ∧
  stopped page = inr ().

End executor.
End SubmissionExecutor.

(** ** models.py *)

Inductive SubmissionStatus :=
| PENDING
| IN_PROGRESS
| SUBMITTED
| APPROVED
| REJECTED
| FAILED
| REQUIRES_REVIEW.

#[global] Instance SubmissionStatus_eq_dec : EqDecision SubmissionStatus.
Proof. solve_decision. Defined.

Definition status_value (s : SubmissionStatus) : string :=
  match s with
  | PENDING => "pending"
  | IN_PROGRESS => "in_progress"
  | SUBMITTED => "submitted"
  | APPROVED => "approved"
  | REJECTED => "rejected"
  | FAILED => "failed"
  | REQUIRES_REVIEW => "requires_review"
  end.

(** The [log_entry] dict passed to [record_attempt]. *)
Record LogEntry := mkLogEntry {
  entry_status : string;
  entry_logs : list StepLog;
  entry_error : option string
}.

(** One element of [submission_log]: the entry with its timestamp and
    attempt index. *)
Record AttemptLog := mkAttemptLog {
  log_entry : LogEntry;
  log_timestamp : Z;
  log_attempt : Z
}.

Record DirectorySubmission := mkDirectorySubmission {
  sub_id : Z;
  saas_product_id : Z;
  directory_id : Z;
  status : SubmissionStatus;
  submitted_at : option Z;
  approved_at : option Z;
  listing_url : option string;
  attempt_count : Z;
  max_attempts : Z;
  last_attempt_at : option Z;
  submission_log : list AttemptLog;
  error_message : option string;
  screenshot_path : option string;
  detected_fields : option DetectedFields;
  filled_fields : option FieldMapping;
  created_at : Z;
  updated_at : Z
}.

Record ActivityLog := mkActivityLog {
  action : string;
  entity_type : string;
  entity_id : Z;
  message : string;
  level : string
}.

(** The two tables the scheduler touches; [submissions] is keyed by the
    primary key. *)
Record Database := mkDatabase {
  submissions : gmap Z DirectorySubmission;
  activity_logs : list ActivityLog
}.

(** ** services/submission_service.py *)

Module SubmissionService.

Definition _log_activity (action entity_type : string) (entity_id : Z) (message : string)
  (db : Database) : Database :=
  mkDatabase (submissions db)
    (activity_logs db ++ [mkActivityLog action entity_type entity_id message "info"]).

Definition get_by_id (submission_id : Z) (db : Database) : option DirectorySubmission :=
  submissions db !! submission_id.

(** The row after the flush. *)
Definition store (submission_id : Z) (s : DirectorySubmission) (db : Database) : Database :=
  mkDatabase (<[submission_id := s]> (submissions db)) (activity_logs db).

(** [if new: row.column = new] *)
Definition assign_if (new old : option string) : option string :=
  if PyStr.truthy_opt new then new else old.

(** The assignments [update_status] makes to the mapped object; [now] is
    the reading of [datetime.utcnow()] during the call. *)
Definition with_status (now : Z) (new_status : SubmissionStatus)
  (new_error_message new_listing_url new_screenshot_path : option string)
  (submission : DirectorySubmission) : DirectorySubmission :=
  mkDirectorySubmission
    (sub_id submission) (saas_product_id submission) (directory_id submission)
    new_status
    (if decide (new_status = SUBMITTED) then Some now else submitted_at submission)
    (if decide (new_status = SUBMITTED) then approved_at submission
     else if decide (new_status = APPROVED) then Some now
     else approved_at submission)
    (assign_if new_listing_url (listing_url submission))
    (attempt_count submission) (max_attempts submission)
    (last_attempt_at submission) (submission_log submission)
    (assign_if new_error_message (error_message submission))
    (assign_if new_screenshot_path (screenshot_path submission))
    (detected_fields submission) (filled_fields submission)
    (created_at submission) now.

Definition update_status (now : Z) (submission_id : Z) (new_status : SubmissionStatus)
  (new_error_message new_listing_url new_screenshot_path : option string)
  (db : Database) : option DirectorySubmission * Database :=
  match get_by_id submission_id db with
  | None => (None, db)
  | Some submission =>
      let submission :=
        with_status now new_status new_error_message new_listing_url
          new_screenshot_path submission in
      (Some submission,
       _log_activity ("submission_" +:+ status_value new_status) "submission" submission_id
         ("Submission status changed to " +:+ status_value new_status)
         (store submission_id submission db))
  end.

(** The row as [record_attempt] leaves it after the flush and the
    refresh.  The log is a list that the function extends in place and
    assigns back; the session writes the column only when the value
    assigned differs from the one loaded, which is the case for an empty
    log alone (a new list is then made).  The entry of a first attempt is
    therefore stored and the entries of later attempts are not.  The
    update stamps [updated_at] ([onupdate]). *)
Definition with_attempt (now : Z) (entry : LogEntry)
  (new_detected_fields : option DetectedFields) (new_filled_fields : FieldMapping)
  (submission : DirectorySubmission) : DirectorySubmission :=
  let count := attempt_count submission + 1 in
  mkDirectorySubmission
    (sub_id submission) (saas_product_id submission) (directory_id submission)
    (status submission) (submitted_at submission) (approved_at submission)
    (listing_url submission)
    count (max_attempts submission) (Some now)
    (match submission_log submission with
     | [] => [mkAttemptLog entry now count]
     | logs => logs
     end)
    (error_message submission) (screenshot_path submission)
    (match new_detected_fields with
     | Some d => Some d
     | None => detected_fields submission
     end)
    (match new_filled_fields with
     | [] => filled_fields submission
     | m => Some m
     end)
    (created_at submission) now.

Definition record_attempt (now : Z) (submission_id : Z) (entry : LogEntry)
  (new_detected_fields : option DetectedFields) (new_filled_fields : FieldMapping)
  (db : Database) : option DirectorySubmission * Database :=
  match get_by_id submission_id db with
  | None => (None, db)
  | Some submission =>
      let submission :=
        with_attempt now entry new_detected_fields new_filled_fields submission in
      (Some submission, store submission_id submission db)
  end.

Definition rows (db : Database) : list DirectorySubmission :=
  (map_to_list (submissions db)).*2.

(** [ORDER BY created_at ASC] *)
Definition created_le (a b : DirectorySubmission) : Prop := created_at a ≤ created_at b.

(** [ORDER BY last_attempt_at ASC NULLS FIRST] *)
Definition nulls_first_le (a b : option Z) : Prop :=
  match a, b with
  | None, _ => True
  | Some _, None => False
  | Some x, Some y => x ≤ y
  end.

Definition last_attempt_le (a b : DirectorySubmission) : Prop :=
  nulls_first_le (last_attempt_at a) (last_attempt_at b).

#[global] Instance created_le_dec : RelDecision created_le.
Proof. intros a b. unfold created_le. apply _. Defined.

#[global] Instance nulls_first_le_dec : RelDecision nulls_first_le.
Proof. intros [x|] [y|]; simpl; apply _. Defined.

#[global] Instance last_attempt_le_dec : RelDecision last_attempt_le.
Proof. intros a b. unfold last_attempt_le. apply _. Defined.

(** The [WHERE] clause of [get_pending_submissions]. *)
Definition is_pending (s : DirectorySubmission) : Prop :=
  status s = PENDING ∧ attempt_count s < max_attempts s.

#[global] Instance is_pending_dec s : Decision (is_pending s).
Proof. unfold is_pending. apply _. Defined.

(** [LIMIT limit] on rows already in order, for a [limit] that is not
    negative.  What a negative limit does depends on the database
    (SQLite returns every row, PostgreSQL refuses the query) and is not
    part of this model. *)
Definition sql_limit {A} (limit : Z) (l : list A) : list A := take (Z.to_nat limit) l.

Definition get_pending_submissions (limit : Z) (db : Database) : list DirectorySubmission :=
  sql_limit limit (merge_sort created_le (filter is_pending (rows db))).

(** [timedelta(hours=1)], in microseconds. *)
Definition one_hour : Z := 3600000000.

Definition minute : Z := 60000000.

(** [last_attempt_at IS NULL OR last_attempt_at < retry_after] *)
Definition cooled_down (retry_after : Z) (last : option Z) : Prop :=
  match last with
  | None => True
  | Some t => t < retry_after
  end.

#[global] Instance cooled_down_dec r l : Decision (cooled_down r l).
Proof. destruct l; simpl; apply _. Defined.

(** The [WHERE] clause of [get_retryable_submissions]; [retry_after] is
    [datetime.utcnow() - timedelta(hours=1)]. *)
Definition is_retryable (retry_after : Z) (s : DirectorySubmission) : Prop :=
  status s = FAILED ∧ attempt_count s < max_attempts s ∧
  cooled_down retry_after (last_attempt_at s).

#[global] Instance is_retryable_dec r s : Decision (is_retryable r s).
Proof. unfold is_retryable. apply _. Defined.

(** Every row is stored under its primary key. *)
Definition well_keyed (db : Database) : Prop :=
  ∀ i s, get_by_id i db = Some s → sub_id s = i.

Definition get_retryable_submissions (now : Z) (limit : Z) (db : Database)
  : list DirectorySubmission :=
  let retry_after := now - one_hour in
  sql_limit limit (merge_sort last_attempt_le (filter (is_retryable retry_after) (rows db))).

End SubmissionService.

(** ** Database sessions *)

(** A session: the rows as committed, and the rows as the session sees
    them (its flushed, not yet committed writes included). *)
Record Session := mkSession {
  committed : Database;
  pending : Database
}.

(** Code running inside a session; it may raise. *)
Definition Sess (A : Type) : Type := Session → Res A * Session.

#[global] Instance Sess_ret : MRet Sess := λ A x s, (inr x, s).
#[global] Instance Sess_bind : MBind Sess := λ A B f m s,
  match m s with
  | (inl e, s') => (inl e, s')
  | (inr x, s') => f x s'
  end.

Module Db.

(** A service call, made on the session's view of the rows. *)
Definition call {A} (op : Database → A * Database) : Sess A := λ s,
  let '(x, db) := op (pending s) in (inr x, mkSession (committed s) db).

(** [await db.commit()] *)
Definition commit : Sess unit := λ s, (inr (), mkSession (pending s) (pending s)).

(** A mapped object is its row in the session: the session keeps one
    object per primary key, so every query for the same key hands out
    the same object, and a write through one name is seen through every
    other.  A variable holding the object is modelled by the key. *)
Definition Ref : Type := Z.

(** [submission = await service.get_by_id(submission_id)] *)
Definition fetch (submission_id : Z) : Sess (option Ref) := λ s,
  (inr (match SubmissionService.get_by_id submission_id (pending s) with
        | Some _ => Some submission_id
        | None => None
        end), s).

(** [submission.column]: the value the object has now. *)
Definition attr {A} (column : DirectorySubmission → A) (obj : Ref) : Sess A := λ s,
  match SubmissionService.get_by_id obj (pending s) with
  | Some row => (inr (column row), s)
  | None => (inl AttributeError, s)
  end.

(** A call that returns a value or raises. *)
Definition returns {A} (r : Res A) : Sess A := λ s, (r, s).

(** Modelled from the spec: [async_session_maker] of app/database.py is
    not among the sources.  The spec leaves the job records to "the
    external persistence layer under its own transaction discipline",
    each job-state update being "a single, atomically-visible write".
    [async with async_session_maker() as db: body] is modelled as a
    session opened on the committed rows, whose writes reach the other
    sessions at [commit] and whose uncommitted writes are dropped when
    the block is left, also by an exception. *)
Definition with_session {A} (body : Sess A) (db : Database) : Res A * Database :=
  let '(r, s) := body (mkSession db db) in (r, committed s).

End Db.

(** ** workers/submission_worker.py *)

Record SubmissionWorker := mkSubmissionWorker {
  is_running : bool;
  max_concurrent : Z;
  current_tasks : Z
}.

(** What the world contributes to one call of [_process_submission]: the
    clock readings of its service calls, and what the execution of the
    submission (the executor, or the simulator in demo mode) came back
    with. *)
Record Attempt := mkAttempt {
  t_pickup : Z;
  t_record : Z;
  t_final : Z;
  outcome : Res RunResult
}.

Module Worker.

Definition with_tasks (w : SubmissionWorker) (n : Z) : SubmissionWorker :=
  mkSubmissionWorker (is_running w) (max_concurrent w) n.

(** The body of the [try], inside its session. *)
Definition try_body (a : Attempt) (submission_id : Z) : Sess unit :=
  submission ← Db.fetch submission_id;
  match submission with
  | None => mret ()
  | Some submission =>
      _ ← Db.call (SubmissionService.update_status (t_pickup a) submission_id
                     IN_PROGRESS None None None);
      _ ← Db.commit;
      result ← Db.returns (outcome a);
      _ ← Db.call (SubmissionService.record_attempt (t_record a) submission_id
                     (mkLogEntry (if r_success result then "success" else "failed")
                        (r_logs result) (r_error result))
                     (r_detected_fields result) (r_filled_fields result));
      _ ← (if r_success result then
             Db.call (SubmissionService.update_status (t_final a) submission_id
                        SUBMITTED None None (r_screenshot_path result))
           else
             count ← Db.attr attempt_count submission;
             limit ← Db.attr max_attempts submission;
             let new_status := if count >=? limit - 1 then FAILED else PENDING in
             Db.call (SubmissionService.update_status (t_final a) submission_id
                        new_status (r_error result) None (r_screenshot_path result)));
      Db.commit
  end.

(** The [except Exception as e] block, in a session of its own. *)
Definition except_body (a : Attempt) (e : Exn) (submission_id : Z) : Sess unit :=
  _ ← Db.call (SubmissionService.update_status (t_final a) submission_id
                 FAILED (Some (str_exn e)) None None);
  Db.commit.

Definition _process_submission (a : Attempt) (submission_id : Z)
  (st : SubmissionWorker * Database) : SubmissionWorker * Database :=
  let '(w, db) := st in
  let w := with_tasks w (current_tasks w + 1) in
  let '(r, db) := Db.with_session (try_body a submission_id) db in
  let db :=
    match r with
    | inr _ => db
    | inl e => (Db.with_session (except_body a e submission_id) db).2
    end in
  (with_tasks w (current_tasks w - 1), db).

(** The loop of [_process_queue] over the fetched submissions. *)
Fixpoint process_each (env : Z → Attempt) (ids : list Z)
  (st : SubmissionWorker * Database) : SubmissionWorker * Database :=
  match ids with
  | [] => st
  | submission_id :: rest =>
      if current_tasks st.1 >=? max_concurrent st.1 then st
      else process_each env rest (_process_submission (env submission_id) submission_id st)
  end.

(** The submissions one pass of the polling loop fetches. *)
Definition fetched (st : SubmissionWorker * Database) : list DirectorySubmission :=
  SubmissionService.get_pending_submissions
    (max_concurrent st.1 - current_tasks st.1) st.2.

Definition _process_queue (env : Z → Attempt)
  (st : SubmissionWorker * Database) : SubmissionWorker * Database :=
  process_each env (sub_id <$> fetched st) st.

(** The mapped object along one call: after the pickup, and after
    [record_attempt] for the result [r]. *)
Definition picked (a : Attempt) (s : DirectorySubmission) : DirectorySubmission :=
  SubmissionService.with_status (t_pickup a) IN_PROGRESS None None None s.

Definition counted (a : Attempt) (r : RunResult) (s : DirectorySubmission)
  : DirectorySubmission :=
  SubmissionService.with_attempt (t_record a)
    (mkLogEntry (if r_success r then "success" else "failed") (r_logs r) (r_error r))
    (r_detected_fields r) (r_filled_fields r) (picked a s).

End Worker.

(** ** Sample data *)

Module Sample.

(** A submission as the API creates it: pending, never attempted. *)
Definition fresh (i : Z) (limit : Z) : DirectorySubmission :=
  mkDirectorySubmission i 1 1 PENDING None None None 0 limit None [] None None None None 0 0.

(** A submission that failed after [count] attempts, the last one at [t]. *)
Definition failed_at (i : Z) (count limit : Z) (t : option Z) : DirectorySubmission :=
  mkDirectorySubmission i 1 1 FAILED None None None count limit t []
    (Some "No submission form found") None None None 0 0.

Definition db_of (l : list DirectorySubmission) : Database :=
  mkDatabase (list_to_map (map (λ s, (sub_id s, s)) l)) [].

Definition worker : SubmissionWorker := mkSubmissionWorker true 3 0.

(** A run that found no form. *)
Definition no_form_run : RunResult :=
  mkRunResult false "https://dir.example/submit" None [] (Some "screenshots/a.png")
    (Some "No submission form found")
    [Step "navigate" "started"; Step "navigate" "success";
     Step "detect_form" "started"; Step "detect_form" "failed"].

(** A run that was confirmed. *)
Definition good_run : RunResult :=
  mkRunResult true "https://dir.example/submit" None [] (Some "screenshots/b.png") None
    [Step "submit" "success"].

(** A job with the default limit of three attempts that has failed once
    and was put back in the queue. *)
Definition requeued (i : Z) : DirectorySubmission :=
  mkDirectorySubmission i 1 1 PENDING None None None 1 3 (Some 0) []
    (Some "No submission form found") None None None 0 0.

Definition attempt_at (t : Z) (o : Res RunResult) : Attempt := mkAttempt t t t o.

(** A job that failed once, at time 0, with two attempts left. *)
Definition failed_job : DirectorySubmission := failed_at 1 1 3 (Some 0).

(** A world in which every run is confirmed, at time [t]. *)
Definition all_good (t : Z) : Z → Attempt := λ _, attempt_at t (inr good_run).


(** Validators that accept exactly the values of the field's type. *)
Definition strict_str (v : json) : option string :=
  match v with
  | JStr s => Some s
  | _ => None
  end.

Definition strict_bool (v : json) : option bool :=
  match v with
  | JBool b => Some b
  | _ => None
  end.

Definition strict_float (v : json) : option Qc :=
  match v with
  | JFloat q => Some q
  | JInt z => Some (Q2Qc (inject_Z z))
  | _ => None
  end.

(** The body of a chat-completion response carrying [content]. *)
Definition chat_body (content : string) : string :=
  "{" +:+ quoted "choices" +:+ ":[{" +:+ quoted "message" +:+ ":{" +:+
  quoted "content" +:+ ":" +:+ quoted content +:+ "}}]}".

(** An endpoint that always answers 200 with [content]. *)
Definition answers (content : string) : Provider → string → string → HttpOutcome :=
  λ _ _ _, HttpResponse 200 (chat_body content).

(** An endpoint that cannot be reached. *)
Definition unreachable : Provider → string → string → HttpOutcome :=
  λ _ _ _, RequestFailed "connection refused".




(** A page with one e-mail input, as parsed. *)
Definition email_form : list node :=
  [Tag "html" []
     [Tag "body" []
        [Tag "form" [("action", "/submit")]
           [Tag "label" [("for", "email")] [NavigableString " E-mail "];
            Tag "input" [("type", "email"); ("id", "email"); ("name", "contact")] []]]]].

(** A parser that yields [soup] for every text. *)
Definition parses_to (soup : list node) : string → list node := λ _, soup.

(** An input whose [id] attribute is present and empty. *)
Definition empty_id_input : list node := [Tag "input" [("id", "")] []].

(** A page on which every step of a run succeeds and that shows [html]
    after the click; its form is found by the rule-based detector. *)
Definition smooth_page (html : string) : Page :=
  mkPage (inr ()) true (λ name, inr ("screenshots/" +:+ name +:+ ".png"))
    (inr ("iVBORw0KGgo=", "<html>")) (λ _ _ _, true) false (Some "#submit")
    (λ _, true) "https://dir.example/done" (inr html) (inr ()).

(** The dict [_prepare_saas_data] builds for a product that has a name,
    a site, a contact address and a pricing model, and nothing else. *)
Definition product_data : gmap string string :=
  list_to_map
    [ ("name", "Acme"); ("saas_name", "Acme");
      ("website_url", "https://x.io"); ("url", "https://x.io");
      ("tagline", ""); ("short_description", ""); ("long_description", "");
      ("category", ""); ("contact_email", "team@x.io"); ("contact_name", "");
      ("twitter_url", ""); ("linkedin_url", ""); ("github_url", "");
      ("pricing_model", "free"); ("pricing_details", ""); ("tags", "") ].

(** A select named [pricing_type]. *)
Definition pricing_type_field : FormField :=
  mkFormField "pricing_type" "select" None None false "#pricing_type" None.

(** A text input named [website_url]. *)
Definition website_field : FormField :=
  mkFormField "website_url" "url" (Some "Website") None true "#website_url" None.

End Sample.

(** ** workers/submission_worker.py: the product data *)

Module Product.

(** The columns of [SaaSProduct] that the worker reads. *)
Record SaaSProduct := mk {
  name : string;
  website_url : string;
  tagline : option string;
  short_description : option string;
  long_description : option string;
  category : option string;
  contact_email : string;
  contact_name : option string;
  twitter_url : option string;
  linkedin_url : option string;
  github_url : option string;
  logo_path : option string;
  pricing_model : option string;
  pricing_details : option string;
  tags : option (list string)
}.

End Product.

(** [a or b] for an [Optional[str]] and a [str]. *)
Definition or_str (a : option string) (b : string) : string :=
  if PyStr.truthy_opt a then default "" a else b.

(** [sep.join(l)] *)
Fixpoint join (sep : string) (l : list string) : string :=
  match l with
  | [] => ""
  | x :: l' =>
      match l' with
      | [] => x
      | _ => x +:+ sep +:+ join sep l'
      end
  end.

Module Prepare.

Definition _prepare_saas_data (product : Product.SaaSProduct) : gmap string string :=
  list_to_map
    [ ("name", Product.name product);
      ("saas_name", Product.name product);
      ("website_url", Product.website_url product);
      ("url", Product.website_url product);
      ("tagline", or_str (Product.tagline product) "");
      ("short_description",
       or_str (Product.short_description product) (or_str (Product.tagline product) ""));
      ("long_description",
       or_str (Product.long_description product)
         (or_str (Product.short_description product) ""));
      ("category", or_str (Product.category product) "");
      ("contact_email", Product.contact_email product);
      ("contact_name", or_str (Product.contact_name product) "");
      ("twitter_url", or_str (Product.twitter_url product) "");
      ("linkedin_url", or_str (Product.linkedin_url product) "");
      ("github_url", or_str (Product.github_url product) "");
      ("pricing_model", or_str (Product.pricing_model product) "");
      ("pricing_details", or_str (Product.pricing_details product) "");
      ("tags",
       match Product.tags product with
       | Some (x :: l) => join ", " (x :: l)
       | _ => ""
       end) ].

End Prepare.

(** ** workers/submission_worker.py: run_single_submission *)

(** What [run_single_submission] returns: the dict with the only key
    [error], or the result of the run. *)
Inductive SingleResult :=
| NotFound
| Ran (result : RunResult).

Module SingleRun.

(** The body of the [async with].  The log entry has no [error] key.
    Nothing catches an exception here: one raised between the pickup and
    the recording ([outcome a = inl e]) leaves the block. *)
Definition body (a : Attempt) (submission_id : Z) : Sess SingleResult :=
  submission ← Db.fetch submission_id;
  match submission with
  | None => mret NotFound
  | Some submission =>
      _ ← Db.call (SubmissionService.update_status (t_pickup a) submission_id
                     IN_PROGRESS None None None);
      _ ← Db.commit;
      result ← Db.returns (outcome a);
      _ ← Db.call (SubmissionService.record_attempt (t_record a) submission_id
                     (mkLogEntry (if r_success result then "success" else "failed")
                        (r_logs result) None)
                     (r_detected_fields result) (r_filled_fields result));
      _ ← (if r_success result then
             Db.call (SubmissionService.update_status (t_final a) submission_id
                        SUBMITTED None None (r_screenshot_path result))
           else
             Db.call (SubmissionService.update_status (t_final a) submission_id
                        FAILED (r_error result) None (r_screenshot_path result)));
      _ ← Db.commit;
      mret (Ran result)
  end.

Definition run_single_submission (a : Attempt) (submission_id : Z) (db : Database)
  : Res SingleResult * Database :=
  Db.with_session (body a submission_id) db.

End SingleRun.

(** ** services/submission_service.py: create, bulk_create, get_all,
    get_stats, delete *)

Module SubmissionCrud.

(** [ORDER BY created_at DESC] *)
Definition created_ge (a b : DirectorySubmission) : Prop := created_at b ≤ created_at a.

#[global] Instance created_ge_dec : RelDecision created_ge.
Proof. intros a b. unfold created_ge. apply _. Defined.

(** [if x: conditions.append(column == x)]: an absent argument adds no
    condition, and neither does 0. *)
Definition id_condition (x : option Z) (column : Z) : Prop :=
  match x with
  | Some v => if decide (v = 0) then True else column = v
  | None => True
  end.

#[global] Instance id_condition_dec x c : Decision (id_condition x c).
Proof. destruct x as [v|]; simpl; [destruct (decide (v = 0))|]; apply _. Defined.

(** The members of [SubmissionStatus] are non-empty strings, hence true. *)
Definition status_condition (x : option SubmissionStatus) (column : SubmissionStatus)
  : Prop :=
  match x with
  | Some v => column = v
  | None => True
  end.

#[global] Instance status_condition_dec x c : Decision (status_condition x c).
Proof. destruct x; simpl; apply _. Defined.

Definition matches (product directory : option Z) (st : option SubmissionStatus)
  (s : DirectorySubmission) : Prop :=
  id_condition product (saas_product_id s) ∧
  id_condition directory (directory_id s) ∧
  status_condition st (status s).

#[global] Instance matches_dec p d st s : Decision (matches p d st s).
Proof. unfold matches. apply _. Defined.

(** The rows in descending order of [created_at], [OFFSET skip], [LIMIT
    limit]; and the number of rows that satisfy the conditions. *)
Definition get_all (skip limit : Z) (product directory : option Z)
  (st : option SubmissionStatus) (db : Database) : list DirectorySubmission * Z :=
  let matching := filter (matches product directory st) (SubmissionService.rows db) in
  (SubmissionService.sql_limit limit
     (drop (Z.to_nat skip) (merge_sort created_ge matching)),
   Z.of_nat (length matching)).

(** [await self.db.delete(submission)] *)
Definition delete (submission_id : Z) (db : Database) : bool * Database :=
  match SubmissionService.get_by_id submission_id db with
  | None => (false, db)
  | Some _ =>
      (true, mkDatabase (base.delete submission_id (submissions db)) (activity_logs db))
  end.

(** The dict [get_stats] returns. *)
Record Stats := mkStats {
  total : Z;
  pending_count : Z;
  in_progress : Z;
  submitted : Z;
  approved : Z;
  failed : Z;
  rejected : Z;
  requires_review : Z;
  success_rate : Qc;
  today : Z;
  this_week : Z
}.

Definition all_statuses : list SubmissionStatus :=
  [PENDING; IN_PROGRESS; SUBMITTED; APPROVED; REJECTED; FAILED; REQUIRES_REVIEW].

(** [SELECT count(id) ... WHERE P] *)
Definition count_where (P : DirectorySubmission → Prop) `{∀ s, Decision (P s)}
  (db : Database) : Z :=
  Z.of_nat (length (filter P (SubmissionService.rows db))).

(** [GROUP BY status]: one pair for each status that occurs. *)
Definition status_counts (db : Database) : list (string * Z) :=
  omap (λ st, let n := count_where (λ s, status s = st) db in
              if n =? 0 then None else Some (status_value st, n))
    all_statuses.

(** [sum(l)] *)
Definition py_sum (l : list Z) : Z := foldr Z.add 0 l.

(** [submitted_at >= t]; a NULL is not counted. *)
Definition submitted_since (t : Z) (s : DirectorySubmission) : Prop :=
  match submitted_at s with
  | Some u => t ≤ u
  | None => False
  end.

#[global] Instance submitted_since_dec t s : Decision (submitted_since t s).
Proof. unfold submitted_since. destruct (submitted_at s); apply _. Defined.

(** [timedelta(days=1)], in microseconds. *)
Definition day : Z := 86400000000.

Section crud.

(** The primary key the database gives to the row inserted next. *)
Variable next_id : Database → Z.

(** [round(successful / total * 100, 2)], in floating point. *)
Variable rate : Z → Z → Qc.

(** The inserted row with the defaults of its columns; the two clock
    readings are those of the defaults of [created_at] and [updated_at]. *)
Definition new_submission (i t_created t_updated product directory : Z)
  : DirectorySubmission :=
  mkDirectorySubmission i product directory PENDING None None None 0 3 None []
    None None None None t_created t_updated.

Definition create (t_created t_updated product directory : Z) (db : Database)
  : DirectorySubmission * Database :=
  let i := next_id db in
  let submission := new_submission i t_created t_updated product directory in
  (submission,
   SubmissionService._log_activity "submission_created" "submission" i
     ("Created submission for directory ID " +:+ pretty directory)
     (SubmissionService.store i submission db)).

(** The directories for which the product already has a submission. *)
Definition existing_ids (product : Z) (directory_ids : list Z) (db : Database) : list Z :=
  directory_id <$>
    filter (λ s, saas_product_id s = product ∧ directory_id s ∈ directory_ids)
      (SubmissionService.rows db).

(** The flush: the new rows are inserted one after the other; [clock k]
    is the pair of clock readings for the [k]-th of them. *)
Fixpoint insert_all (clock : nat → Z * Z) (k : nat) (product : Z) (directories : list Z)
  (db : Database) : list DirectorySubmission * Database :=
  match directories with
  | [] => ([], db)
  | d :: rest =>
      let i := next_id db in
      let submission := new_submission i (clock k).1 (clock k).2 product d in
      let '(l, db') :=
        insert_all clock (S k) product rest (SubmissionService.store i submission db) in
      (submission :: l, db')
  end.

Definition bulk_create (clock : nat → Z * Z) (product : Z) (directory_ids : list Z)
  (db : Database) : list DirectorySubmission * Database :=
  let existing := existing_ids product directory_ids db in
  insert_all clock 0 product (filter (λ d, d ∉ existing) directory_ids) db.

(** [today_start] is midnight of the current day and [weekday] its
    [weekday()], both read from the clock. *)
Definition get_stats (today_start weekday : Z) (db : Database) : Stats :=
  let counts := status_counts db in
  let total := py_sum counts.*2 in
  let get k := default 0 (PyDict.get k counts) in
  let week_start := today_start - weekday * day in
  let successful := get "submitted" + get "approved" in
  mkStats total (get "pending") (get "in_progress") (get "submitted") (get "approved")
    (get "failed") (get "rejected") (get "requires_review")
    (if 0 <? total then rate successful total else Q2Qc 0)
    (count_where (submitted_since today_start) db)
    (count_where (submitted_since week_start) db).

End crud.
End SubmissionCrud.

(** ** config.py *)

Record Settings := mkSettings {
  OPENAI_API_KEY : option string;
  ANTHROPIC_API_KEY : option string;
  GOOGLE_API_KEY : option string;
  GROQ_API_KEY : option string;
  LLM_PROVIDER : string;
  LLM_MODEL : string;
  CORS_ORIGINS : string
}.

Module Config.

Definition cors_origins_list (settings : Settings) : list string :=
  if String.eqb (CORS_ORIGINS settings) "*" then ["*"]
  else
    filter (λ origin, PyStr.truthy origin = true)
      (PyStr.strip <$> PyStr.split "," (CORS_ORIGINS settings)).

End Config.

(** ** automation/form_detector.py: the choice of the provider *)

Module ProviderSetup.

(** [self.api_key] *)
Definition api_key (settings : Settings) (p : Provider) : option string :=
  match p with
  | OpenAIProvider => OPENAI_API_KEY settings
  | AnthropicProvider => ANTHROPIC_API_KEY settings
  | GeminiProvider => GOOGLE_API_KEY settings
  | GroqProvider => GROQ_API_KEY settings
  end.

(** [self.model] *)
Definition model (settings : Settings) (p : Provider) : string :=
  match p with
  | OpenAIProvider =>
      if PyStr.truthy (LLM_MODEL settings) then LLM_MODEL settings else "gpt-4o"
  | AnthropicProvider => "claude-3-5-sonnet-20241022"
  | GeminiProvider =>
      if PyStr.truthy (LLM_MODEL settings) && String.prefix "gemini" (LLM_MODEL settings)
      then LLM_MODEL settings
      else "gemini-2.0-flash"
  | GroqProvider => "llama-3.2-90b-vision-preview"
  end.

(** [self.base_url] *)
Definition base_url (settings : Settings) (p : Provider) : string :=
  match p with
  | OpenAIProvider => "https://api.openai.com/v1/chat/completions"
  | AnthropicProvider => "https://api.anthropic.com/v1/messages"
  | GeminiProvider =>
      "https://generativelanguage.googleapis.com/v1beta/models/" +:+
      model settings GeminiProvider +:+ ":generateContent"
  | GroqProvider => "https://api.groq.com/openai/v1/chat/completions"
  end.

(** [FormDetectionService.__init__] *)
Definition select_provider (settings : Settings) : Provider :=
  if String.eqb (LLM_PROVIDER settings) "gemini" && PyStr.truthy_opt (GOOGLE_API_KEY settings)
  then GeminiProvider
  else if String.eqb (LLM_PROVIDER settings) "groq" && PyStr.truthy_opt (GROQ_API_KEY settings)
  then GroqProvider
  else if String.eqb (LLM_PROVIDER settings) "anthropic"
          && PyStr.truthy_opt (ANTHROPIC_API_KEY settings)
  then AnthropicProvider
  else if PyStr.truthy_opt (OPENAI_API_KEY settings) then OpenAIProvider
  else if PyStr.truthy_opt (GOOGLE_API_KEY settings) then GeminiProvider
  else if PyStr.truthy_opt (GROQ_API_KEY settings) then GroqProvider
  else OpenAIProvider.

End ProviderSetup.

(** ** More sample data *)

Module Fixture.

(** A database that gives the next row the number after the largest
    primary key in use. *)
Definition next_id (db : Database) : Z :=
  1 + foldr Z.max 0 (map_to_list (submissions db)).*1.

(** A page that loads and shows its form, and then a CAPTCHA. *)
Definition captcha_page : Page :=
  mkPage (inr ()) true (λ name, inr ("screenshots/" +:+ name +:+ ".png"))
    (inr ("iVBORw0KGgo=", "<html>")) (λ _ _ _, true) true (Some "#submit")
    (λ _, true) "https://dir.example/submit" (inr "<html>") (inr ()).

(** A page that does not load. *)
Definition dead_page : Page :=
  mkPage (inr ()) false (λ name, inr ("screenshots/" +:+ name +:+ ".png"))
    (inl (PageError "page closed")) (λ _ _ _, false) false None
    (λ _, false) "about:blank" (inr "") (inr ()).

(** A form with one file input, as parsed. *)
Definition upload_form : list node :=
  [Tag "form" [] [Tag "input" [("type", "file"); ("id", "logo")] []]].

(** [s * n] *)
Fixpoint repeat_text (n : nat) (s : string) : string :=
  match n with
  | O => ""
  | S k => s +:+ repeat_text k s
  end.

(** The letter e with an acute accent: one character, two bytes. *)
Definition e_acute : string := String (ascii_of_nat 195) (String (ascii_of_nat 169) "").

(** A page of [n] such letters. *)
Definition accented_page (n : Z) : string := repeat_text (Z.to_nat n) e_acute.

(** An endpoint that fails with the markup it was sent as its message. *)
Definition echo : Provider → string → string → HttpOutcome :=
  λ _ _ markup, RequestFailed markup.

(** A job submitted at time [t]. *)
Definition submitted_job (i t : Z) : DirectorySubmission :=
  mkDirectorySubmission i 1 2 SUBMITTED (Some t) None None 1 3 (Some t) [] None None
    None None 0 t.

(** One job that waits, one that failed, one submitted on the third day
    and one on the fourth. *)
Definition mixed_db : Database :=
  Sample.db_of
    [Sample.fresh 7 3; Sample.failed_job;
     submitted_job 8 (2 * SubmissionCrud.day + 5); submitted_job 9 (3 * SubmissionCrud.day + 5)].

(** [s] with its double quotes and line breaks escaped, as inside a JSON
    string. *)
Fixpoint escape (s : string) : string :=
  match s with
  | "" => ""
  | String c r =>
      if Ascii.eqb c JsonRef.dquote
      then String JsonRef.backslash (String c (escape r))
      else if Ascii.eqb c (ascii_of_nat 10)
      then String JsonRef.backslash (String "n" (escape r))
      else String c (escape r)
  end.

(** An endpoint whose model always answers with the text [content]. *)
Definition answers_text (content : string) : Provider → string → string → HttpOutcome :=
  Sample.answers (escape content).

End Fixture.

(** * Properties *)

(** ** The submission service and the worker *)

Section worker_facts.

Import SubmissionService.

Implicit Types (db : Database) (w : SubmissionWorker) (a : Attempt).
Implicit Types (s : DirectorySubmission) (i j : Z).

Lemma get_store i s db : get_by_id i (store i s db) = Some s.
Proof. unfold get_by_id, store; simpl. apply lookup_insert_eq. Qed.

Lemma get_store_ne i j s db : i ≠ j → get_by_id j (store i s db) = get_by_id j db.
Proof. intros Hne. unfold get_by_id, store; simpl. by apply lookup_insert_ne. Qed.

Lemma get_log_activity i x y k m db :
  get_by_id i (_log_activity x y k m db) = get_by_id i db.
Proof. reflexivity. Qed.

Lemma update_status_found now i st em lu sp db s :
  get_by_id i db = Some s →
  get_by_id i (update_status now i st em lu sp db).2 = Some (with_status now st em lu sp s).
Proof.
  intros Hs. unfold update_status. rewrite Hs. simpl.
  rewrite get_log_activity. apply get_store.
Qed.

Lemma update_status_other now i j st em lu sp db :
  i ≠ j → get_by_id j (update_status now i st em lu sp db).2 = get_by_id j db.
Proof.
  intros Hne. unfold update_status. destruct (get_by_id i db); simpl; [|done].
  rewrite get_log_activity. by apply get_store_ne.
Qed.

Lemma record_attempt_found now i e df ff db s :
  get_by_id i db = Some s →
  get_by_id i (record_attempt now i e df ff db).2 = Some (with_attempt now e df ff s).
Proof. intros Hs. unfold record_attempt. rewrite Hs. simpl. apply get_store. Qed.

Lemma record_attempt_other now i j e df ff db :
  i ≠ j → get_by_id j (record_attempt now i e df ff db).2 = get_by_id j db.
Proof.
  intros Hne. unfold record_attempt. destruct (get_by_id i db); simpl; [|done].
  by apply get_store_ne.
Qed.

(** The row of a submission after one call of [_process_submission],
    case by case. *)

Lemma snd_eq {A B} (p : A * B) x y : p = (x, y) → y = p.2.
Proof. by intros ->. Qed.

Lemma process_raised a i w db s e :
  get_by_id i db = Some s →
  outcome a = inl e →
  get_by_id i (Worker._process_submission a i (w, db)).2
  = Some (with_status (t_final a) FAILED (Some (str_exn e)) None None (Worker.picked a s)).
Proof.
  intros Hs Ho.
  unfold Worker._process_submission, Db.with_session, Worker.try_body.
  unfold mbind, Sess_bind, Db.fetch, Db.call, Db.commit, Db.returns; simpl.
  rewrite Hs, Ho; simpl.
  unfold Worker.except_body, mbind, Sess_bind, Db.call, Db.commit; simpl.
  destruct (update_status (t_pickup a) i IN_PROGRESS None None None db) as [x db1] eqn:E1.
  simpl.
  destruct (update_status (t_final a) i FAILED (Some (str_exn e)) None None db1)
    as [y db2] eqn:E2.
  simpl. rewrite (snd_eq _ _ _ E2). apply update_status_found.
  rewrite (snd_eq _ _ _ E1). by apply update_status_found.
Qed.

Lemma process_returned a i w db s r :
  get_by_id i db = Some s →
  outcome a = inr r →
  get_by_id i (Worker._process_submission a i (w, db)).2
  = Some (if r_success r then
            with_status (t_final a) SUBMITTED None None (r_screenshot_path r)
              (Worker.counted a r s)
          else
            with_status (t_final a)
              (if attempt_count (Worker.counted a r s)
                  >=? max_attempts (Worker.counted a r s) - 1
               then FAILED else PENDING)
              (r_error r) None (r_screenshot_path r) (Worker.counted a r s)).
Proof.
  intros Hs Ho.
  unfold Worker._process_submission, Db.with_session, Worker.try_body.
  unfold mbind, Sess_bind, Db.fetch, Db.call, Db.commit, Db.returns; simpl.
  rewrite Hs, Ho; simpl.
  destruct (update_status (t_pickup a) i IN_PROGRESS None None None db) as [x db1] eqn:E1.
  simpl.
  assert (H1 : get_by_id i db1 = Some (Worker.picked a s)).
  { rewrite (snd_eq _ _ _ E1). by apply update_status_found. }
  destruct (record_attempt (t_record a) i _ (r_detected_fields r) (r_filled_fields r) db1)
    as [y db2] eqn:E2.
  simpl.
  assert (H2 : get_by_id i db2 = Some (Worker.counted a r s)).
  { rewrite (snd_eq _ _ _ E2). by apply record_attempt_found. }
  destruct (r_success r); simpl.
  - destruct (update_status (t_final a) i SUBMITTED None None (r_screenshot_path r) db2)
      as [z db3] eqn:E3.
    simpl. rewrite (snd_eq _ _ _ E3). by apply update_status_found.
  - unfold Db.attr; simpl. repeat (rewrite H2; simpl).
    destruct (update_status (t_final a) i _ (r_error r) None (r_screenshot_path r) db2)
      as [z db3] eqn:E3.
    simpl. rewrite (snd_eq _ _ _ E3). by apply update_status_found.
Qed.

Lemma process_missing a i w db :
  get_by_id i db = None →
  (Worker._process_submission a i (w, db)).2 = db.
Proof.
  intros Hs.
  unfold Worker._process_submission, Db.with_session, Worker.try_body.
  unfold mbind, Sess_bind, Db.fetch; simpl.
  by rewrite Hs.
Qed.

Lemma process_other a i j w db :
  i ≠ j →
  get_by_id j (Worker._process_submission a i (w, db)).2 = get_by_id j db.
Proof.
  intros Hne.
  destruct (get_by_id i db) as [s|] eqn:Hs; [|by rewrite process_missing].
  unfold Worker._process_submission, Db.with_session, Worker.try_body.
  unfold mbind, Sess_bind, Db.fetch, Db.call, Db.commit, Db.returns; simpl.
  rewrite Hs; simpl.
  destruct (update_status (t_pickup a) i IN_PROGRESS None None None db) as [x db1] eqn:E1.
  simpl.
  assert (H1 : get_by_id j db1 = get_by_id j db).
  { rewrite (snd_eq _ _ _ E1). by apply update_status_other. }
  assert (H1' : get_by_id i db1 = Some (Worker.picked a s)).
  { rewrite (snd_eq _ _ _ E1). by apply update_status_found. }
  destruct (outcome a) as [e|r]; simpl.
  - unfold Worker.except_body, mbind, Sess_bind, Db.call, Db.commit; simpl.
    destruct (update_status (t_final a) i FAILED (Some (str_exn e)) None None db1)
      as [y db2] eqn:E2.
    simpl. rewrite (snd_eq _ _ _ E2). by rewrite update_status_other.
  - destruct (record_attempt (t_record a) i _ (r_detected_fields r) (r_filled_fields r) db1)
      as [y db2] eqn:E2.
    simpl.
    assert (H2 : get_by_id j db2 = get_by_id j db).
    { rewrite (snd_eq _ _ _ E2). by rewrite record_attempt_other. }
    assert (H2' : get_by_id i db2 = Some (Worker.counted a r s)).
    { rewrite (snd_eq _ _ _ E2). by apply record_attempt_found. }
    destruct (r_success r); simpl.
    + destruct (update_status (t_final a) i SUBMITTED None None (r_screenshot_path r) db2)
        as [z db3] eqn:E3.
      simpl. rewrite (snd_eq _ _ _ E3). by rewrite update_status_other.
    + unfold Db.attr; simpl. repeat (rewrite H2'; simpl).
      destruct (update_status (t_final a) i _ (r_error r) None (r_screenshot_path r) db2)
        as [z db3] eqn:E3.
      simpl. rewrite (snd_eq _ _ _ E3). by rewrite update_status_other.
Qed.

Lemma process_tasks a i w db :
  (Worker._process_submission a i (w, db)).1 = w.
Proof.
  unfold Worker._process_submission.
  destruct (Db.with_session (Worker.try_body a i) db) as [r db1].
  destruct w as [run m c]; unfold Worker.with_tasks; simpl.
  f_equal. lia.
Qed.

End worker_facts.

(** ** The two queries and the polling loop *)

Section query_facts.

Import SubmissionService.

Implicit Types (db : Database) (s : DirectorySubmission) (i j : Z).

Lemma elem_of_rows s db : s ∈ rows db ↔ ∃ i, get_by_id i db = Some s.
Proof.
  unfold rows, get_by_id. rewrite list_elem_of_fmap. split.
  - intros [[i x] [-> Hin]]. exists i. by apply elem_of_map_to_list in Hin.
  - intros [i Hi]. exists (i, s). split; [done|]. by apply elem_of_map_to_list.
Qed.

Lemma elem_of_sql_limit {A} (x : A) limit (l : list A) : x ∈ sql_limit limit l → x ∈ l.
Proof.
  unfold sql_limit. rewrite elem_of_take. intros (k & Hk & _).
  by eapply list_elem_of_lookup_2.
Qed.

Lemma sql_limit_all {A} limit (l : list A) :
  Z.of_nat (length l) ≤ limit → sql_limit limit l = l.
Proof. intros H. unfold sql_limit. apply take_ge. lia. Qed.

Lemma sql_limit_length {A} limit (l : list A) :
  0 ≤ limit → Z.of_nat (length (sql_limit limit l)) ≤ limit.
Proof. intros H. unfold sql_limit. rewrite length_take. lia. Qed.

#[local] Instance nulls_first_le_trans : Transitive nulls_first_le.
Proof. intros [x|] [y|] [z|]; simpl; try done. lia. Qed.

#[local] Instance nulls_first_le_total : Total nulls_first_le.
Proof. intros [x|] [y|]; simpl; auto. lia. Qed.

#[local] Instance last_attempt_le_trans : Transitive last_attempt_le.
Proof. intros a b c. unfold last_attempt_le. apply nulls_first_le_trans. Qed.

#[local] Instance last_attempt_le_total : Total last_attempt_le.
Proof. intros a b. unfold last_attempt_le. apply nulls_first_le_total. Qed.

#[local] Instance created_le_trans : Transitive created_le.
Proof. intros a b c. unfold created_le. lia. Qed.

#[local] Instance created_le_total : Total created_le.
Proof. intros a b. unfold created_le. lia. Qed.

Lemma StronglySorted_sql_limit {A} (R : relation A) limit (l : list A) :
  StronglySorted R l → StronglySorted R (sql_limit limit l).
Proof.
  intros H. unfold sql_limit.
  rewrite <- (take_drop (Z.to_nat limit) l) in H.
  by apply StronglySorted_app_1_l in H.
Qed.

Lemma elem_of_pending s limit db :
  s ∈ get_pending_submissions limit db → s ∈ rows db ∧ is_pending s.
Proof.
  unfold get_pending_submissions. intros H%elem_of_sql_limit.
  rewrite merge_sort_Permutation in H.
  apply list_elem_of_filter in H. tauto.
Qed.

Lemma pending_sorted limit db :
  StronglySorted created_le (get_pending_submissions limit db).
Proof. apply StronglySorted_sql_limit, StronglySorted_merge_sort; apply _. Qed.

Lemma elem_of_retryable s now limit db :
  s ∈ get_retryable_submissions now limit db →
  s ∈ rows db ∧ is_retryable (now - one_hour) s.
Proof.
  unfold get_retryable_submissions. intros H%elem_of_sql_limit.
  rewrite merge_sort_Permutation in H.
  apply list_elem_of_filter in H. tauto.
Qed.

Lemma pending_elem_of s limit db :
  s ∈ rows db → is_pending s →
  Z.of_nat (length (filter is_pending (rows db))) ≤ limit →
  s ∈ get_pending_submissions limit db.
Proof.
  intros Hin Hs Hlim. unfold get_pending_submissions.
  rewrite sql_limit_all.
  - rewrite merge_sort_Permutation. apply list_elem_of_filter. done.
  - by rewrite merge_sort_Permutation.
Qed.

Lemma retryable_elem_of s now limit db :
  s ∈ rows db → is_retryable (now - one_hour) s →
  Z.of_nat (length (filter (is_retryable (now - one_hour)) (rows db))) ≤ limit →
  s ∈ get_retryable_submissions now limit db.
Proof.
  intros Hin Hs Hlim. unfold get_retryable_submissions.
  rewrite sql_limit_all.
  - rewrite merge_sort_Permutation. apply list_elem_of_filter. done.
  - by rewrite merge_sort_Permutation.
Qed.

Lemma retryable_sorted now limit db :
  StronglySorted last_attempt_le (get_retryable_submissions now limit db).
Proof. apply StronglySorted_sql_limit, StronglySorted_merge_sort; apply _. Qed.

(** The worker keeps the rows under their keys. *)

Lemma well_keyed_process a i w db :
  well_keyed db → well_keyed (Worker._process_submission a i (w, db)).2.
Proof.
  intros Hk j s Hj.
  destruct (decide (i = j)) as [<-|Hne].
  - destruct (get_by_id i db) as [s0|] eqn:Hs.
    + pose proof (Hk _ _ Hs) as Hid.
      destruct (outcome a) as [e|r] eqn:Ho.
      * rewrite (process_raised a i w db s0 e Hs Ho) in Hj.
        injection Hj as <-. done.
      * rewrite (process_returned a i w db s0 r Hs Ho) in Hj.
        injection Hj as <-. by destruct (r_success r).
    + rewrite process_missing in Hj by done. congruence.
  - rewrite process_other in Hj by done. by apply Hk.
Qed.

(** A pass of the loop touches only the submissions it was given. *)
Lemma process_each_other env ids st j :
  j ∉ ids →
  get_by_id j (Worker.process_each env ids st).2 = get_by_id j st.2.
Proof.
  revert st. induction ids as [|i ids IH]; intros st Hj; simpl; [done|].
  apply not_elem_of_cons in Hj as [Hne Hj].
  destruct (current_tasks st.1 >=? max_concurrent st.1); [done|].
  rewrite IH by done. destruct st as [w db]. by apply process_other.
Qed.

Lemma fetched_pending st s :
  s ∈ Worker.fetched st → status s = PENDING ∧ ∃ i, get_by_id i st.2 = Some s.
Proof.
  unfold Worker.fetched. intros [Hin [Hst _]]%elem_of_pending.
  split; [done|]. by apply elem_of_rows.
Qed.

Lemma not_pending_not_fetched st j s :
  well_keyed st.2 →
  get_by_id j st.2 = Some s → status s ≠ PENDING →
  j ∉ sub_id <$> Worker.fetched st.
Proof.
  intros Hk Hj Hst Hin.
  apply list_elem_of_fmap in Hin as (s' & -> & Hin).
  apply fetched_pending in Hin as [Hp [i Hi]].
  pose proof (Hk _ _ Hi) as <-.
  congruence.
Qed.

Lemma process_queue_skips env st j s :
  well_keyed st.2 →
  get_by_id j st.2 = Some s → status s ≠ PENDING →
  get_by_id j (Worker._process_queue env st).2 = Some s.
Proof.
  intros Hk Hj Hst. unfold Worker._process_queue.
  rewrite process_each_other; [done|]. by eapply not_pending_not_fetched.
Qed.

End query_facts.

(** ** Attempt accounting, retry eligibility and stale fields *)

Section worker_claims.

Import SubmissionService.

Implicit Types (db : Database) (w : SubmissionWorker) (a : Attempt).
Implicit Types (s : DirectorySubmission) (i j : Z).

Lemma well_keyed_db_of l : well_keyed (Sample.db_of l).
Proof.
  intros i s. unfold get_by_id, Sample.db_of; simpl. intros H.
  apply elem_of_list_to_map_2 in H.
  apply list_elem_of_In, in_map_iff in H as (x & Hx & _). congruence.
Qed.

(** C1.  After a run that returned a failed result the scheduler has
    counted the attempt, and it sets the job to FAILED exactly when the
    count it reads back from the job, which is the incremented one, is
    at least [max_attempts - 1], and to PENDING otherwise.  The job is
    thus declared FAILED one attempt before its count reaches
    [max_attempts]: with the default limit of three attempts the second
    failed run ends in FAILED with [attempt_count = 2], where the
    specification has PENDING. *)
Theorem failed_run_status a i w db s r :
  get_by_id i db = Some s →
  outcome a = inr r →
  r_success r = false →
  ∃ s', get_by_id i (Worker._process_submission a i (w, db)).2 = Some s' ∧
        attempt_count s' = attempt_count s + 1 ∧
        max_attempts s' = max_attempts s ∧
        (status s' = FAILED ↔ max_attempts s' - 1 ≤ attempt_count s') ∧
        (status s' = PENDING ↔ attempt_count s' < max_attempts s' - 1).
Proof.
  intros Hs Ho Hr.
  eexists. split; [by apply process_returned|].
  rewrite Hr. simpl.
  destruct (Z.geb_spec (attempt_count s + 1) (max_attempts s - 1)) as [H|H].
  - repeat split; try done; try lia.
  - repeat split; try done; try lia.
Qed.

Lemma failed_run_status_second_failure :
  ∃ s', get_by_id 7
          (Worker._process_submission (Sample.attempt_at 100 (inr Sample.no_form_run)) 7
             (Sample.worker, Sample.db_of [Sample.requeued 7])).2 = Some s' ∧
        attempt_count s' = 2 ∧ max_attempts s' = 3 ∧ status s' = FAILED.
Proof.
  destruct (failed_run_status (Sample.attempt_at 100 (inr Sample.no_form_run)) 7
              Sample.worker (Sample.db_of [Sample.requeued 7]) (Sample.requeued 7)
              Sample.no_form_run eq_refl eq_refl eq_refl)
    as (s' & Hget & Hc & Hm & Hf & _).
  exists s'. simpl in Hc, Hm. repeat split; try done.
  apply Hf. rewrite Hc, Hm. done.
Defined.

(** C3, as stated, fails: a run that leaves the job through an exception
    is recorded as FAILED, but its attempt is not counted. *)
Lemma crashed_attempt_not_counted :
  (attempt_count <$>
     get_by_id 7
       (Worker._process_submission (Sample.attempt_at 100 (inl (PageError "boom"))) 7
          (Sample.worker, Sample.db_of [Sample.fresh 7 3])).2)
  ≠ Some (attempt_count (Sample.fresh 7 3) + 1).
Proof. vm_compute. discriminate. Qed.

(** C3 (amended).  [attempt_count] never decreases.  It increases by
    exactly one when the run returns a result, success or classified
    failure.  When an exception is caught at the job boundary the job is
    set to FAILED, the exception message is stored when it is not empty,
    and [attempt_count] is left as it was.  No other job is touched. *)
Theorem attempt_accounting a i w db s :
  get_by_id i db = Some s →
  (∃ s', get_by_id i (Worker._process_submission a i (w, db)).2 = Some s' ∧
         attempt_count s ≤ attempt_count s' ∧
         max_attempts s' = max_attempts s ∧
         (∀ r, outcome a = inr r → attempt_count s' = attempt_count s + 1) ∧
         (∀ e, outcome a = inl e →
               attempt_count s' = attempt_count s ∧ status s' = FAILED ∧
               (str_exn e ≠ "" → error_message s' = Some (str_exn e)))) ∧
  (∀ j, j ≠ i →
        get_by_id j (Worker._process_submission a i (w, db)).2 = get_by_id j db).
Proof.
  intros Hs. split; [|intros j Hne; by apply process_other].
  destruct (outcome a) as [e|r] eqn:Ho.
  - eexists. split; [by eapply process_raised|].
    simpl. split; [lia|]. split; [done|]. split; [done|].
    intros e' [= <-]. split; [done|]. split; [done|].
    unfold assign_if. simpl.
    intros Hne. by destruct (str_exn e).
  - eexists. split; [by eapply process_returned|].
    destruct (r_success r); simpl; repeat split; try done; try lia.
Qed.

Lemma attempt_accounting_sample :
  ∃ s', get_by_id 7
          (Worker._process_submission (Sample.attempt_at 100 (inr Sample.good_run)) 7
             (Sample.worker, Sample.db_of [Sample.fresh 7 3])).2 = Some s' ∧
        attempt_count s' = 1.
Proof.
  destruct (attempt_accounting (Sample.attempt_at 100 (inr Sample.good_run)) 7
              Sample.worker (Sample.db_of [Sample.fresh 7 3]) (Sample.fresh 7 3) eq_refl)
    as [(s' & Hget & _ & _ & Hr & _) _].
  exists s'. split; [done|]. by rewrite (Hr _ eq_refl).
Defined.

(** C2, as stated, fails twice.  A job that failed exactly one hour ago
    is not returned by the retry query, although one hour has elapsed;
    and 61 minutes after the failure, when the query does return the
    job, a pass of the polling loop fetches nothing and leaves the job
    as it is. *)
Lemma retry_after_one_hour_not_polled :
  let db := Sample.db_of [Sample.failed_job] in
  (sub_id <$> get_retryable_submissions one_hour 10 db) = [] ∧
  (sub_id <$> get_retryable_submissions (61 * minute) 10 db) = [1] ∧
  (sub_id <$> Worker.fetched (Sample.worker, db)) = [] ∧
  get_by_id 1 (Worker._process_queue (Sample.all_good (61 * minute)) (Sample.worker, db)).2
  = Some Sample.failed_job.
Proof. vm_compute. done. Qed.

(** C2 (amended).  The retry query returns only FAILED jobs whose
    [attempt_count] is below [max_attempts] and that were never
    attempted or were last attempted more than one hour ago; it returns
    every such job when there are no more of them than the limit; its
    result is
    in ascending order of [last_attempt_at], never-attempted jobs first,
    and no longer than the limit.  The polling loop fetches PENDING jobs
    only: a FAILED job is not fetched, and a pass leaves it unchanged.
    A FAILED job with attempts left that was last attempted 10 minutes
    ago is not returned by the retry query; 61 minutes after the attempt
    it is, when the jobs then eligible are no more than the limit. *)
Theorem retry_eligibility :
  (∀ now limit db s,
     s ∈ get_retryable_submissions now limit db →
     s ∈ rows db ∧ status s = FAILED ∧ attempt_count s < max_attempts s ∧
     (last_attempt_at s = None ∨ ∃ t, last_attempt_at s = Some t ∧ one_hour < now - t)) ∧
  (∀ now limit db s,
     s ∈ rows db → status s = FAILED → attempt_count s < max_attempts s →
     (last_attempt_at s = None ∨ ∃ t, last_attempt_at s = Some t ∧ one_hour < now - t) →
     Z.of_nat (length (filter (is_retryable (now - one_hour)) (rows db))) ≤ limit →
     s ∈ get_retryable_submissions now limit db) ∧
  (∀ now limit db,
     StronglySorted last_attempt_le (get_retryable_submissions now limit db) ∧
     (0 ≤ limit → Z.of_nat (length (get_retryable_submissions now limit db)) ≤ limit)) ∧
  (∀ env st j s,
     well_keyed st.2 → get_by_id j st.2 = Some s → status s = FAILED →
     (s ∉ Worker.fetched st) ∧
     get_by_id j (Worker._process_queue env st).2 = Some s) ∧
  (∀ limit db s t,
     s ∈ rows db → status s = FAILED → attempt_count s < max_attempts s →
     last_attempt_at s = Some t →
     (s ∉ get_retryable_submissions (t + 10 * minute) limit db) ∧
     (Z.of_nat (length (filter (is_retryable (t + 61 * minute - one_hour)) (rows db))) ≤ limit →
      s ∈ get_retryable_submissions (t + 61 * minute) limit db)).
Proof.
  split; [|split; [|split; [|split]]].
  - intros now limit db s (Hin & Hst & Hc & Hcool)%elem_of_retryable.
    repeat split; try done.
    unfold cooled_down in Hcool. destruct (last_attempt_at s) as [t|]; [|by left].
    right. exists t. split; [done|lia].
  - intros now limit db s Hin Hst Hc Hcool Hlim.
    apply retryable_elem_of; try done.
    repeat split; try done.
    unfold cooled_down. destruct Hcool as [->|(t & -> & Ht)]; [done|lia].
  - intros now limit db. split; [apply retryable_sorted|].
    intros H. unfold get_retryable_submissions. by apply sql_limit_length.
  - intros env st j s Hk Hj Hst. split.
    + intros [Hp _]%fetched_pending. congruence.
    + apply process_queue_skips; try done. congruence.
  - intros limit db s t Hin Hst Hc Ht. split.
    + intros (_ & _ & _ & Hcool)%elem_of_retryable.
      rewrite Ht in Hcool. unfold cooled_down, one_hour, minute in Hcool. lia.
    + intros Hlim. apply retryable_elem_of; try done.
      repeat split; try done.
      rewrite Ht. unfold cooled_down, one_hour, minute. lia.
Qed.

Lemma retry_eligibility_sample :
  let db := Sample.db_of [Sample.failed_job; Sample.fresh 7 3; Sample.fresh 8 3] in
  (Sample.failed_job ∉ get_retryable_submissions (0 + 10 * minute) 1 db) ∧
  (Sample.failed_job ∈ get_retryable_submissions (0 + 61 * minute) 1 db) ∧
  (Sample.failed_job ∉ Worker.fetched (Sample.worker, db)).
Proof.
  intros db.
  destruct retry_eligibility as (_ & _ & _ & Hpoll & Hex).
  assert (Hin : Sample.failed_job ∈ rows db).
  { apply elem_of_rows. exists 1. reflexivity. }
  destruct (Hex 1 db Sample.failed_job 0 Hin eq_refl) as [H10 H61].
  - simpl. lia.
  - reflexivity.
  - split; [done|]. split; [apply H61; vm_compute; discriminate|].
    apply (Hpoll (Sample.all_good 0) (Sample.worker, db) 1 Sample.failed_job).
    + apply well_keyed_db_of.
    + reflexivity.
    + reflexivity.
Defined.

(** C10.  A call of [update_status] without an error message leaves
    [error_message] as it was, and likewise [screenshot_path] and
    [listing_url] when their arguments are absent.  In particular the
    transition to SUBMITTED after a successful run keeps the error
    message of an earlier failure: a job whose run failed with a message
    and whose next run succeeds ends SUBMITTED with that message. *)
Theorem stale_fields_kept :
  (∀ now i st em lu sp db s,
     get_by_id i db = Some s →
     ∃ s', get_by_id i (update_status now i st em lu sp db).2 = Some s' ∧
           status s' = st ∧
           (em = None → error_message s' = error_message s) ∧
           (sp = None → screenshot_path s' = screenshot_path s) ∧
           (lu = None → listing_url s' = listing_url s)) ∧
  (∀ a i w db s r,
     get_by_id i db = Some s → outcome a = inr r → r_success r = true →
     ∃ s', get_by_id i (Worker._process_submission a i (w, db)).2 = Some s' ∧
           status s' = SUBMITTED ∧
           error_message s' = error_message s ∧
           listing_url s' = listing_url s ∧
           (r_screenshot_path r = None → screenshot_path s' = screenshot_path s)) ∧
  (∀ a1 a2 i w db s r1 r2 msg,
     get_by_id i db = Some s →
     outcome a1 = inr r1 → r_success r1 = false → r_error r1 = Some msg → msg ≠ "" →
     outcome a2 = inr r2 → r_success r2 = true →
     ∃ s', get_by_id i
             (Worker._process_submission a2 i
                (Worker._process_submission a1 i (w, db))).2 = Some s' ∧
           status s' = SUBMITTED ∧ error_message s' = Some msg).
Proof.
  split; [|split].
  - intros now i st em lu sp db s Hs.
    eexists. split; [by apply update_status_found|].
    simpl. split; [done|]. repeat split; by intros ->.
  - intros a i w db s r Hs Ho Hr.
    eexists. split; [by apply process_returned|].
    rewrite Hr. simpl. repeat split. by intros ->.
  - intros a1 a2 i w db s r1 r2 msg Hs Ho1 Hr1 He1 Hmsg Ho2 Hr2.
    pose proof (process_returned a1 i w db s r1 Hs Ho1) as H1.
    destruct (Worker._process_submission a1 i (w, db)) as [w1 db1] eqn:E1.
    simpl in H1.
    eexists. split; [by eapply process_returned|].
    rewrite Hr1, Hr2. simpl. split; [done|].
    rewrite He1. unfold assign_if. simpl.
    unfold PyStr.truthy. destruct msg; [done|]. done.
Qed.

Lemma stale_fields_kept_sample :
  ∃ s', get_by_id 7
          (Worker._process_submission (Sample.attempt_at 200 (inr Sample.good_run)) 7
             (Worker._process_submission (Sample.attempt_at 100 (inr Sample.no_form_run)) 7
                (Sample.worker, Sample.db_of [Sample.fresh 7 3]))).2 = Some s' ∧
        status s' = SUBMITTED ∧ error_message s' = Some "No submission form found".
Proof.
  destruct stale_fields_kept as (_ & _ & H).
  apply (H (Sample.attempt_at 100 (inr Sample.no_form_run))
           (Sample.attempt_at 200 (inr Sample.good_run)) 7 Sample.worker
           (Sample.db_of [Sample.fresh 7 3]) (Sample.fresh 7 3)
           Sample.no_form_run Sample.good_run "No submission form found");
    try reflexivity.
  discriminate.
Defined.

End worker_claims.

(** ** Strings: occurrences, [split] and [strip] *)

Section string_facts.

Import PyStr.

#[local] Arguments String.append !_ _ / : simpl nomatch.

Implicit Types (s t sub sep cur : string) (c : ascii).

Lemma str_app_nil_r s : s +:+ "" = s.
Proof. induction s; simpl; congruence. Qed.

Lemma str_app_assoc s t u : (s +:+ t) +:+ u = s +:+ (t +:+ u).
Proof. induction s; simpl; congruence. Qed.

Lemma contains_cons sub c s :
  contains sub (String c s) = String.prefix sub (String c s) || contains sub s.
Proof. reflexivity. Qed.

Lemma contains_tail sub c s : contains sub s = true → contains sub (String c s) = true.
Proof. intros H. rewrite contains_cons, H. apply orb_true_r. Qed.

Lemma no_contains_cons sub c s :
  contains sub (String c s) = false →
  String.prefix sub (String c s) = false ∧ contains sub s = false.
Proof. rewrite contains_cons. apply orb_false_elim. Qed.

Lemma prefix_nil s : String.prefix "" s = true.
Proof. by destruct s. Qed.




(** [split] never gives an empty list, and gives at least two pieces when
    the separator occurs. *)

Lemma split_go_step sep k cur c s :
  split_go sep k cur (String c s) =
  match k with
  | S k' => split_go sep k' cur s
  | O =>
      if String.prefix sep (String c s)
      then cur :: split_go sep (String.length sep - 1) "" s
      else split_go sep 0 (cur +:+ String c "") s
  end.
Proof. reflexivity. Qed.

Lemma split_go_cons sep k cur s : ∃ x l, split_go sep k cur s = x :: l.
Proof.
  revert k cur. induction s as [|c s IH]; intros k cur; [by exists cur, []|].
  rewrite split_go_step. destruct k; [|apply IH].
  destruct (String.prefix sep (String c s)); [by eauto|apply IH].
Qed.

Lemma split_go_two sep cur s :
  sep ≠ "" → contains sep s = true → ∃ x y l, split_go sep 0 cur s = x :: y :: l.
Proof.
  intros Hsep. revert cur. induction s as [|c s IH]; intros cur.
  - destruct sep; [by destruct Hsep|discriminate].
  - rewrite contains_cons, split_go_step.
    destruct (String.prefix sep (String c s)) eqn:Hp.
    + intros _.
      destruct (split_go_cons sep (String.length sep - 1) "" s) as (y & l & ->).
      by eauto.
    + intros H. by apply IH.
Qed.

Lemma split_go_none sep cur s :
  contains sep s = false → split_go sep 0 cur s = [cur +:+ s].
Proof.
  revert cur. induction s as [|c s IH]; intros cur H.
  - simpl. by rewrite str_app_nil_r.
  - apply no_contains_cons in H as [Hp Hc]. rewrite split_go_step, Hp.
    rewrite IH by done. by rewrite str_app_assoc.
Qed.

Lemma split_none sep s : contains sep s = false → split sep s = [s].
Proof. intros H. unfold split. by rewrite split_go_none. Qed.

(** White space at both ends. *)





(** [lstrip] gives a suffix and [rstrip] a prefix. *)







Lemma rstrip_idem s : rstrip (rstrip s) = rstrip s.
Proof.
  induction s as [|c s IH]; simpl; [done|].
  destruct (rstrip s) as [|b r] eqn:E.
  - destruct (is_space c) eqn:Hc; simpl; [done|]. by rewrite Hc.
  - simpl. simpl in IH. by rewrite IH.
Qed.

Lemma lstrip_solid s : starts_solid (lstrip s).
Proof. induction s as [|c s IH]; simpl; [done|]. by destruct (is_space c) eqn:E. Qed.

Lemma lstrip_fix s : starts_solid s → lstrip s = s.
Proof. destruct s as [|c s]; simpl; [done|]. by intros ->. Qed.

Lemma rstrip_solid s : starts_solid s → starts_solid (rstrip s).
Proof.
  destruct s as [|c s]; simpl; [done|]. intros Hc.
  destruct (rstrip s); simpl; [by rewrite Hc|done].
Qed.

Lemma strip_idem s : strip (strip s) = strip s.
Proof.
  unfold strip.
  rewrite (lstrip_fix (rstrip (lstrip s))) by apply rstrip_solid, lstrip_solid.
  apply rstrip_idem.
Qed.

End string_facts.

(** ** Extraction of the JSON text *)

Section extraction_facts.

Import PyStr.

#[local] Arguments String.append !_ _ / : simpl nomatch.

Implicit Types (j s t cur : string) (c : ascii).

Lemma prefix_weaken a b s :
  String.prefix (a +:+ b) s = true → String.prefix a s = true.
Proof.
  revert s. induction a as [|x a IH]; intros s; [intros _; apply prefix_nil|].
  destruct s as [|y s]; simpl; [done|].
  destruct (Ascii.ascii_dec x y); [apply IH|done].
Qed.

Lemma contains_weaken a b s : contains (a +:+ b) s = true → contains a s = true.
Proof.
  induction s as [|c s IH].
  - destruct a; [done|discriminate].
  - rewrite !contains_cons. intros [H|H]%orb_true_iff.
    + by rewrite (prefix_weaken _ _ _ H).
    + rewrite (IH H). apply orb_true_r.
Qed.

Lemma no_fence_no_json_fence s : contains "```" s = false → contains "```json" s = false.
Proof.
  intros H. destruct (contains "```json" s) eqn:E; [|done].
  apply (contains_weaken "```" "json") in E. congruence.
Qed.






(** The text taken out of a fenced body, and out of a bare one. *)


Lemma extract_bare s : contains "```" s = false → extract_json s = inr s.
Proof.
  intros H. unfold extract_json.
  by rewrite no_fence_no_json_fence, H.
Qed.




(** [extract_json] always yields a text. *)
Lemma split_cons sep s : ∃ x l, split sep s = x :: l.
Proof. apply split_go_cons. Qed.

Lemma split_two sep s :
  sep ≠ "" → contains sep s = true → ∃ x y l, split sep s = x :: y :: l.
Proof. apply split_go_two. Qed.

Lemma extract_json_total content : ∃ t, extract_json content = inr t.
Proof.
  unfold extract_json.
  destruct (contains "```json" content) eqn:E1.
  - destruct (split_two "```json" content) as (x & y & l & ->); [done|done|].
    change (py_index (x :: y :: l) 1) with (@inr Exn _ y).
    change (∃ t, py_index (split "```" y) 0 = inr t).
    destruct (split_cons "```" y) as (a & b & ->). by exists a.
  - destruct (contains "```" content) eqn:E2; [|by eauto].
    destruct (split_two "```" content) as (x & y & l & ->); [done|done|].
    change (py_index (x :: y :: l) 1) with (@inr Exn _ y).
    change (∃ t, py_index (split "```" y) 0 = inr t).
    destruct (split_cons "```" y) as (a & b & ->). by exists a.
Qed.

(** What [split] yields, in terms of the text around the first
    occurrence of the separator. *)



Lemma text_before_none sep s : contains sep s = false → text_before sep s = s.
Proof.
  induction s as [|c s IH]; [done|].
  intros [Hp Hc]%no_contains_cons.
  cbn [text_before]. rewrite Hp. by rewrite IH.
Qed.








End extraction_facts.

Section fenced_answers.

Import PyStr.

Variable json_loads : string → Res json.
Variable validate_str : json → option string.
Variable validate_bool : json → option bool.
Variable validate_float : json → option Qc.

Abbreviation detect_form_with post :=
  (FormDetectionService.detect_form json_loads post validate_str validate_bool validate_float).



End fenced_answers.



(** ** The detection service never raises *)

Section detection_facts.

Import PyStr.

Variable json_loads : string → Res json.
Variable post : Provider → string → string → HttpOutcome.
Variable validate_str : json → option string.
Variable validate_bool : json → option bool.
Variable validate_float : json → option Qc.

(** A value that already has the field's type passes validation as it is. *)
Hypothesis validate_bool_bool : ∀ b, validate_bool (JBool b) = Some b.
Hypothesis validate_float_float : ∀ q, validate_float (JFloat q) = Some q.

Abbreviation analyze_form := (LLMProvider.analyze_form json_loads post).
Abbreviation detect_form_try :=
  (FormDetectionService.detect_form_try json_loads post validate_str validate_bool
     validate_float).
Abbreviation detect_form :=
  (FormDetectionService.detect_form json_loads post validate_str validate_bool
     validate_float).
Abbreviation no_form := FormDetectionService.no_form.

Lemma detect_form_raised p shot html url e :
  detect_form_try p shot html url = inl e → detect_form p shot html url = no_form url.
Proof. intros H. unfold FormDetectionService.detect_form. by rewrite H. Qed.

Lemma detect_form_analysis_raised p shot html url e :
  analyze_form p shot html = inl e → detect_form p shot html url = no_form url.
Proof.
  intros H. apply (detect_form_raised _ _ _ _ e).
  unfold FormDetectionService.detect_form_try. by rewrite H.
Qed.

Lemma detect_form_parse_failure p shot html url :
  analyze_form p shot html = inr parse_failure → detect_form p shot html url = no_form url.
Proof.
  intros H.
  unfold FormDetectionService.detect_form, FormDetectionService.detect_form_try.
  rewrite H. unfold parse_failure, mbind, Res_bind. simpl.
  unfold FormDetectionService.as_bool, FormDetectionService.as_float.
  by rewrite validate_bool_bool, validate_float_float.
Qed.

(** C4.  [detect_form] returns a [FormDetectionResult] on every input:
    whatever exception leaves the body of its [try], the result is the
    one with [form_found = false] and [confidence = 0.0].  That is the
    result when the request fails in transport, when the response status
    is not 200, when the response body is not JSON, and when the text
    the model answered with is not JSON (or the decoder raises on it for
    another reason). *)
Theorem detect_form_never_raises p shot html url :
  (∀ e, detect_form_try p shot html url = inl e →
        detect_form p shot html url = no_form url) ∧
  (∀ msg, post p shot (truncate_html (html_limit p) html) = RequestFailed msg →
          detect_form p shot html url = no_form url) ∧
  (∀ code text, post p shot (truncate_html (html_limit p) html) = HttpResponse code text →
                code ≠ 200 →
                detect_form p shot html url = no_form url) ∧
  (∀ text e, post p shot (truncate_html (html_limit p) html) = HttpResponse 200 text →
             json_loads text = inl e →
             detect_form p shot html url = no_form url) ∧
  (∀ text result content json_str e,
     post p shot (truncate_html (html_limit p) html) = HttpResponse 200 text →
     json_loads text = inr result →
     response_content p result = inr (JStr content) →
     extract_json (cleaned p content) = inr json_str →
     json_loads (strip json_str) = inl e →
     detect_form p shot html url = no_form url) ∧
  form_found (no_form url) = false ∧
  confidence (no_form url) = conf_0_0.
Proof.
  split; [|split; [|split; [|split; [|split; [|done]]]]].
  - intros e. apply detect_form_raised.
  - intros msg H. apply (detect_form_analysis_raised _ _ _ _ (TransportError msg)).
    unfold LLMProvider.analyze_form. by rewrite H.
  - intros code text H Hcode.
    apply (detect_form_analysis_raised _ _ _ _ (ApiError code)).
    unfold LLMProvider.analyze_form. rewrite H.
    by rewrite bool_decide_eq_true_2.
  - intros text e H Hj. apply (detect_form_analysis_raised _ _ _ _ e).
    unfold LLMProvider.analyze_form. rewrite H, Hj. done.
  - intros text result content json_str e H Hj Hc He Hl.
    assert (Ha : analyze_form p shot html
                 = match e with JSONDecodeError => inr parse_failure | _ => inl e end).
    { unfold LLMProvider.analyze_form. rewrite H, Hj. simpl. rewrite Hc. simpl.
      unfold LLMProvider._parse_response. rewrite He. simpl. rewrite Hl.
      by destruct e. }
    destruct e;
      first [ by apply detect_form_parse_failure
            | by eapply detect_form_analysis_raised ].
Qed.

End detection_facts.

Lemma detect_form_never_raises_sample :
  FormDetectionService.detect_form JsonRef.loads
    (Sample.answers "Sorry, there is no form on this page.")
    Sample.strict_str Sample.strict_bool Sample.strict_float
    OpenAIProvider "iVBORw0KGgo=" "<html></html>" "https://dir.example/submit"
  = FormDetectionService.no_form "https://dir.example/submit".
Proof.
  destruct (detect_form_never_raises JsonRef.loads
              (Sample.answers "Sorry, there is no form on this page.")
              Sample.strict_str Sample.strict_bool Sample.strict_float
              (λ b, eq_refl) (λ q, eq_refl)
              OpenAIProvider "iVBORw0KGgo=" "<html></html>" "https://dir.example/submit")
    as (_ & _ & _ & _ & H & _).
  eapply H.
  - reflexivity.
  - vm_compute. reflexivity.
  - reflexivity.
  - reflexivity.
  - vm_compute. reflexivity.
Defined.

(** ** The rule-based detector and the fallback *)

Section rule_facts.

Import PyStr RuleBasedFormDetector.

#[local] Arguments String.append !_ _ / : simpl nomatch.

Implicit Types (soup : list node) (e : node) (f : FormField).

Lemma detect_field_targetable soup e :
  targetable e = true → ∃ f, detect_field soup e = Some f ∧ selector f ≠ "".
Proof.
  destruct e as [tag attrs children|s]; [|done].
  unfold targetable, detect_field.
  destruct (truthy_opt (PyDict.get "id" attrs)) eqn:Hid.
  - intros _. eexists. split; [done|]. simpl. discriminate.
  - simpl. intros ->. eexists. split; [done|]. simpl. discriminate.
Qed.

Lemma detect_field_not_targetable soup e :
  targetable e = false → detect_field soup e = None.
Proof.
  destruct e as [tag attrs children|s]; [|done].
  unfold targetable, detect_field.
  intros [-> ->]%orb_false_elim. done.
Qed.

Lemma detect_field_selector soup e f : detect_field soup e = Some f → selector f ≠ "".
Proof.
  intros H. destruct (targetable e) eqn:Ht.
  - destruct (detect_field_targetable soup e Ht) as (f' & Hf' & Hs). congruence.
  - rewrite detect_field_not_targetable in H by done. done.
Qed.

Lemma omap_step {A B} (g : A → option B) x l :
  omap g (x :: l) = match g x with Some y => y :: omap g l | None => omap g l end.
Proof. reflexivity. Qed.

Lemma length_detect soup (l : list node) :
  length (omap (detect_field soup) l) = length (filter (λ e, targetable e = true) l).
Proof.
  induction l as [|e l IH]; [done|].
  rewrite filter_cons, omap_step.
  destruct (targetable e) eqn:Ht.
  - destruct (detect_field_targetable soup e Ht) as (f & -> & _).
    rewrite decide_True by done. simpl. by rewrite IH.
  - rewrite detect_field_not_targetable by done.
    rewrite decide_False by done. done.
Qed.

Lemma filter_all {A} (P : A → Prop) `{∀ x, Decision (P x)} (l : list A) :
  (∀ x, x ∈ l → P x) → filter P l = l.
Proof.
  induction l as [|x l IH]; intros Hall; [done|].
  rewrite filter_cons, decide_True by (apply Hall; left).
  rewrite IH; [done|]. intros y Hy. apply Hall. by right.
Qed.

(** C6, as stated, fails: an [input] whose [id] attribute is present and
    empty has an [id], and the detector skips it. *)
Lemma empty_id_is_skipped :
  length (form_elements Sample.empty_id_input) = 1%nat ∧
  Forall (λ e, has_id_or_name e = true) (form_elements Sample.empty_id_input) ∧
  detect_fields_from_soup Sample.empty_id_input = [].
Proof. vm_compute. repeat split. repeat constructor. Qed.

(** C6 (amended).  The detector returns one field for each [input],
    [textarea] or [select] element whose [id] or [name] attribute is
    present and not empty: N fields when the document holds N such
    elements and each of them has a non-empty [id] or a non-empty
    [name].  Every field it returns has a non-empty selector.  The
    selector is [#id] when the [id] is not empty, else [[name='...']]
    when the [name] is not empty; an element with neither is skipped. *)
Theorem rule_based_fields (BeautifulSoup : string → list node) (html : string) :
  let soup := BeautifulSoup html in
  length (detect_fields_from_html BeautifulSoup html)
  = length (filter (λ e, targetable e = true) (form_elements soup)) ∧
  ((∀ e, e ∈ form_elements soup → targetable e = true) →
   length (detect_fields_from_html BeautifulSoup html) = length (form_elements soup)) ∧
  (∀ f, f ∈ detect_fields_from_html BeautifulSoup html → selector f ≠ "") ∧
  (∀ tag attrs children,
     (∀ i, PyDict.get "id" attrs = Some i → i ≠ "" →
           ∃ f, detect_field soup (Tag tag attrs children) = Some f ∧
                selector f = "#" +:+ i) ∧
     (∀ n, truthy_opt (PyDict.get "id" attrs) = false →
           PyDict.get "name" attrs = Some n → n ≠ "" →
           ∃ f, detect_field soup (Tag tag attrs children) = Some f ∧
                selector f = "[name='" +:+ n +:+ "']") ∧
     (truthy_opt (PyDict.get "id" attrs) = false →
      truthy_opt (PyDict.get "name" attrs) = false →
      detect_field soup (Tag tag attrs children) = None)).
Proof.
  intros soup. unfold detect_fields_from_html, detect_fields_from_soup. fold soup.
  split; [apply length_detect|]. split; [|split].
  - intros Hall. rewrite length_detect. by rewrite filter_all.
  - intros f (e & _ & He)%list_elem_of_omap. by eapply detect_field_selector.
  - intros tag attrs children. split; [|split].
    + intros i Hi Hne. unfold detect_field. rewrite Hi. simpl.
      unfold truthy. destruct i; [done|]. simpl. by eexists.
    + intros n Hid Hn Hne. unfold detect_field. rewrite Hid, Hn. simpl.
      unfold truthy. destruct n; [done|]. simpl. by eexists.
    + intros Hid Hn. unfold detect_field. by rewrite Hid, Hn.
Qed.

Lemma rule_based_fields_sample :
  length (detect_fields_from_html (Sample.parses_to Sample.email_form) "<html>")
  = length (form_elements Sample.email_form).
Proof.
  destruct (rule_based_fields (Sample.parses_to Sample.email_form) "<html>")
    as (_ & H & _).
  apply H. intros e He.
  assert (Hl : form_elements (Sample.parses_to Sample.email_form "<html>")
               = [Tag "input" [("type", "email"); ("id", "email"); ("name", "contact")] []])
    by (vm_compute; reflexivity).
  rewrite Hl in He. apply list_elem_of_singleton in He as ->. reflexivity.
Defined.

End rule_facts.

(** ** The fallback of the page engine and the verdict after submit *)

Section browser_facts.

Import PyStr.

Variable json_loads : string → Res json.
Variable post : Provider → string → string → HttpOutcome.
Variable validate_str : json → option string.
Variable validate_bool : json → option bool.
Variable validate_float : json → option Qc.
Variable BeautifulSoup : string → list node.
Variable provider : Provider.

Abbreviation primary :=
  (BrowserAutomation.primary json_loads post validate_str validate_bool validate_float
     provider).
Abbreviation browser_detect_form :=
  (BrowserAutomation.detect_form json_loads post validate_str validate_bool
     validate_float BeautifulSoup provider).
Abbreviation rule_fields := (RuleBasedFormDetector.detect_fields_from_html BeautifulSoup).
Abbreviation reaches_check :=
  (SubmissionExecutor.reaches_check json_loads post validate_str validate_bool
     validate_float BeautifulSoup provider).
Abbreviation execute_submission :=
  (SubmissionExecutor.execute_submission json_loads post validate_str validate_bool
     validate_float BeautifulSoup provider).

(** C8.  When the primary detection reports no form, or a form without
    fields, the rule-based detector runs on the markup.  If it finds
    fields the result is built from them, with [form_found = true] and
    [confidence = 0.5]; if it finds none, the primary result is returned
    as it is. *)
Theorem fallback_detection (shot html url : string) :
  form_found (primary shot html url) = false ∨ fields (primary shot html url) = [] →
  (rule_fields html ≠ [] →
   browser_detect_form (inr (shot, html)) url
   = mkFormDetectionResult url true None (rule_fields html) None None conf_0_5) ∧
  (rule_fields html = [] →
   browser_detect_form (inr (shot, html)) url = primary shot html url).
Proof.
  intros Hp. unfold BrowserAutomation.detect_form.
  assert (Hc : negb (form_found (primary shot html url))
               || (length (fields (primary shot html url)) =? 0)%nat = true).
  { destruct Hp as [->| ->]; [done|]. simpl. apply orb_true_r. }
  rewrite Hc. split.
  - intros Hne. by destruct (rule_fields html).
  - by intros ->.
Qed.

(** The verdict on the page after the click. *)

Lemma first_phrase_some phrases html_lower :
  (∃ phrase, phrase ∈ phrases ∧ contains phrase html_lower = true) →
  ∃ phrase, BrowserAutomation.first_phrase phrases html_lower = Some phrase.
Proof.
  intros (phrase & Hin & Hc). unfold BrowserAutomation.first_phrase.
  destruct (List.find (λ ph, contains ph html_lower) phrases) as [ph|] eqn:E; [by eauto|].
  apply list_elem_of_In in Hin.
  pose proof (List.find_none _ _ E _ Hin) as Hn. simpl in Hn. congruence.
Qed.

Lemma first_phrase_none phrases html_lower :
  (∀ phrase, phrase ∈ phrases → contains phrase html_lower = false) →
  BrowserAutomation.first_phrase phrases html_lower = None.
Proof.
  intros Hall. unfold BrowserAutomation.first_phrase.
  destruct (List.find (λ ph, contains ph html_lower) phrases) as [ph|] eqn:E; [|done].
  apply List.find_some in E as [Hin Hc]. apply list_elem_of_In in Hin.
  rewrite (Hall _ Hin) in Hc. done.
Qed.

Lemma check_success_phrase current_url html :
  (∃ phrase, phrase ∈ BrowserAutomation.success_phrases ∧
             contains phrase (lower html) = true) →
  check_success (BrowserAutomation.check_submission_success current_url html) = Some true.
Proof.
  intros [ph E]%first_phrase_some.
  unfold BrowserAutomation.check_submission_success. by rewrite E.
Qed.

Lemma check_error_phrase current_url html :
  (∀ phrase, phrase ∈ BrowserAutomation.success_phrases →
             contains phrase (lower html) = false) →
  (∃ phrase, phrase ∈ BrowserAutomation.error_phrases ∧
             contains phrase (lower html) = true) →
  check_success (BrowserAutomation.check_submission_success current_url html) = Some false.
Proof.
  intros Hs%first_phrase_none [ph E]%first_phrase_some.
  unfold BrowserAutomation.check_submission_success. by rewrite Hs, E.
Qed.

Lemma check_no_phrase current_url html :
  (∀ phrase, phrase ∈ BrowserAutomation.success_phrases →
             contains phrase (lower html) = false) →
  (∀ phrase, phrase ∈ BrowserAutomation.error_phrases →
             contains phrase (lower html) = false) →
  check_success (BrowserAutomation.check_submission_success current_url html) = None.
Proof.
  intros Hs%first_phrase_none He%first_phrase_none.
  unfold BrowserAutomation.check_submission_success. by rewrite Hs, He.
Qed.

Lemma run_reaching_check page directory_url saas_data logo_path html :
  reaches_check page directory_url html →
  ∃ result before,
    execute_submission page directory_url saas_data logo_path = inr result ∧
    result = SubmissionExecutor.conclude
               (BrowserAutomation.check_submission_success (final_url page) html) before ∧
    r_success before = false ∧ r_error before = None.
Proof.
  intros (Hst & Hnav & [p1 Hs1] & Hff & Hcap & Hsel & Hclick & Hfin & [p2 Hs2] & Hstop).
  unfold SubmissionExecutor.execute_submission, SubmissionExecutor.run_steps.
  rewrite Hst, Hnav, Hs1, Hstop. simpl.
  unfold SubmissionExecutor.detect_and_fill. rewrite Hff, Hcap. simpl.
  unfold SubmissionExecutor.submit_and_check.
  rewrite Hsel, Hclick, Hfin, Hs2. simpl.
  eexists _, _. split; [reflexivity|]. split; [reflexivity|]. done.
Qed.

(** C9.  The success phrases are looked for first, in the lower-cased
    markup: if one occurs the check says success, whatever else the page
    holds; if none occurs and an error phrase does, it says failure; if
    no phrase of either list occurs it says neither.  A run that reaches
    the check then ends with [success = true] in the first and in the
    last case; in the last case it has no error and its last log entry
    notes that the outcome could not be confirmed. *)
Theorem outcome_verification page directory_url saas_data logo_path html :
  reaches_check page directory_url html →
  let found phrases :=
    ∃ phrase, phrase ∈ phrases ∧ contains phrase (lower html) = true in
  ∃ result,
    execute_submission page directory_url saas_data logo_path = inr result ∧
    (found BrowserAutomation.success_phrases →
     check_success (BrowserAutomation.check_submission_success (final_url page) html)
     = Some true ∧
     r_success result = true) ∧
    (¬ found BrowserAutomation.success_phrases → found BrowserAutomation.error_phrases →
     check_success (BrowserAutomation.check_submission_success (final_url page) html)
     = Some false ∧
     r_success result = false ∧ is_Some (r_error result)) ∧
    (¬ found BrowserAutomation.success_phrases → ¬ found BrowserAutomation.error_phrases →
     check_success (BrowserAutomation.check_submission_success (final_url page) html)
     = None ∧
     r_success result = true ∧ r_error result = None ∧
     last (r_logs result) = Some (StepUnknown "Could not confirm, assuming success")).
Proof.
  intros Hrun found.
  destruct (run_reaching_check page directory_url saas_data logo_path html Hrun)
    as (result & before & Hex & -> & Hb1 & Hb2).
  exists (SubmissionExecutor.conclude
            (BrowserAutomation.check_submission_success (final_url page) html) before).
  split; [done|].
  assert (Hnot : ∀ phrases, ¬ found phrases →
                 ∀ phrase, phrase ∈ phrases → contains phrase (lower html) = false).
  { intros phrases Hn phrase Hin.
    destruct (contains phrase (lower html)) eqn:E; [|done].
    destruct Hn. by exists phrase. }
  split; [|split].
  - intros Hs. pose proof (check_success_phrase (final_url page) html Hs) as Hc.
    split; [done|]. unfold SubmissionExecutor.conclude. by rewrite Hc.
  - intros Hs He.
    pose proof (check_error_phrase (final_url page) html (Hnot _ Hs) He) as Hc.
    split; [done|]. unfold SubmissionExecutor.conclude. rewrite Hc. simpl. by eauto.
  - intros Hs He.
    pose proof (check_no_phrase (final_url page) html (Hnot _ Hs) (Hnot _ He)) as Hc.
    split; [done|]. unfold SubmissionExecutor.conclude. rewrite Hc. simpl.
    split; [done|]. split; [done|]. by rewrite last_snoc.
Qed.

End browser_facts.

(** ** The field mapper *)

Section mapper_facts.

Import PyStr FieldMapper.

Implicit Types (f g : FormField) (data : gmap string string).
Implicit Types (table : list (string * list string)) (d : FieldMapping).

Lemma truthy_ne v : truthy v = true ↔ v ≠ "".
Proof. unfold truthy. destruct v; simpl; split; done. Qed.

Lemma first_value_spec data keys v :
  first_value data keys = Some v ↔
  ∃ (a : list string) k b, keys = (a ++ k :: b)%list ∧ data !! k = Some v ∧ v ≠ "" ∧
           ∀ k', k' ∈ a → data !! k' = None ∨ data !! k' = Some "".
Proof.
  induction keys as [|k keys IH]; simpl.
  - split; [done|]. intros (a & k & b & H & _). by destruct a.
  - destruct (data !! k) as [x|] eqn:Hk.
    + destruct (truthy x) eqn:Hx.
      * split.
        -- intros [= <-]. exists [], k, keys. repeat split; try done.
           ++ by apply truthy_ne.
           ++ intros k' Hin. by apply elem_of_nil in Hin.
        -- intros (a & k0 & b & Hsplit & Hv & Hne & Hbefore).
           destruct a as [|k1 a]; simplify_eq/=; [congruence|].
           destruct (Hbefore k1) as [H|H]; [by left|congruence|].
           rewrite Hk in H. injection H as ->. done.
      * rewrite IH. split.
        -- intros (a & k0 & b & -> & Hv & Hne & Hbefore).
           exists (k :: a), k0, b. repeat split; try done.
           intros k' [->|Hin]%elem_of_cons; [|by apply Hbefore].
           right. rewrite Hk. f_equal.
           destruct x; [done|discriminate].
        -- intros (a & k0 & b & Hsplit & Hv & Hne & Hbefore).
           destruct a as [|k1 a]; simplify_eq/=.
           ++ apply truthy_ne in Hne. congruence.
           ++ exists a, k0, b. repeat split; try done.
              intros k' Hin. apply Hbefore. by right.
    + rewrite IH. split.
      * intros (a & k0 & b & -> & Hv & Hne & Hbefore).
        exists (k :: a), k0, b. repeat split; try done.
        intros k' [->|Hin]%elem_of_cons; [by left|by apply Hbefore].
      * intros (a & k0 & b & Hsplit & Hv & Hne & Hbefore).
        destruct a as [|k1 a]; simplify_eq/=.
        exists a, k0, b. repeat split; try done.
        intros k' Hin. apply Hbefore. by right.
Qed.

Lemma match_value_step key keys table f data :
  match_value ((key, keys) :: table) f data =
  if key_matches key f then
    match first_value data keys with
    | Some v => Some v
    | None => match_value table f data
    end
  else match_value table f data.
Proof. reflexivity. Qed.

Lemma match_value_skip key keys table f data :
  first_value data keys = None →
  match_value ((key, keys) :: table) f data = match_value table f data.
Proof. intros H. rewrite match_value_step, H. by destruct (key_matches key f). Qed.

Lemma match_value_spec table f data v :
  match_value table f data = Some v ↔
  ∃ pre key keys post,
    table = (pre ++ (key, keys) :: post)%list ∧
    key_matches key f = true ∧ first_value data keys = Some v ∧
    ∀ grp, grp ∈ pre → key_matches grp.1 f = true → first_value data grp.2 = None.
Proof.
  induction table as [|[k ks] table IH].
  - split; [done|]. intros (pre & key & keys & post & H & _). by destruct pre.
  - rewrite match_value_step. split.
    + destruct (key_matches k f) eqn:Hk; [destruct (first_value data ks) as [x|] eqn:Hx|].
      * intros [= <-]. exists [], k, ks, table. repeat split; try done.
        intros grp Hin. by apply elem_of_nil in Hin.
      * intros (pre & key & keys & post & -> & Hm & Hv & Hpre)%IH.
        exists ((k, ks) :: pre), key, keys, post. repeat split; try done.
        intros grp [->|Hin]%elem_of_cons; [done|by apply Hpre].
      * intros (pre & key & keys & post & -> & Hm & Hv & Hpre)%IH.
        exists ((k, ks) :: pre), key, keys, post. repeat split; try done.
        intros grp [->|Hin]%elem_of_cons; [simpl; congruence|by apply Hpre].
    + intros (pre & key & keys & post & Hsplit & Hm & Hv & Hpre).
      destruct pre as [|grp pre]; simplify_eq/=.
      * by rewrite Hm, Hv.
      * assert (Hrest : match_value (pre ++ (key, keys) :: post)%list f data = Some v).
        { apply IH. exists pre, key, keys, post. repeat split; try done.
          intros grp Hin. apply Hpre. by right. }
        destruct (key_matches k f) eqn:Hk; [|done].
        pose proof (Hpre (k, ks) ltac:(by left) Hk) as Hn. simpl in Hn.
        by rewrite Hn.
Qed.

(** The dict built by the loop over the fields. *)

Lemma get_set_eq {V} k (v : V) (d : list (string * V)) :
  PyDict.get k (PyDict.set k v d) = Some v.
Proof.
  induction d as [|[k' v'] d IH]; simpl.
  - by rewrite String.eqb_refl.
  - destruct (String.eqb k k') eqn:E; simpl; rewrite ?String.eqb_refl, ?E; done.
Qed.

Lemma get_set_ne {V} k k0 (v : V) (d : list (string * V)) :
  k ≠ k0 → PyDict.get k (PyDict.set k0 v d) = PyDict.get k d.
Proof.
  intros Hne. apply String.eqb_neq in Hne.
  induction d as [|[k' v'] d IH]; simpl.
  - by rewrite Hne.
  - destruct (String.eqb k0 k') eqn:E; simpl.
    + apply String.eqb_eq in E as ->. by rewrite Hne.
    + by rewrite IH.
Qed.

Lemma map_fields_snoc fields f data :
  map_saas_data_to_fields (fields ++ [f])%list data
  = map_field data (map_saas_data_to_fields fields data) f.
Proof. unfold map_saas_data_to_fields. by rewrite fold_left_app. Qed.

Lemma unmatched_omitted fields data sel :
  (∀ f, f ∈ fields → selector f = sel → match_value field_mapping f data = None) →
  PyDict.get sel (map_saas_data_to_fields fields data) = None.
Proof.
  induction fields as [|f fields IH] using rev_ind; intros Hall; [done|].
  rewrite map_fields_snoc. unfold map_field.
  assert (Hrest : PyDict.get sel (map_saas_data_to_fields fields data) = None).
  { apply IH. intros g Hin. apply Hall. apply elem_of_app. by left. }
  destruct (match_value field_mapping f data) as [v|] eqn:Hv; [|done].
  rewrite get_set_ne; [done|].
  intros ->. rewrite Hall in Hv; [done| |done].
  apply elem_of_app. right. by left.
Qed.

Lemma matched_entry pre f post data v :
  match_value field_mapping f data = Some v →
  (∀ g, g ∈ post → selector g = selector f → match_value field_mapping g data = None) →
  PyDict.get (selector f) (map_saas_data_to_fields (pre ++ f :: post)%list data)
  = Some (mkMappedField (name f) (field_type f) v).
Proof.
  intros Hv. induction post as [|g post IH] using rev_ind; intros Hpost.
  - rewrite map_fields_snoc. unfold map_field. rewrite Hv. apply get_set_eq.
  - replace (pre ++ f :: post ++ [g])%list with ((pre ++ f :: post) ++ [g])%list
      by (by rewrite <- List.app_assoc).
    rewrite map_fields_snoc. unfold map_field.
    assert (Hrest : PyDict.get (selector f) (map_saas_data_to_fields (pre ++ f :: post)%list data)
                    = Some (mkMappedField (name f) (field_type f) v)).
    { apply IH. intros h Hin. apply Hpost. apply elem_of_app. by left. }
    destruct (match_value field_mapping g data) as [w|] eqn:Hw; [|done].
    rewrite get_set_ne; [done|].
    intros Heq. rewrite Hpost in Hw; [done| |done].
    apply elem_of_app. right. by left.
Qed.

Lemma website_url_value f :
  name f = "website_url" →
  match_value field_mapping f {[ "website_url" := "https://x.io" ]} = Some "https://x.io".
Proof.
  intros Hn. unfold field_mapping.
  do 5 (rewrite match_value_skip by (vm_compute; reflexivity)).
  rewrite match_value_step.
  assert (Hk : key_matches "url" f = true).
  { unfold key_matches. rewrite Hn. reflexivity. }
  rewrite Hk. vm_compute. reflexivity.
Qed.

(** C7, as stated, fails: for a select named [pricing_type] and a
    product without a category, the first group whose key occurs in the
    name is [type], which has no value to give; the field is given the
    pricing model by the later group [pricing]. *)
Lemma later_group_supplies_value :
  List.find (λ grp, key_matches grp.1 Sample.pricing_type_field) field_mapping
  = Some ("type", ["category"]) ∧
  first_value Sample.product_data ["category"] = None ∧
  map_saas_data_to_fields [Sample.pricing_type_field] Sample.product_data
  = [("#pricing_type", mkMappedField "pricing_type" "select" "free")].
Proof. vm_compute. done. Qed.

(** C7 (amended).  The value of a field comes from the first synonym
    group, in table order, whose key occurs in the normalized name or
    label of the field and which has a product attribute with a
    non-empty value; within that group it is the first such attribute.
    A group whose key occurs but whose attributes are all absent or
    empty is passed over.  A field for which no group gives a value
    leaves no entry in the output; a field with a value has its entry
    under its selector, unless a later field with the same selector also
    has a value.  A field named [website_url], with the product data
    [{website_url: "https://x.io"}], is mapped to ["https://x.io"]. *)
Theorem mapper_choice :
  (∀ f data v,
     match_value field_mapping f data = Some v ↔
     ∃ pre key keys post,
       field_mapping = (pre ++ (key, keys) :: post)%list ∧
       key_matches key f = true ∧ first_value data keys = Some v ∧
       ∀ grp, grp ∈ pre → key_matches grp.1 f = true → first_value data grp.2 = None) ∧
  (∀ data keys v,
     first_value data keys = Some v ↔
     ∃ (a : list string) k b, keys = (a ++ k :: b)%list ∧ data !! k = Some v ∧ v ≠ "" ∧
              ∀ k', k' ∈ a → data !! k' = None ∨ data !! k' = Some "") ∧
  (∀ fields data sel,
     (∀ f, f ∈ fields → selector f = sel → match_value field_mapping f data = None) →
     PyDict.get sel (map_saas_data_to_fields fields data) = None) ∧
  (∀ pre f post data v,
     match_value field_mapping f data = Some v →
     (∀ g, g ∈ post → selector g = selector f → match_value field_mapping g data = None) →
     PyDict.get (selector f) (map_saas_data_to_fields (pre ++ f :: post)%list data)
     = Some (mkMappedField (name f) (field_type f) v)) ∧
  (∀ f, name f = "website_url" →
        map_saas_data_to_fields [f] {[ "website_url" := "https://x.io" ]}
        = [(selector f, mkMappedField "website_url" (field_type f) "https://x.io")]).
Proof.
  split; [|split; [|split; [|split]]].
  - intros f data v. apply match_value_spec.
  - intros data keys v. apply first_value_spec.
  - apply unmatched_omitted.
  - apply matched_entry.
  - intros f Hn. unfold map_saas_data_to_fields. simpl. unfold map_field.
    rewrite website_url_value by done. simpl. by rewrite Hn.
Qed.

Lemma mapper_choice_sample :
  map_saas_data_to_fields [Sample.website_field] {[ "website_url" := "https://x.io" ]}
  = [("#website_url", mkMappedField "website_url" "url" "https://x.io")].
Proof.
  destruct mapper_choice as (_ & _ & _ & _ & H).
  apply (H Sample.website_field). reflexivity.
Defined.

End mapper_facts.

(** ** The page engine on a sample page *)

Lemma fallback_detection_sample :
  let result :=
    BrowserAutomation.detect_form JsonRef.loads Sample.unreachable
      Sample.strict_str Sample.strict_bool Sample.strict_float
      (Sample.parses_to Sample.email_form) OpenAIProvider
      (inr ("iVBORw0KGgo=", "<html>")) "https://dir.example/submit" in
  form_found result = true ∧ confidence result = conf_0_5 ∧
  (selector <$> fields result) = ["#email"].
Proof.
  intros result.
  destruct (fallback_detection JsonRef.loads Sample.unreachable
              Sample.strict_str Sample.strict_bool Sample.strict_float
              (Sample.parses_to Sample.email_form) OpenAIProvider
              "iVBORw0KGgo=" "<html>" "https://dir.example/submit")
    as [H _]; [left; reflexivity|].
  assert (Hne : RuleBasedFormDetector.detect_fields_from_html
                  (Sample.parses_to Sample.email_form) "<html>" ≠ [])
    by (vm_compute; discriminate).
  unfold result. rewrite (H Hne). vm_compute. done.
Defined.

Lemma outcome_verification_sample :
  ∃ result,
    SubmissionExecutor.execute_submission JsonRef.loads Sample.unreachable
      Sample.strict_str Sample.strict_bool Sample.strict_float
      (Sample.parses_to Sample.email_form) OpenAIProvider
      (Sample.smooth_page "<html><body>Welcome back</body></html>")
      "https://dir.example/submit" Sample.product_data None = inr result ∧
    r_success result = true ∧ r_error result = None ∧
    last (r_logs result) = Some (StepUnknown "Could not confirm, assuming success").
Proof.
  destruct (outcome_verification JsonRef.loads Sample.unreachable
              Sample.strict_str Sample.strict_bool Sample.strict_float
              (Sample.parses_to Sample.email_form) OpenAIProvider
              (Sample.smooth_page "<html><body>Welcome back</body></html>")
              "https://dir.example/submit" Sample.product_data None
              "<html><body>Welcome back</body></html>")
    as (result & Hex & _ & _ & Hnone).
  { unfold SubmissionExecutor.reaches_check.
    repeat split; try reflexivity; try (by eexists). }
  exists result. split; [done|].
  destruct Hnone as (_ & H); [| |done].
  - intros (ph & Hin & Hc).
    repeat (apply elem_of_cons in Hin as [->|Hin]; [vm_compute in Hc; discriminate|]).
    by apply elem_of_nil in Hin.
  - intros (ph & Hin & Hc).
    repeat (apply elem_of_cons in Hin as [->|Hin]; [vm_compute in Hc; discriminate|]).
    by apply elem_of_nil in Hin.
Defined.

(** ** More on the worker: settled jobs, the pass over the queue, the
    immediate run *)

Section worker_more.

Import SubmissionService.

Implicit Types (db : Database) (w : SubmissionWorker) (a : Attempt).
Implicit Types (s : DirectorySubmission) (i j : Z).

(** X1.  [_process_submission] never leaves a job IN_PROGRESS: the job
    it was given ends SUBMITTED, PENDING or FAILED.  It ends SUBMITTED
    exactly when the run returned a result with [success] set, and then
    [submitted_at] is the time of the final update.  The counter of
    running tasks is back at its value, also when the run raised. *)
Theorem process_submission_settles a i w db s :
  get_by_id i db = Some s →
  ∃ s', get_by_id i (Worker._process_submission a i (w, db)).2 = Some s' ∧
        status s' ∈ [SUBMITTED; PENDING; FAILED] ∧
        (status s' = SUBMITTED ↔ ∃ r, outcome a = inr r ∧ r_success r = true) ∧
        (status s' = SUBMITTED → submitted_at s' = Some (t_final a)) ∧
        (Worker._process_submission a i (w, db)).1 = w.
Proof.
  intros Hs. destruct (outcome a) as [e|r] eqn:Ho.
  - eexists. split; [by apply (process_raised a i w db s e)|]. simpl.
    split; [set_solver|]. split; [|split; [done|apply process_tasks]].
    split; [done|]. intros (r & Hr & _). congruence.
  - eexists. split; [by apply (process_returned a i w db s r)|].
    destruct (r_success r) eqn:Hr; simpl.
    + split; [set_solver|]. split; [|split; [done|apply process_tasks]].
      split; [|done]. intros _. by exists r.
    + destruct (attempt_count s + 1 >=? max_attempts s - 1); simpl.
      * split; [set_solver|]. split; [|split; [done|apply process_tasks]].
        split; [done|]. intros (r' & [= <-] & Hr'). congruence.
      * split; [set_solver|]. split; [|split; [done|apply process_tasks]].
        split; [done|]. intros (r' & [= <-] & Hr'). congruence.
Qed.

Lemma process_submission_settles_sample :
  ∃ s', get_by_id 7
          (Worker._process_submission (Sample.attempt_at 100 (inr Sample.good_run)) 7
             (Sample.worker, Sample.db_of [Sample.fresh 7 3])).2 = Some s' ∧
        status s' = SUBMITTED.
Proof.
  destruct (process_submission_settles (Sample.attempt_at 100 (inr Sample.good_run)) 7
              Sample.worker (Sample.db_of [Sample.fresh 7 3]) (Sample.fresh 7 3))
    as (s' & H1 & _ & H2 & _).
  - vm_compute. reflexivity.
  - exists s'. split; [exact H1|]. apply H2. exists Sample.good_run. split; reflexivity.
Defined.

(** What a call does to the row of its job depends on that row only. *)
Lemma process_row_local a i w w' db db' :
  get_by_id i db = get_by_id i db' →
  get_by_id i (Worker._process_submission a i (w, db)).2
  = get_by_id i (Worker._process_submission a i (w', db')).2.
Proof.
  intros Heq. destruct (get_by_id i db) as [s|] eqn:Hs.
  - destruct (outcome a) as [e|r] eqn:Ho.
    + rewrite (process_raised a i w db s e), (process_raised a i w' db' s e); done.
    + rewrite (process_returned a i w db s r), (process_returned a i w' db' s r); done.
  - rewrite !process_missing by done. congruence.
Qed.

Lemma process_each_tasks env ids st : (Worker.process_each env ids st).1 = st.1.
Proof.
  revert st. induction ids as [|i ids IH]; intros st; simpl; [done|].
  destruct (current_tasks st.1 >=? max_concurrent st.1); [done|].
  rewrite IH. destruct st as [w db]. apply process_tasks.
Qed.

Lemma process_each_once env ids st i :
  NoDup ids → i ∈ ids → current_tasks st.1 < max_concurrent st.1 →
  get_by_id i (Worker.process_each env ids st).2
  = get_by_id i (Worker._process_submission (env i) i st).2.
Proof.
  revert st. induction ids as [|j ids IH]; intros st Hnd Hin Hlt; [by apply elem_of_nil in Hin|].
  apply NoDup_cons in Hnd as [Hj Hnd]. simpl.
  assert (Hc : (current_tasks st.1 >=? max_concurrent st.1) = false) by lia.
  rewrite Hc. destruct st as [w db].
  apply elem_of_cons in Hin as [->|Hin].
  - by rewrite process_each_other.
  - assert (Hne : j ≠ i) by (intros ->; done).
    rewrite IH; [|done|done|by rewrite process_tasks].
    destruct (Worker._process_submission (env j) j (w, db)) as [w1 db1] eqn:E.
    apply process_row_local.
    replace db1 with (Worker._process_submission (env j) j (w, db)).2 by (by rewrite E).
    by apply process_other.
Qed.

Lemma sub_id_rows db :
  well_keyed db → sub_id <$> rows db = (map_to_list (submissions db)).*1.
Proof.
  intros Hk. unfold rows. rewrite <- list_fmap_compose.
  apply Forall_fmap_ext_1, Forall_forall. intros [i s] Hin. simpl.
  apply Hk. by apply elem_of_map_to_list in Hin.
Qed.

Lemma NoDup_pending_ids limit db :
  well_keyed db → NoDup (sub_id <$> get_pending_submissions limit db).
Proof.
  intros Hk. unfold get_pending_submissions, sql_limit.
  eapply sublist_NoDup; [|apply fmap_sublist, sublist_take].
  rewrite merge_sort_Permutation.
  eapply sublist_NoDup; [|apply fmap_sublist, sublist_filter].
  rewrite sub_id_rows by done. apply NoDup_fst_map_to_list.
Qed.

(** X2.  One pass over the queue, started below the limit of running
    tasks, runs every job it fetched exactly once: afterwards the row of
    a fetched job is what one call of [_process_submission] makes of the
    row it had, every other row is as it was, and the counter of running
    tasks is unchanged.  The pass fetches no more jobs than there are
    free slots. *)
Theorem queue_pass_runs_each_once env st :
  well_keyed st.2 →
  current_tasks st.1 < max_concurrent st.1 →
  (Worker._process_queue env st).1 = st.1 ∧
  (∀ s, s ∈ Worker.fetched st →
        get_by_id (sub_id s) (Worker._process_queue env st).2
        = get_by_id (sub_id s)
            (Worker._process_submission (env (sub_id s)) (sub_id s) st).2) ∧
  (∀ j, j ∉ sub_id <$> Worker.fetched st →
        get_by_id j (Worker._process_queue env st).2 = get_by_id j st.2) ∧
  Z.of_nat (length (Worker.fetched st)) ≤ max_concurrent st.1 - current_tasks st.1.
Proof.
  intros Hk Hlt. unfold Worker._process_queue.
  split; [apply process_each_tasks|]. split; [|split].
  - intros s Hin. apply process_each_once; [|by apply list_elem_of_fmap_2|done].
    by apply NoDup_pending_ids.
  - intros j Hj. by apply process_each_other.
  - unfold Worker.fetched. apply sql_limit_length. lia.
Qed.

Lemma queue_pass_runs_each_once_sample :
  status <$> get_by_id 7
    (Worker._process_queue (Sample.all_good 100)
       (Sample.worker, Sample.db_of [Sample.fresh 7 3])).2
  = Some SUBMITTED.
Proof.
  destruct (queue_pass_runs_each_once (Sample.all_good 100)
              (Sample.worker, Sample.db_of [Sample.fresh 7 3]))
    as (_ & H & _).
  - apply well_keyed_db_of.
  - vm_compute. reflexivity.
  - assert (Hin : Sample.fresh 7 3
                  ∈ Worker.fetched (Sample.worker, Sample.db_of [Sample.fresh 7 3]))
      by (vm_compute; left).
    pose proof (H _ Hin) as H'.
    change (sub_id (Sample.fresh 7 3)) with 7 in H'.
    rewrite H'. vm_compute. reflexivity.
Defined.

(** X3.  The query of the polling loop returns only PENDING jobs whose
    [attempt_count] is below [max_attempts], and every such job when
    there are no more of them than the limit.  Its result is in
    ascending order of [created_at]; for a limit of 0 or more it holds
    as many jobs as the limit allows, the smaller of the limit and the
    number of such jobs, so none for a limit of 0.  A PENDING job that
    has used up its attempts is therefore never fetched. *)
Theorem pending_query :
  (∀ limit db s,
     s ∈ get_pending_submissions limit db →
     s ∈ rows db ∧ status s = PENDING ∧ attempt_count s < max_attempts s) ∧
  (∀ limit db s,
     s ∈ rows db → status s = PENDING → attempt_count s < max_attempts s →
     Z.of_nat (length (filter is_pending (rows db))) ≤ limit →
     s ∈ get_pending_submissions limit db) ∧
  (∀ limit db,
     StronglySorted created_le (get_pending_submissions limit db) ∧
     (0 ≤ limit →
      Z.of_nat (length (get_pending_submissions limit db))
      = limit `min` Z.of_nat (length (filter is_pending (rows db))))) ∧
  (∀ db, get_pending_submissions 0 db = []) ∧
  (∀ limit db s,
     max_attempts s ≤ attempt_count s → s ∉ get_pending_submissions limit db).
Proof.
  split; [|split; [|split; [|split]]].
  - intros limit db s [Hin [Hst Hc]]%elem_of_pending. done.
  - intros limit db s Hin Hst Hc Hlim. by apply pending_elem_of.
  - intros limit db. split; [apply pending_sorted|].
    intros Hl. unfold get_pending_submissions, sql_limit.
    rewrite length_take, merge_sort_Permutation. lia.
  - done.
  - intros limit db s Hc [_ [_ Hlt]]%elem_of_pending. lia.
Qed.

Lemma pending_query_sample :
  Sample.fresh 7 3
  ∈ get_pending_submissions 1 (Sample.db_of [Sample.fresh 7 3; Sample.failed_job]) ∧
  Z.of_nat (length (get_pending_submissions 1
                      (Sample.db_of [Sample.fresh 7 3; Sample.fresh 8 3])))
  = 1 `min` 2.
Proof.
  destruct pending_query as (_ & H & Hlen & _).
  split.
  - apply H.
    + apply elem_of_rows. exists 7. reflexivity.
    + reflexivity.
    + vm_compute. reflexivity.
    + vm_compute. discriminate.
  - destruct (Hlen 1 (Sample.db_of [Sample.fresh 7 3; Sample.fresh 8 3])) as [_ Hl].
    apply Hl. lia.
Defined.

(** X4.  [record_attempt] counts the attempt and stamps it, and leaves
    the status and the error message alone.  When the run produced no
    detection (it stopped before the form was analysed) the detection
    stored by an earlier run stays on the job, and likewise the filled
    fields when the run filled none; so it is after a whole call of
    [_process_submission].  On an id that has no row, [record_attempt]
    and [update_status] return nothing and change nothing. *)
Theorem stale_detection_kept :
  (∀ now i e df ff db s,
     get_by_id i db = Some s →
     ∃ s', get_by_id i (record_attempt now i e df ff db).2 = Some s' ∧
           attempt_count s' = attempt_count s + 1 ∧
           last_attempt_at s' = Some now ∧
           status s' = status s ∧ error_message s' = error_message s ∧
           (df = None → detected_fields s' = detected_fields s) ∧
           (ff = [] → filled_fields s' = filled_fields s)) ∧
  (∀ a i w db s r,
     get_by_id i db = Some s → outcome a = inr r →
     ∃ s', get_by_id i (Worker._process_submission a i (w, db)).2 = Some s' ∧
           (r_detected_fields r = None → detected_fields s' = detected_fields s) ∧
           (r_filled_fields r = [] → filled_fields s' = filled_fields s)) ∧
  (∀ now i e df ff st em lu sp db,
     get_by_id i db = None →
     record_attempt now i e df ff db = (None, db) ∧
     update_status now i st em lu sp db = (None, db)).
Proof.
  split; [|split].
  - intros now i e df ff db s Hs. eexists.
    split; [by apply record_attempt_found|]. simpl.
    repeat split; try done; by intros ->.
  - intros a i w db s r Hs Ho. eexists.
    split; [by apply (process_returned a i w db s r)|].
    destruct (r_success r); simpl; split; by intros ->.
  - intros now i e df ff st em lu sp db Hs.
    unfold record_attempt, update_status. by rewrite Hs.
Qed.

Lemma stale_detection_kept_sample :
  ∃ s', get_by_id 7
          (Worker._process_submission (Sample.attempt_at 100 (inr Sample.no_form_run)) 7
             (Sample.worker, Sample.db_of [Sample.fresh 7 3])).2 = Some s' ∧
        detected_fields s' = None.
Proof.
  destruct stale_detection_kept as (_ & H & _).
  destruct (H (Sample.attempt_at 100 (inr Sample.no_form_run)) 7 Sample.worker
              (Sample.db_of [Sample.fresh 7 3]) (Sample.fresh 7 3) Sample.no_form_run)
    as (s' & H1 & H2 & _).
  - vm_compute. reflexivity.
  - reflexivity.
  - exists s'. split; [exact H1|]. apply H2. reflexivity.
Defined.

(** X5.  [run_single_submission] on an id without a row reports that it
    was not found and changes nothing.  When the run returns, the
    attempt is counted and the job ends SUBMITTED on success and FAILED
    on any failure, whatever the number of attempts left.  When the run
    raises, the exception leaves the function and the job stays
    IN_PROGRESS, with its [attempt_count] as before. *)
Theorem single_run a i db :
  (get_by_id i db = None →
   SingleRun.run_single_submission a i db = (inr NotFound, db)) ∧
  (∀ s r, get_by_id i db = Some s → outcome a = inr r →
     (SingleRun.run_single_submission a i db).1 = inr (Ran r) ∧
     ∃ s', get_by_id i (SingleRun.run_single_submission a i db).2 = Some s' ∧
           status s' = (if r_success r then SUBMITTED else FAILED) ∧
           attempt_count s' = attempt_count s + 1) ∧
  (∀ s e, get_by_id i db = Some s → outcome a = inl e →
     (SingleRun.run_single_submission a i db).1 = inl e ∧
     get_by_id i (SingleRun.run_single_submission a i db).2 = Some (Worker.picked a s) ∧
     status (Worker.picked a s) = IN_PROGRESS ∧
     attempt_count (Worker.picked a s) = attempt_count s).
Proof.
  unfold SingleRun.run_single_submission, Db.with_session, SingleRun.body.
  unfold mbind, Sess_bind, Db.fetch, Db.call, Db.commit, Db.returns; simpl.
  split; [|split].
  - intros Hs. by rewrite Hs.
  - intros s r Hs Ho. rewrite Hs, Ho; simpl.
    destruct (update_status (t_pickup a) i IN_PROGRESS None None None db) as [x db1] eqn:E1.
    simpl.
    assert (H1 : get_by_id i db1 = Some (Worker.picked a s)).
    { rewrite (snd_eq _ _ _ E1). by apply update_status_found. }
    destruct (record_attempt (t_record a) i _ (r_detected_fields r) (r_filled_fields r) db1)
      as [y db2] eqn:E2.
    simpl.
    assert (H2 : ∃ s2, get_by_id i db2 = Some s2 ∧
                       attempt_count s2 = attempt_count s + 1).
    { eexists. split; [rewrite (snd_eq _ _ _ E2); by apply record_attempt_found|done]. }
    destruct H2 as (s2 & H2 & Hc2).
    destruct (r_success r); simpl.
    + destruct (update_status (t_final a) i SUBMITTED None None (r_screenshot_path r) db2)
        as [z db3] eqn:E3.
      simpl. split; [done|]. eexists.
      split; [rewrite (snd_eq _ _ _ E3); by apply update_status_found|]. done.
    + destruct (update_status (t_final a) i FAILED (r_error r) None (r_screenshot_path r) db2)
        as [z db3] eqn:E3.
      simpl. split; [done|]. eexists.
      split; [rewrite (snd_eq _ _ _ E3); by apply update_status_found|]. done.
  - intros s e Hs Ho. rewrite Hs, Ho; simpl.
    destruct (update_status (t_pickup a) i IN_PROGRESS None None None db) as [x db1] eqn:E1.
    simpl. split; [done|]. split; [|done].
    rewrite (snd_eq _ _ _ E1). by apply update_status_found.
Qed.

Lemma single_run_sample :
  ∃ s', get_by_id 7
          (SingleRun.run_single_submission
             (Sample.attempt_at 100 (inr Sample.no_form_run)) 7
             (Sample.db_of [Sample.fresh 7 3])).2 = Some s' ∧
        status s' = FAILED ∧ attempt_count s' = 1.
Proof.
  destruct (single_run (Sample.attempt_at 100 (inr Sample.no_form_run)) 7
              (Sample.db_of [Sample.fresh 7 3])) as (_ & H & _).
  destruct (H (Sample.fresh 7 3) Sample.no_form_run) as (_ & s' & H1 & H2 & H3).
  - vm_compute. reflexivity.
  - reflexivity.
  - exists s'. split; [exact H1|]. split; [exact H2|exact H3].
Defined.

End worker_more.

(** ** More on the executor: verdicts, early exits, the logo, the counts *)

Section executor_more.

Import PyStr.

Variable json_loads : string → Res json.
Variable post : Provider → string → string → HttpOutcome.
Variable validate_str : json → option string.
Variable validate_bool : json → option bool.
Variable validate_float : json → option Qc.
Variable BeautifulSoup : string → list node.
Variable provider : Provider.

Abbreviation primary :=
  (BrowserAutomation.primary json_loads post validate_str validate_bool validate_float
     provider).
Abbreviation browser_detect_form :=
  (BrowserAutomation.detect_form json_loads post validate_str validate_bool
     validate_float BeautifulSoup provider).
Abbreviation rule_fields := (RuleBasedFormDetector.detect_fields_from_html BeautifulSoup).
Abbreviation execute_submission :=
  (SubmissionExecutor.execute_submission json_loads post validate_str validate_bool
     validate_float BeautifulSoup provider).

(** Unfolds a run down to the calls on the page; the detection is kept
    as one value. *)
Ltac open_run :=
  unfold SubmissionExecutor.execute_submission, SubmissionExecutor.run_steps,
    SubmissionExecutor.detect_and_fill, SubmissionExecutor.submit_and_check,
    SubmissionExecutor.on_exception;
  repeat match goal with
  | |- context [BrowserAutomation.detect_form ?a ?b ?c ?d ?e ?f ?g ?h ?i] =>
      generalize (BrowserAutomation.detect_form a b c d e f g h i); intros ?fr
  end.

Lemma bind_inr {A B} (m : Res A) (k : A → Res B) r :
  (x ← m; k x) = inr r → ∃ x, m = inr x ∧ k x = inr r.
Proof. destruct m as [e|x]; [done|]. intros H. by exists x. Qed.

Lemma service_detect_url p shot html u :
  url (FormDetectionService.detect_form json_loads post validate_str validate_bool
         validate_float p shot html u) = u.
Proof.
  unfold FormDetectionService.detect_form.
  destruct (FormDetectionService.detect_form_try _ _ _ _ _ _ _ _ _) as [e|r] eqn:E; [done|].
  unfold FormDetectionService.detect_form_try in E.
  do 12 (apply bind_inr in E as (? & _ & E)).
  by injection E as <-.
Qed.

(** X6.  The only exception that leaves [execute_submission] is one
    raised by [browser.stop()].  Every run that returns carries the URL
    it was given and a verdict: [success] is set exactly when there is no
    error, so a failed run always has an error message. *)
Theorem run_verdict page directory_url saas_data logo_path :
  (∀ e, stopped page = inl e →
        execute_submission page directory_url saas_data logo_path = inl e) ∧
  (stopped page = inr () →
   ∃ result,
     execute_submission page directory_url saas_data logo_path = inr result ∧
     r_url result = directory_url ∧
     (r_success result = true ↔ r_error result = None) ∧
     (r_success result = false ↔ is_Some (r_error result))).
Proof.
  split.
  - intros e He. unfold SubmissionExecutor.execute_submission. by rewrite He.
  - intros Hstop. open_run. rewrite Hstop.
    eexists. split; [reflexivity|].
    repeat case_match; simplify_eq/=.
    all: try (split; [done|]; split; split; intros; try done; by eauto).
    all: unfold SubmissionExecutor.conclude; repeat case_match; simpl.
    all: split; [done|]; split; split; intros; try done; by eauto.
Qed.

(** X7.  The early exits of a run.  When the browser cannot be started
    the result carries the message of the exception, one log entry and
    no screenshot.  When the page does not load the run stops after the
    navigation step: no screenshot is taken and no detection is tried.
    When the first screenshot raises, the message is reported and the
    screenshot is the one taken afterwards, if it could be taken.  When
    no form is found the run stops with the screenshot of the page and
    without detected or filled fields. *)
Theorem run_aborts page directory_url saas_data logo_path :
  stopped page = inr () →
  (∀ e, started page = inl e →
     execute_submission page directory_url saas_data logo_path
     = inr (mkRunResult false directory_url None [] None (Some (str_exn e))
              [StepError (str_exn e)])) ∧
  (started page = inr () → navigated page = false →
     execute_submission page directory_url saas_data logo_path
     = inr (mkRunResult false directory_url None [] None (Some "Failed to load page")
              [Step "navigate" "started"; Step "navigate" "failed"])) ∧
  (∀ e, started page = inr () → navigated page = true →
     shot page "submission" = inl e →
     execute_submission page directory_url saas_data logo_path
     = inr (mkRunResult false directory_url None []
              (match shot page "error" with inr path => Some path | inl _ => None end)
              (Some (str_exn e))
              [Step "navigate" "started"; Step "navigate" "success";
               StepError (str_exn e)])) ∧
  (∀ path, started page = inr () → navigated page = true →
     shot page "submission" = inr path →
     form_found (browser_detect_form (page_state page) directory_url) = false →
     execute_submission page directory_url saas_data logo_path
     = inr (mkRunResult false directory_url None [] (Some path)
              (Some "No submission form found")
              [Step "navigate" "started"; Step "navigate" "success";
               Step "detect_form" "started"; Step "detect_form" "failed"])).
Proof.
  intros Hstop. split; [|split; [|split]].
  - intros e He. unfold SubmissionExecutor.execute_submission.
    by rewrite He, Hstop.
  - intros Hst Hnav.
    unfold SubmissionExecutor.execute_submission, SubmissionExecutor.run_steps.
    by rewrite Hst, Hnav, Hstop.
  - intros e Hst Hnav Hshot.
    unfold SubmissionExecutor.execute_submission, SubmissionExecutor.run_steps.
    rewrite Hst, Hnav, Hshot, Hstop. simpl.
    unfold SubmissionExecutor.on_exception. by destruct (shot page "error").
  - intros path Hst Hnav Hshot Hff.
    unfold SubmissionExecutor.execute_submission, SubmissionExecutor.run_steps.
    rewrite Hst, Hnav, Hshot, Hstop. simpl.
    unfold SubmissionExecutor.detect_and_fill. by rewrite Hff.
Qed.


(** The mapping the run ends with, once a form was found. *)
Lemma filled_after_detection page directory_url saas_data logo_path path result :
  started page = inr () →
  navigated page = true →
  shot page "submission" = inr path →
  form_found (browser_detect_form (page_state page) directory_url) = true →
  execute_submission page directory_url saas_data logo_path = inr result →
  r_filled_fields result
  = SubmissionExecutor.add_logo logo_path
      (fields (browser_detect_form (page_state page) directory_url))
      (FieldMapper.map_saas_data_to_fields
         (fields (browser_detect_form (page_state page) directory_url)) saas_data).
Proof.
  intros Hst Hnav Hshot Hff Hex.
  unfold SubmissionExecutor.execute_submission, SubmissionExecutor.run_steps in Hex.
  rewrite Hst, Hnav, Hshot in Hex. simpl in Hex.
  unfold SubmissionExecutor.detect_and_fill in Hex. rewrite Hff in Hex. simpl in Hex.
  unfold SubmissionExecutor.submit_and_check, SubmissionExecutor.on_exception in Hex.
  repeat case_match; simplify_eq/=; try done.
  all: unfold SubmissionExecutor.conclude; repeat case_match; done.
Qed.

(** X9.  When a logo path is given and the detected form has a field of
    type [file], the run fills the first such field with the logo path,
    whatever the mapper found for it.  Without a logo path the filled
    fields are the output of the mapper. *)
Theorem logo_goes_to_first_file_field page directory_url saas_data path result :
  started page = inr () →
  navigated page = true →
  shot page "submission" = inr path →
  form_found (browser_detect_form (page_state page) directory_url) = true →
  (∀ logo f,
     logo ≠ "" →
     List.find (λ f, String.eqb (field_type f) "file")
       (fields (browser_detect_form (page_state page) directory_url)) = Some f →
     execute_submission page directory_url saas_data (Some logo) = inr result →
     PyDict.get (selector f) (r_filled_fields result)
     = Some (mkMappedField (name f) "file" logo)) ∧
  (∀ logo_path,
     truthy_opt logo_path = false →
     execute_submission page directory_url saas_data logo_path = inr result →
     r_filled_fields result
     = FieldMapper.map_saas_data_to_fields
         (fields (browser_detect_form (page_state page) directory_url)) saas_data).
Proof.
  intros Hst Hnav Hshot Hff. split.
  - intros logo f Hlogo Hfind Hex.
    rewrite (filled_after_detection _ _ _ _ _ _ Hst Hnav Hshot Hff Hex).
    unfold SubmissionExecutor.add_logo. simpl.
    apply truthy_ne in Hlogo. rewrite Hlogo, Hfind. apply get_set_eq.
  - intros logo_path Hlogo Hex.
    rewrite (filled_after_detection _ _ _ _ _ _ Hst Hnav Hshot Hff Hex).
    unfold SubmissionExecutor.add_logo. by rewrite Hlogo.
Qed.

Lemma count_true_false (l : list (string * bool)) :
  (length (filter (λ p, p.2 = true) l) + length (filter (λ p, p.2 = false) l))%nat
  = length l.
Proof.
  induction l as [|[k [|]] l IH]; [done| |].
  - rewrite filter_cons_True by done. rewrite filter_cons_False by done.
    simpl. lia.
  - rewrite filter_cons_False by done. rewrite filter_cons_True by done.
    simpl. lia.
Qed.

Lemma length_fill_form page (m : FieldMapping) :
  length (SubmissionExecutor.fill_form page m) = length m.
Proof. unfold SubmissionExecutor.fill_form. apply length_map. Qed.

(** X10.  In the log of every run, the numbers of filled and of failed
    fields reported by the fill step add up to the number of fields the
    run set out to fill. *)
Theorem fill_counts_add_up page directory_url saas_data logo_path result filled failed :
  execute_submission page directory_url saas_data logo_path = inr result →
  StepFill filled failed ∈ r_logs result →
  (filled + failed)%nat = length (r_filled_fields result).
Proof.
  open_run. intros Hex Hin.
  repeat case_match; simplify_eq/=.
  all: try (unfold SubmissionExecutor.conclude in Hin |- *; repeat case_match; simpl in *).
  all: repeat (apply elem_of_cons in Hin as [Hin|Hin]; [try discriminate|]).
  all: try (by apply elem_of_nil in Hin).
  all: injection Hin as -> ->; rewrite count_true_false; apply length_fill_form.
Qed.

(** X11.  The detection of the page engine outside the fallback.  When
    the screenshot or the markup cannot be read the result is the one
    without a form, and the rule-based detector is not consulted.  A
    primary result that has a form with fields is returned as it is.
    The result always carries the URL it was asked about.  And whenever
    the rule-based detector finds a field in the markup, the result has
    a form with fields, whatever the model answered. *)
Theorem detection_without_fallback :
  (∀ e u, browser_detect_form (inl e) u
          = mkFormDetectionResult u false None [] None None conf_0_0) ∧
  (∀ shot html u,
     form_found (primary shot html u) = true → fields (primary shot html u) ≠ [] →
     browser_detect_form (inr (shot, html)) u = primary shot html u) ∧
  (∀ ps u, url (browser_detect_form ps u) = u) ∧
  (∀ shot html u,
     rule_fields html ≠ [] →
     form_found (browser_detect_form (inr (shot, html)) u) = true ∧
     fields (browser_detect_form (inr (shot, html)) u) ≠ []).
Proof.
  split; [done|]. split; [|split].
  - intros shot html u Hff Hne. unfold BrowserAutomation.detect_form.
    rewrite Hff. simpl. by destruct (fields (primary shot html u)).
  - intros [e|[shot html]] u; [done|]. unfold BrowserAutomation.detect_form.
    destruct (negb _ || _); [|apply service_detect_url].
    destruct (rule_fields html); [apply service_detect_url|done].
  - intros shot html u Hne. unfold BrowserAutomation.detect_form.
    destruct (form_found (primary shot html u)) eqn:Hff; simpl.
    + destruct (fields (primary shot html u)) as [|f l] eqn:Hf; simpl.
      * by destruct (rule_fields html).
      * by rewrite Hff, Hf.
    + by destruct (rule_fields html).
Qed.

(** A run stopped by a CAPTCHA returns a failed result. *)
Lemma captcha_run_fails page directory_url saas_data logo_path path :
  started page = inr () →
  navigated page = true →
  shot page "submission" = inr path →
  form_found (browser_detect_form (page_state page) directory_url) = true →
  captcha page = true →
  stopped page = inr () →
  ∃ result,
    execute_submission page directory_url saas_data logo_path = inr result ∧
    r_success result = false ∧
    r_error result = Some "CAPTCHA detected - requires manual intervention".
Proof.
  intros Hst Hnav Hshot Hff Hcap Hstop.
  unfold SubmissionExecutor.execute_submission, SubmissionExecutor.run_steps.
  rewrite Hst, Hnav, Hshot, Hstop. simpl.
  unfold SubmissionExecutor.detect_and_fill. rewrite Hff, Hcap. simpl.
  eexists. split; [reflexivity|]. done.
Qed.

(** X12.  A run that the worker starts and that a CAPTCHA stops is an
    attempt like any other failed run: the job's [attempt_count] goes up
    by one, the CAPTCHA message becomes its error message, and it is put
    back to PENDING or set to FAILED by the rule for failed runs. *)
Theorem captcha_counts_as_attempt page directory_url saas_data logo_path path a i w db s :
  started page = inr () →
  navigated page = true →
  shot page "submission" = inr path →
  form_found (browser_detect_form (page_state page) directory_url) = true →
  captcha page = true →
  stopped page = inr () →
  outcome a = execute_submission page directory_url saas_data logo_path →
  SubmissionService.get_by_id i db = Some s →
  ∃ s', SubmissionService.get_by_id i (Worker._process_submission a i (w, db)).2 = Some s' ∧
        attempt_count s' = attempt_count s + 1 ∧
        error_message s' = Some "CAPTCHA detected - requires manual intervention" ∧
        status s' = (if attempt_count s + 1 >=? max_attempts s - 1 then FAILED else PENDING).
Proof.
  intros Hst Hnav Hshot Hff Hcap Hstop Ho Hs.
  destruct (captcha_run_fails page directory_url saas_data logo_path path
              Hst Hnav Hshot Hff Hcap Hstop) as (r & Hex & Hfail & Herr).
  rewrite Hex in Ho.
  eexists. split; [by apply (process_returned a i w db s r)|].
  rewrite Hfail, Herr. done.
Qed.

End executor_more.

(** The executor on sample pages. *)

Lemma run_verdict_sample :
  ∃ result,
    SubmissionExecutor.execute_submission JsonRef.loads Sample.unreachable
      Sample.strict_str Sample.strict_bool Sample.strict_float
      (Sample.parses_to Sample.email_form) OpenAIProvider
      (Sample.smooth_page "<p>Thank you!</p>") "https://dir.example/submit"
      Sample.product_data None = inr result ∧
    r_url result = "https://dir.example/submit".
Proof.
  destruct (run_verdict JsonRef.loads Sample.unreachable
              Sample.strict_str Sample.strict_bool Sample.strict_float
              (Sample.parses_to Sample.email_form) OpenAIProvider
              (Sample.smooth_page "<p>Thank you!</p>")
              "https://dir.example/submit" Sample.product_data None) as [_ H].
  destruct (H eq_refl) as (result & H1 & H2 & _).
  exists result. split; [exact H1|exact H2].
Defined.

Lemma run_aborts_sample :
  SubmissionExecutor.execute_submission JsonRef.loads Sample.unreachable
    Sample.strict_str Sample.strict_bool Sample.strict_float
    (Sample.parses_to Sample.email_form) OpenAIProvider
    Fixture.dead_page "https://dir.example/submit" Sample.product_data None
  = inr (mkRunResult false "https://dir.example/submit" None [] None
           (Some "Failed to load page")
           [Step "navigate" "started"; Step "navigate" "failed"]).
Proof.
  destruct (run_aborts JsonRef.loads Sample.unreachable
              Sample.strict_str Sample.strict_bool Sample.strict_float
              (Sample.parses_to Sample.email_form) OpenAIProvider
              Fixture.dead_page "https://dir.example/submit" Sample.product_data None
              eq_refl) as (_ & H & _).
  apply H; reflexivity.
Defined.


Lemma logo_goes_to_first_file_field_sample :
  ∃ result,
    SubmissionExecutor.execute_submission JsonRef.loads Sample.unreachable
      Sample.strict_str Sample.strict_bool Sample.strict_float
      (Sample.parses_to Fixture.upload_form) OpenAIProvider
      (Sample.smooth_page "<p>Thank you!</p>") "https://dir.example/submit"
      Sample.product_data (Some "logo.png") = inr result ∧
    PyDict.get "#logo" (r_filled_fields result)
    = Some (mkMappedField "logo" "file" "logo.png").
Proof.
  eexists. split; [vm_compute; reflexivity|].
  match goal with
  | |- PyDict.get _ (r_filled_fields ?r) = _ =>
      pose proof (logo_goes_to_first_file_field JsonRef.loads Sample.unreachable
                    Sample.strict_str Sample.strict_bool Sample.strict_float
                    (Sample.parses_to Fixture.upload_form) OpenAIProvider
                    (Sample.smooth_page "<p>Thank you!</p>") "https://dir.example/submit"
                    Sample.product_data "screenshots/submission.png" r
                    eq_refl eq_refl eq_refl eq_refl) as [H _]
  end.
  apply (H "logo.png" (mkFormField "logo" "file" None (Some "") false "#logo" None)).
  - discriminate.
  - vm_compute. reflexivity.
  - vm_compute. reflexivity.
Defined.

Lemma fill_counts_add_up_sample :
  ∃ result,
    SubmissionExecutor.execute_submission JsonRef.loads Sample.unreachable
      Sample.strict_str Sample.strict_bool Sample.strict_float
      (Sample.parses_to Sample.email_form) OpenAIProvider
      (Sample.smooth_page "<p>Thank you!</p>") "https://dir.example/submit"
      Sample.product_data None = inr result ∧
    (1 + 0)%nat = length (r_filled_fields result).
Proof.
  eexists. split; [vm_compute; reflexivity|].
  eapply (fill_counts_add_up JsonRef.loads Sample.unreachable
            Sample.strict_str Sample.strict_bool Sample.strict_float
            (Sample.parses_to Sample.email_form) OpenAIProvider
            (Sample.smooth_page "<p>Thank you!</p>") "https://dir.example/submit"
            Sample.product_data None).
  - vm_compute. reflexivity.
  - vm_compute. do 5 right. left.
Defined.

Lemma detection_without_fallback_sample :
  form_found
    (BrowserAutomation.detect_form JsonRef.loads Sample.unreachable
       Sample.strict_str Sample.strict_bool Sample.strict_float
       (Sample.parses_to Sample.email_form) OpenAIProvider
       (inr ("iVBORw0KGgo=", "<html>")) "https://dir.example/submit") = true.
Proof.
  destruct (detection_without_fallback JsonRef.loads Sample.unreachable
              Sample.strict_str Sample.strict_bool Sample.strict_float
              (Sample.parses_to Sample.email_form) OpenAIProvider)
    as (_ & _ & _ & H).
  apply H. vm_compute. discriminate.
Defined.

Lemma captcha_counts_as_attempt_sample :
  ∃ s', SubmissionService.get_by_id 7
          (Worker._process_submission
             (Sample.attempt_at 100
                (SubmissionExecutor.execute_submission JsonRef.loads Sample.unreachable
                   Sample.strict_str Sample.strict_bool Sample.strict_float
                   (Sample.parses_to Sample.email_form) OpenAIProvider
                   Fixture.captcha_page "https://dir.example/submit"
                   Sample.product_data None)) 7
             (Sample.worker, Sample.db_of [Sample.fresh 7 3])).2 = Some s' ∧
        attempt_count s' = 1 ∧ status s' = PENDING.
Proof.
  destruct (captcha_counts_as_attempt JsonRef.loads Sample.unreachable
              Sample.strict_str Sample.strict_bool Sample.strict_float
              (Sample.parses_to Sample.email_form) OpenAIProvider
              Fixture.captcha_page "https://dir.example/submit" Sample.product_data None
              "screenshots/submission.png"
              (Sample.attempt_at 100
                 (SubmissionExecutor.execute_submission JsonRef.loads Sample.unreachable
                    Sample.strict_str Sample.strict_bool Sample.strict_float
                    (Sample.parses_to Sample.email_form) OpenAIProvider
                    Fixture.captcha_page "https://dir.example/submit"
                    Sample.product_data None))
              7 Sample.worker (Sample.db_of [Sample.fresh 7 3]) (Sample.fresh 7 3))
    as (s' & H1 & H2 & _ & H3); try reflexivity.
  exists s'. split; [exact H1|]. split; [exact H2|exact H3].
Defined.

(** ** Creating, listing, counting and deleting submissions *)

Section crud_facts.

Import SubmissionService SubmissionCrud.

Implicit Types (db : Database) (s : DirectorySubmission) (i j : Z).

Variable next_id : Database → Z.
Variable rate : Z → Z → Qc.

(** The database never hands out a primary key that is in use. *)
Hypothesis next_id_fresh : ∀ db, get_by_id (next_id db) db = None.

Abbreviation create := (SubmissionCrud.create next_id).
Abbreviation insert_all := (SubmissionCrud.insert_all next_id).
Abbreviation bulk_create := (SubmissionCrud.bulk_create next_id).
Abbreviation get_stats := (SubmissionCrud.get_stats rate).

Lemma store_keeps i s db j s0 :
  get_by_id i db = None → get_by_id j db = Some s0 → get_by_id j (store i s db) = Some s0.
Proof.
  intros Hi Hj. rewrite get_store_ne; [done|]. intros ->. congruence.
Qed.

Lemma well_keyed_store i s db : sub_id s = i → well_keyed db → well_keyed (store i s db).
Proof.
  intros Hid Hk j s0 Hj. destruct (decide (i = j)) as [<-|Hne].
  - rewrite get_store in Hj. by injection Hj as <-.
  - rewrite get_store_ne in Hj by done. by apply Hk.
Qed.

(** X13.  [create] adds one row and one activity entry.  The row is
    PENDING with no attempt made and three allowed, it can be read back
    under its id, the rows that were there are unchanged, and the
    polling query returns the new row when the jobs it selects, PENDING
    with attempts left, are no more than its limit. *)
Theorem created_submission_is_queued t_created t_updated product directory db :
  let s := (create t_created t_updated product directory db).1 in
  let db' := (create t_created t_updated product directory db).2 in
  status s = PENDING ∧ attempt_count s = 0 ∧ max_attempts s = 3 ∧
  saas_product_id s = product ∧ directory_id s = directory ∧
  get_by_id (sub_id s) db' = Some s ∧
  (∀ j s0, get_by_id j db = Some s0 → get_by_id j db' = Some s0) ∧
  (well_keyed db → well_keyed db') ∧
  (∀ limit, Z.of_nat (length (filter is_pending (rows db'))) ≤ limit →
            s ∈ get_pending_submissions limit db') ∧
  length (activity_logs db') = S (length (activity_logs db)).
Proof.
  intros s db'. unfold s, db', SubmissionCrud.create. simpl.
  split; [done|]. split; [done|]. split; [done|]. split; [done|]. split; [done|].
  split; [by rewrite get_log_activity, get_store|].
  split; [|split; [|split]].
  - intros j s0 Hj. rewrite get_log_activity. by apply store_keeps.
  - intros Hk j s0. rewrite get_log_activity. by apply well_keyed_store.
  - intros limit Hlim. apply pending_elem_of; [|split; [done|simpl; lia]|done].
    apply elem_of_rows. exists (next_id db). by rewrite get_log_activity, get_store.
  - rewrite length_app. simpl. lia.
Qed.

(** The rows a flush inserts. *)
Lemma insert_all_spec clock k product directories db :
  directory_id <$> (insert_all clock k product directories db).1 = directories ∧
  (∀ s, s ∈ (insert_all clock k product directories db).1 →
        status s = PENDING ∧ saas_product_id s = product ∧ attempt_count s = 0 ∧
        get_by_id (sub_id s) (insert_all clock k product directories db).2 = Some s) ∧
  (∀ j s0, get_by_id j db = Some s0 →
           get_by_id j (insert_all clock k product directories db).2 = Some s0) ∧
  activity_logs (insert_all clock k product directories db).2 = activity_logs db.
Proof.
  revert k db. induction directories as [|d rest IH]; intros k db; simpl.
  - split; [done|]. split; [|done]. intros s Hin. by apply elem_of_nil in Hin.
  - set (s1 := new_submission (next_id db) (clock k).1 (clock k).2 product d).
    destruct (IH (S k) (store (next_id db) s1 db)) as (H1 & H2 & H3 & H4).
    destruct (insert_all clock (S k) product rest (store (next_id db) s1 db))
      as [l db'] eqn:E.
    simpl in *. split; [f_equal; exact H1|]. split; [|split; [|done]].
    + intros s [->|Hin]%elem_of_cons; [|by apply H2].
      split; [done|]. split; [done|]. split; [done|].
      apply H3. apply get_store.
    + intros j s0 Hj. apply H3. by apply store_keeps.
Qed.

Lemma elem_of_existing_ids product directory_ids db d :
  d ∈ existing_ids product directory_ids db ↔
  d ∈ directory_ids ∧
  ∃ s, s ∈ rows db ∧ saas_product_id s = product ∧ directory_id s = d.
Proof.
  unfold existing_ids. rewrite list_elem_of_fmap. split.
  - intros (s & -> & [[Hp Hd] Hin]%list_elem_of_filter). split; [done|]. by exists s.
  - intros (Hd & s & Hin & Hp & <-). exists s. split; [done|].
    apply list_elem_of_filter. done.
Qed.

Lemma filter_none {A} (P : A → Prop) `{∀ x, Decision (P x)} (l : list A) :
  (∀ x, x ∈ l → ¬ P x) → filter P l = [].
Proof.
  induction l as [|x l IH]; intros Hall; [done|].
  rewrite filter_cons_False by (apply Hall; left).
  apply IH. intros y Hy. apply Hall. by right.
Qed.

(** X14.  [bulk_create] inserts one PENDING row for every entry of the
    list of directories for which the product had no submission when the
    call began, in the order of the list; a directory listed twice is
    inserted twice.  The rows that were there are unchanged and no
    activity is logged.  After the call every listed directory has a
    submission of the product, so that a second call with the same list
    inserts nothing. *)
Theorem bulk_create_fills_the_gaps clock product directory_ids db :
  let created := (bulk_create clock product directory_ids db).1 in
  let db' := (bulk_create clock product directory_ids db).2 in
  directory_id <$> created
  = filter (λ d, d ∉ existing_ids product directory_ids db) directory_ids ∧
  (∀ s, s ∈ created →
        status s = PENDING ∧ saas_product_id s = product ∧ attempt_count s = 0 ∧
        get_by_id (sub_id s) db' = Some s) ∧
  (∀ j s0, get_by_id j db = Some s0 → get_by_id j db' = Some s0) ∧
  activity_logs db' = activity_logs db ∧
  (∀ d, d ∈ directory_ids →
        ∃ s, s ∈ rows db' ∧ saas_product_id s = product ∧ directory_id s = d) ∧
  (∀ clock', bulk_create clock' product directory_ids db' = ([], db')).
Proof.
  intros created db'. unfold created, db', SubmissionCrud.bulk_create.
  set (new := filter (λ d, d ∉ existing_ids product directory_ids db) directory_ids).
  destruct (insert_all_spec clock 0%nat product new db) as (H1 & H2 & H3 & H4).
  assert (Hcover : ∀ d, d ∈ directory_ids →
            ∃ s, s ∈ rows (insert_all clock 0%nat product new db).2 ∧
                 saas_product_id s = product ∧ directory_id s = d).
  { intros d Hd.
    destruct (decide (d ∈ existing_ids product directory_ids db)) as [Hex|Hex].
    - apply elem_of_existing_ids in Hex as (_ & s & Hin & Hp & Hdir).
      exists s. split; [|done]. apply elem_of_rows in Hin as [j Hj].
      apply elem_of_rows. exists j. by apply H3.
    - assert (Hn : d ∈ new) by (by apply list_elem_of_filter).
      rewrite <- H1 in Hn. apply list_elem_of_fmap in Hn as (s & -> & Hin).
      destruct (H2 s Hin) as (_ & Hp & _ & Hg).
      exists s. split; [|done]. apply elem_of_rows. by eexists. }
  split; [done|]. split; [done|]. split; [done|]. split; [done|]. split; [done|].
  intros clock'.
  rewrite filter_none; [done|].
  intros d Hd Hnot. apply Hnot. apply elem_of_existing_ids. split; [done|].
  by apply Hcover.
Qed.

(** X15.  [delete] on an id without a row answers [False] and changes
    nothing.  On an id with a row it answers [True] and removes that
    row only; a second call then answers [False].  It writes no
    activity entry.  Deleting a submission just created gives back the
    table of submissions as it was before the creation. *)
Theorem delete_removes_one_row i db :
  (get_by_id i db = None → delete i db = (false, db)) ∧
  (is_Some (get_by_id i db) →
   (delete i db).1 = true ∧ get_by_id i (delete i db).2 = None ∧
   (delete i (delete i db).2).1 = false) ∧
  (∀ j, j ≠ i → get_by_id j (delete i db).2 = get_by_id j db) ∧
  activity_logs (delete i db).2 = activity_logs db ∧
  (∀ t_created t_updated product directory,
     submissions
       (delete (next_id db) (create t_created t_updated product directory db).2).2
     = submissions db).
Proof.
  unfold delete. split; [|split; [|split; [|split]]].
  - by intros ->.
  - intros [s Hs]. rewrite Hs. simpl.
    assert (Hgone : get_by_id i
              (mkDatabase (base.delete i (submissions db)) (activity_logs db)) = None).
    { unfold get_by_id. simpl. apply lookup_delete_eq. }
    split; [done|]. split; [done|]. by rewrite Hgone.
  - intros j Hne. destruct (get_by_id i db); [|done].
    unfold get_by_id. simpl. by apply lookup_delete_ne.
  - by destruct (get_by_id i db).
  - intros t_created t_updated product directory.
    unfold SubmissionCrud.create. simpl.
    rewrite get_log_activity, get_store. simpl.
    apply delete_insert_id. apply next_id_fresh.
Qed.

Lemma length_filter_le {A} (P Q : A → Prop) `{∀ x, Decision (P x)} `{∀ x, Decision (Q x)}
  (l : list A) :
  (∀ x, P x → Q x) → (length (filter P l) ≤ length (filter Q l))%nat.
Proof.
  intros Himp. induction l as [|x l IH]; [done|].
  rewrite !filter_cons. destruct (decide (P x)) as [Hp|Hp].
  - rewrite decide_True by auto. simpl. lia.
  - destruct (decide (Q x)); simpl; lia.
Qed.

Lemma status_partition (l : list DirectorySubmission) :
  length l
  = (length (filter (λ s, status s = PENDING) l)
     + length (filter (λ s, status s = IN_PROGRESS) l)
     + length (filter (λ s, status s = SUBMITTED) l)
     + length (filter (λ s, status s = APPROVED) l)
     + length (filter (λ s, status s = REJECTED) l)
     + length (filter (λ s, status s = FAILED) l)
     + length (filter (λ s, status s = REQUIRES_REVIEW) l))%nat.
Proof.
  induction l as [|s l IH]; [done|].
  rewrite !filter_cons. simpl. rewrite IH.
  destruct (status s); repeat case_decide; try done; simpl; lia.
Qed.

Lemma get_status_count db st :
  default 0 (PyDict.get (status_value st) (status_counts db))
  = count_where (λ s, status s = st) db.
Proof.
  unfold status_counts, all_statuses. rewrite !omap_step. cbv zeta.
  destruct (count_where (λ s, status s = PENDING) db =? 0) eqn:E1;
  destruct (count_where (λ s, status s = IN_PROGRESS) db =? 0) eqn:E2;
  destruct (count_where (λ s, status s = SUBMITTED) db =? 0) eqn:E3;
  destruct (count_where (λ s, status s = APPROVED) db =? 0) eqn:E4;
  destruct (count_where (λ s, status s = REJECTED) db =? 0) eqn:E5;
  destruct (count_where (λ s, status s = FAILED) db =? 0) eqn:E6;
  destruct (count_where (λ s, status s = REQUIRES_REVIEW) db =? 0) eqn:E7;
  destruct st; simpl; lia.
Qed.

Lemma sum_status_counts db :
  py_sum (status_counts db).*2
  = count_where (λ s, status s = PENDING) db
    + count_where (λ s, status s = IN_PROGRESS) db
    + count_where (λ s, status s = SUBMITTED) db
    + count_where (λ s, status s = APPROVED) db
    + count_where (λ s, status s = REJECTED) db
    + count_where (λ s, status s = FAILED) db
    + count_where (λ s, status s = REQUIRES_REVIEW) db.
Proof.
  unfold status_counts, all_statuses. rewrite !omap_step. cbv zeta.
  destruct (count_where (λ s, status s = PENDING) db =? 0) eqn:E1;
  destruct (count_where (λ s, status s = IN_PROGRESS) db =? 0) eqn:E2;
  destruct (count_where (λ s, status s = SUBMITTED) db =? 0) eqn:E3;
  destruct (count_where (λ s, status s = APPROVED) db =? 0) eqn:E4;
  destruct (count_where (λ s, status s = REJECTED) db =? 0) eqn:E5;
  destruct (count_where (λ s, status s = FAILED) db =? 0) eqn:E6;
  destruct (count_where (λ s, status s = REQUIRES_REVIEW) db =? 0) eqn:E7;
  simpl; lia.
Qed.

(** X17.  In the statistics, [total] is the number of rows and each of
    the seven counters is the number of rows in its status, so the seven
    add up to [total].  The success rate is computed from the submitted
    and the approved rows over all rows, and is 0 without rows.  The
    counter of today and the counter of this week count the rows
    submitted since the start of the day and of the week; the
    submissions of today are among those of this week, which are among
    all. *)
Theorem stats_add_up today_start weekday db :
  let st := get_stats today_start weekday db in
  total st = Z.of_nat (length (rows db)) ∧
  (pending_count st = count_where (λ s, status s = PENDING) db ∧
   in_progress st = count_where (λ s, status s = IN_PROGRESS) db ∧
   submitted st = count_where (λ s, status s = SUBMITTED) db ∧
   approved st = count_where (λ s, status s = APPROVED) db ∧
   rejected st = count_where (λ s, status s = REJECTED) db ∧
   failed st = count_where (λ s, status s = FAILED) db ∧
   requires_review st = count_where (λ s, status s = REQUIRES_REVIEW) db) ∧
  pending_count st + in_progress st + submitted st + approved st + rejected st
  + failed st + requires_review st = total st ∧
  success_rate st
  = (if 0 <? total st then rate (submitted st + approved st) (total st) else Q2Qc 0) ∧
  today st = count_where (submitted_since today_start) db ∧
  this_week st = count_where (submitted_since (today_start - weekday * day)) db ∧
  (0 ≤ weekday → today st ≤ this_week st) ∧
  this_week st ≤ total st ∧
  (rows db = [] → total st = 0 ∧ success_rate st = Q2Qc 0 ∧ this_week st = 0).
Proof.
  intros st. unfold st, SubmissionCrud.get_stats. simpl.
  change "pending" with (status_value PENDING).
  change "in_progress" with (status_value IN_PROGRESS).
  change "submitted" with (status_value SUBMITTED).
  change "approved" with (status_value APPROVED).
  change "rejected" with (status_value REJECTED).
  change "failed" with (status_value FAILED).
  change "requires_review" with (status_value REQUIRES_REVIEW).
  rewrite !get_status_count, sum_status_counts.
  assert (Htot : count_where (λ s, status s = PENDING) db
                 + count_where (λ s, status s = IN_PROGRESS) db
                 + count_where (λ s, status s = SUBMITTED) db
                 + count_where (λ s, status s = APPROVED) db
                 + count_where (λ s, status s = REJECTED) db
                 + count_where (λ s, status s = FAILED) db
                 + count_where (λ s, status s = REQUIRES_REVIEW) db
                 = Z.of_nat (length (rows db))).
  { unfold count_where. pose proof (status_partition (rows db)). lia. }
  rewrite Htot.
  split; [done|]. split; [done|]. split; [lia|]. split; [done|].
  split; [done|]. split; [done|].
  split; [|split].
  - intros Hw. unfold count_where. apply inj_le, length_filter_le.
    intros s. unfold submitted_since, day. destruct (submitted_at s); [lia|done].
  - unfold count_where. apply inj_le, length_filter.
  - intros Hnil. unfold count_where. rewrite Hnil. done.
Qed.

End crud_facts.

Section listing_facts.

Import SubmissionService SubmissionCrud.

Lemma StronglySorted_drop {A} (R : relation A) n (l : list A) :
  StronglySorted R l → StronglySorted R (drop n l).
Proof.
  intros H. rewrite <- (take_drop n l) in H.
  by apply StronglySorted_app_1_r in H.
Qed.

#[local] Instance created_ge_trans : Transitive created_ge.
Proof. intros a b c. unfold created_ge. lia. Qed.

#[local] Instance created_ge_total : Total created_ge.
Proof. intros a b. unfold created_ge. lia. Qed.

(** X16.  [get_all] returns a page and a total.  The total is the number
    of rows that satisfy the conditions, whatever the offset and the
    limit.  The page holds only such rows, in descending order of
    [created_at], no more of them than the limit and than the total, and
    all of them when nothing is skipped and the limit is not below the
    total.  A product or directory id of 0 is treated as no condition at
    all. *)
Theorem get_all_page_and_total skip limit product directory st db :
  let page := (get_all skip limit product directory st db).1 in
  let total := (get_all skip limit product directory st db).2 in
  (∀ skip' limit', (get_all skip' limit' product directory st db).2 = total) ∧
  total = Z.of_nat (length (filter (matches product directory st) (rows db))) ∧
  (∀ s, s ∈ page → s ∈ rows db ∧ matches product directory st s) ∧
  StronglySorted created_ge page ∧
  (0 ≤ limit → Z.of_nat (length page) ≤ limit) ∧
  Z.of_nat (length page) ≤ total ∧
  (skip = 0 → total ≤ limit →
   page ≡ₚ filter (matches product directory st) (rows db)) ∧
  get_all skip limit (Some 0) directory st db = get_all skip limit None directory st db ∧
  get_all skip limit product (Some 0) st db = get_all skip limit product None st db.
Proof.
  intros page total. unfold page, total, get_all. simpl.
  split; [done|]. split; [done|]. split; [|split; [|split; [|split; [|split]]]].
  - intros s Hin%elem_of_sql_limit.
    apply (λ H, elem_of_sublist _ _ _ H (sublist_drop _ _)) in Hin.
    rewrite merge_sort_Permutation in Hin.
    apply list_elem_of_filter in Hin. tauto.
  - apply StronglySorted_sql_limit, StronglySorted_drop, StronglySorted_merge_sort; apply _.
  - apply sql_limit_length.
  - unfold sql_limit. rewrite length_take, length_drop.
    rewrite (Permutation_length (merge_sort_Permutation _ _)). lia.
  - intros Hskip Hlim.
    replace (Z.to_nat skip) with 0%nat by lia. rewrite drop_0.
    rewrite sql_limit_all; [apply merge_sort_Permutation|].
    by rewrite (Permutation_length (merge_sort_Permutation _ _)).
  - done.
Qed.

End listing_facts.

(** The service on sample rows. *)

Lemma next_id_above (l : list Z) i : i ∈ l → i < 1 + foldr Z.max 0 l.
Proof.
  induction l as [|j l IH]; [by intros ?%elem_of_nil|].
  intros [->|Hin]%elem_of_cons; simpl; [lia|]. specialize (IH Hin). lia.
Qed.

Lemma fixture_next_id_fresh db :
  SubmissionService.get_by_id (Fixture.next_id db) db = None.
Proof.
  unfold SubmissionService.get_by_id.
  destruct (submissions db !! Fixture.next_id db) as [s|] eqn:E; [|done].
  apply elem_of_map_to_list in E.
  apply (list_elem_of_fmap_2 fst) in E. simpl in E.
  apply next_id_above in E. unfold Fixture.next_id in E. lia.
Qed.

Lemma created_submission_is_queued_sample :
  (SubmissionCrud.create Fixture.next_id 10 11 1 5 Fixture.mixed_db).1
  ∈ SubmissionService.get_pending_submissions 2
      (SubmissionCrud.create Fixture.next_id 10 11 1 5 Fixture.mixed_db).2.
Proof.
  destruct (created_submission_is_queued Fixture.next_id fixture_next_id_fresh
              10 11 1 5 Fixture.mixed_db)
    as (_ & _ & _ & _ & _ & _ & _ & _ & H & _).
  apply H. vm_compute. discriminate.
Defined.

Lemma bulk_create_fills_the_gaps_sample :
  SubmissionCrud.bulk_create Fixture.next_id (λ _, (20, 20)) 1 [1; 5; 5]
    (SubmissionCrud.bulk_create Fixture.next_id (λ _, (10, 10)) 1 [1; 5; 5]
       (Sample.db_of [Sample.fresh 7 3])).2
  = ([], (SubmissionCrud.bulk_create Fixture.next_id (λ _, (10, 10)) 1 [1; 5; 5]
            (Sample.db_of [Sample.fresh 7 3])).2).
Proof.
  destruct (bulk_create_fills_the_gaps Fixture.next_id fixture_next_id_fresh
              (λ _, (10, 10)) 1 [1; 5; 5] (Sample.db_of [Sample.fresh 7 3]))
    as (_ & _ & _ & _ & _ & H).
  apply H.
Defined.

Lemma delete_removes_one_row_sample :
  SubmissionService.get_by_id 7
    (SubmissionCrud.delete 7 (Sample.db_of [Sample.fresh 7 3])).2 = None.
Proof.
  destruct (delete_removes_one_row Fixture.next_id fixture_next_id_fresh 7
              (Sample.db_of [Sample.fresh 7 3])) as (_ & H & _).
  destruct H as (_ & H & _); [|exact H].
  vm_compute. by eexists.
Defined.

Lemma get_all_page_and_total_sample :
  Z.of_nat (length (SubmissionCrud.get_all 0 1 None None (Some PENDING)
                      (Sample.db_of [Sample.fresh 7 3; Sample.fresh 8 3])).1) ≤ 1.
Proof.
  destruct (get_all_page_and_total 0 1 None None (Some PENDING)
              (Sample.db_of [Sample.fresh 7 3; Sample.fresh 8 3]))
    as (_ & _ & _ & _ & H & _).
  apply H. lia.
Defined.

Lemma stats_add_up_sample :
  let st := SubmissionCrud.get_stats (λ _ _, Q2Qc 50) (3 * SubmissionCrud.day) 2
              Fixture.mixed_db in
  SubmissionCrud.total st = 4 ∧
  SubmissionCrud.pending_count st = 1 ∧ SubmissionCrud.submitted st = 2 ∧
  SubmissionCrud.failed st = 1 ∧ SubmissionCrud.approved st = 0 ∧
  SubmissionCrud.success_rate st = Q2Qc 50 ∧
  SubmissionCrud.today st = 1 ∧ SubmissionCrud.this_week st = 2 ∧
  SubmissionCrud.today st ≤ SubmissionCrud.this_week st.
Proof.
  intros st.
  destruct (stats_add_up (λ _ _, Q2Qc 50) (3 * SubmissionCrud.day) 2 Fixture.mixed_db)
    as (Ht & (Hp & _ & Hs & Ha & _ & Hf & _) & _ & Hr & Hd & Hw & Hle & _).
  fold st in Ht, Hp, Hs, Ha, Hf, Hr, Hd, Hw, Hle.
  split; [rewrite Ht; vm_compute; reflexivity|].
  split; [rewrite Hp; vm_compute; reflexivity|].
  split; [rewrite Hs; vm_compute; reflexivity|].
  split; [rewrite Hf; vm_compute; reflexivity|].
  split; [rewrite Ha; vm_compute; reflexivity|].
  split; [rewrite Hr, Ht; vm_compute; reflexivity|].
  split; [rewrite Hd; vm_compute; reflexivity|].
  split; [rewrite Hw; vm_compute; reflexivity|].
  apply Hle. lia.
Defined.

(** ** More on detection: the markup sent, malformed answers, the choice
    of the provider, the rule-based fields *)

Section truncation_facts.

Import PyStr.

#[local] Arguments String.append !_ _ / : simpl nomatch.

Lemma slice_to_prefix n s : ∃ t, s = slice_to n s +:+ t ∧ starts_character t.
Proof.
  revert n. induction s as [|c s IH]; intros n; [by exists ""|].
  cbn [slice_to]. destruct (is_continuation c) eqn:E.
  - destruct (IH n) as (t & Ht & Hs). exists t. split; [|done].
    cbn. by rewrite <- Ht.
  - destruct n as [|n]; [by exists (String c s)|].
    destruct (IH n) as (t & Ht & Hs). exists t. split; [|done].
    cbn. by rewrite <- Ht.
Qed.

Lemma len_slice_to n s : len (slice_to n s) = (n `min` len s)%nat.
Proof.
  revert n. induction s as [|c s IH]; intros n; [cbn; lia|].
  cbn [slice_to len]. destruct (is_continuation c) eqn:E.
  - cbn [len]. rewrite E. apply IH.
  - destruct n as [|n]; [done|]. cbn [len]. rewrite E, IH. lia.
Qed.

End truncation_facts.

Section detection_more.

Import PyStr.

Variable json_loads : string → Res json.
Variable post : Provider → string → string → HttpOutcome.
Variable validate_str : json → option string.
Variable validate_bool : json → option bool.
Variable validate_float : json → option Qc.

Abbreviation analyze_form := (LLMProvider.analyze_form json_loads post).
Abbreviation build_field :=
  (FormDetectionService.build_field validate_str validate_bool).
Abbreviation detect_form_try :=
  (FormDetectionService.detect_form_try json_loads post validate_str validate_bool
     validate_float).
Abbreviation detect_form :=
  (FormDetectionService.detect_form json_loads post validate_str validate_bool
     validate_float).
Abbreviation no_form := FormDetectionService.no_form.

(** X18.  The markup sent to a provider is the page markup cut after
    its first 15000 characters (10000 for Groq): it is a prefix of the
    page that ends with a whole character, it has as many characters as
    the page or the limit, whichever is less, and it is the whole page
    when the page has no more characters than the limit.  The analysis
    sees nothing of a page beyond that length: two pages that agree on
    it are analysed alike. *)
Theorem truncated_markup p shot html :
  (∃ rest, html = truncate_html (html_limit p) html +:+ rest ∧ starts_character rest) ∧
  len (truncate_html (html_limit p) html) = (html_limit p `min` len html)%nat ∧
  Z.of_nat (len (truncate_html (html_limit p) html)) ≤ 15000 ∧
  ((len html ≤ html_limit p)%nat → truncate_html (html_limit p) html = html) ∧
  (∀ html', truncate_html (html_limit p) html' = truncate_html (html_limit p) html →
            analyze_form p shot html' = analyze_form p shot html).
Proof.
  assert (Hlen : len (truncate_html (html_limit p) html) = (html_limit p `min` len html)%nat).
  { unfold truncate_html.
    destruct (html_limit p <? len html)%nat eqn:E.
    - apply len_slice_to.
    - apply Nat.ltb_ge in E. lia. }
  split; [|split; [done|split; [|split]]].
  - unfold truncate_html.
    destruct (html_limit p <? len html)%nat.
    + apply slice_to_prefix.
    + exists "". by rewrite str_app_nil_r.
  - rewrite Hlen.
    assert (Z.of_nat (html_limit p) ≤ 15000) by (destruct p; unfold html_limit; lia).
    lia.
  - intros Hle. unfold truncate_html.
    apply Nat.ltb_ge in Hle. by rewrite Hle.
  - intros html' Heq. unfold LLMProvider.analyze_form. by rewrite Heq.
Qed.

Lemma mapR_length {A B} (f : A → Res B) l ys : mapR f l = inr ys → length ys = length l.
Proof.
  revert ys. induction l as [|x l IH]; intros ys; simpl; [by intros [= <-]|].
  destruct (f x) as [e|y]; [done|].
  destruct (mapR f l) as [e|ys']; [done|].
  intros [= <-]. simpl. by rewrite (IH ys').
Qed.

Lemma mapR_fail {A B} (f : A → Res B) l x e :
  x ∈ l → f x = inl e → ∃ e', mapR f l = inl e'.
Proof.
  intros Hin Hx. induction l as [|y l IH]; [by apply elem_of_nil in Hin|].
  simpl. apply elem_of_cons in Hin as [<-|Hin].
  - rewrite Hx. by eexists.
  - destruct (f y) as [e1|z]; [by eexists|].
    destruct (IH Hin) as [e' ->]. by eexists.
Qed.

Lemma build_field_not_dict v :
  (∀ kv, v ≠ JObj kv) → build_field v = inl AttributeError.
Proof. intros Hv. destruct v; try done. by destruct (Hv kv). Qed.

(** X19.  The fields of an answer are taken all or none: when the
    provider's answer is an object whose [fields] is a list, the result
    is either the one without a form or has exactly one field for each
    entry of the list; and one entry that is not an object is enough to
    lose the whole answer. *)
Theorem detection_all_or_nothing p shot html u kv items :
  analyze_form p shot html = inr (JObj kv) →
  PyDict.get "fields" kv = Some (JArr items) →
  (detect_form p shot html u = no_form u ∨
   length (fields (detect_form p shot html u)) = length items) ∧
  ((∃ x, x ∈ items ∧ ∀ kv', x ≠ JObj kv') →
   detect_form p shot html u = no_form u).
Proof.
  intros Ha Hf.
  unfold FormDetectionService.detect_form.
  destruct (detect_form_try p shot html u) as [e|r] eqn:E; [by split; [left|]|].
  unfold FormDetectionService.detect_form_try in E.
  rewrite Ha in E. simpl in E. rewrite Hf in E. simpl in E.
  apply bind_inr in E as (fs & Hfs & E). simpl in E.
  do 4 (apply bind_inr in E as (? & _ & E)).
  injection E as <-. simpl. split.
  - right. by apply mapR_length in Hfs.
  - intros (bad & Hin & Hbad).
    destruct (mapR_fail build_field items bad AttributeError Hin
                (build_field_not_dict bad Hbad)) as [e' He'].
    congruence.
Qed.

(** A value that already has the field's type passes validation as it is. *)
Hypothesis validate_bool_bool : ∀ b, validate_bool (JBool b) = Some b.
Hypothesis validate_float_float : ∀ q, validate_float (JFloat q) = Some q.

(** X20.  An answer that is a JSON object with none of the expected keys
    gives the same result as a failed detection, and so does an answer
    that is valid JSON but not an object. *)
Theorem answer_without_keys p shot html u :
  (∀ kv,
     analyze_form p shot html = inr (JObj kv) →
     PyDict.get "fields" kv = None →
     PyDict.get "form_found" kv = None →
     PyDict.get "form_selector" kv = None →
     PyDict.get "submit_button_selector" kv = None →
     PyDict.get "confidence" kv = None →
     detect_form p shot html u = no_form u) ∧
  (∀ v, analyze_form p shot html = inr v → (∀ kv, v ≠ JObj kv) →
        detect_form p shot html u = no_form u).
Proof.
  split.
  - intros kv Ha H1 H2 H3 H4 H5.
    unfold FormDetectionService.detect_form, FormDetectionService.detect_form_try.
    rewrite Ha. simpl. rewrite H1, H2, H3, H4, H5. simpl.
    unfold FormDetectionService.as_bool, FormDetectionService.as_float.
    by rewrite validate_bool_bool, validate_float_float.
  - intros v Ha Hv.
    unfold FormDetectionService.detect_form, FormDetectionService.detect_form_try.
    rewrite Ha. destruct v; try done. by destruct (Hv kv).
Qed.

End detection_more.

Lemma truncated_markup_sample :
  truncate_html (html_limit GroqProvider) (Fixture.accented_page 6000)
  = Fixture.accented_page 6000 ∧
  LLMProvider.analyze_form JsonRef.loads Fixture.echo GroqProvider ""
    (Fixture.accented_page 10001 +:+ "<p>")
  = LLMProvider.analyze_form JsonRef.loads Fixture.echo GroqProvider ""
      (Fixture.accented_page 10001).
Proof.
  split.
  - apply (truncated_markup JsonRef.loads Fixture.echo GroqProvider ""
             (Fixture.accented_page 6000)).
    apply Nat.leb_le. vm_compute. reflexivity.
  - apply (truncated_markup JsonRef.loads Fixture.echo GroqProvider ""
             (Fixture.accented_page 10001)).
    apply String.eqb_eq. vm_compute. reflexivity.
Defined.

(** The page of 10001 accented letters is cut to 10000 of them, which
    are 20000 bytes. *)
Lemma accented_page_cut :
  truncate_html (html_limit GroqProvider) (Fixture.accented_page 10001)
  = Fixture.accented_page 10000.
Proof. apply String.eqb_eq. vm_compute. reflexivity. Qed.

Lemma detection_all_or_nothing_sample :
  FormDetectionService.detect_form JsonRef.loads
    (Fixture.answers_text ("{" +:+ quoted "fields" +:+ ":[1]}"))
    Sample.strict_str Sample.strict_bool Sample.strict_float
    OpenAIProvider "iVBORw0KGgo=" "<html></html>" "https://dir.example/submit"
  = FormDetectionService.no_form "https://dir.example/submit".
Proof.
  destruct (detection_all_or_nothing JsonRef.loads
              (Fixture.answers_text ("{" +:+ quoted "fields" +:+ ":[1]}"))
              Sample.strict_str Sample.strict_bool Sample.strict_float
              OpenAIProvider "iVBORw0KGgo=" "<html></html>" "https://dir.example/submit"
              [("fields", JArr [JInt 1])] [JInt 1]) as [_ H].
  - vm_compute. reflexivity.
  - reflexivity.
  - apply H. exists (JInt 1). split; [left|discriminate].
Defined.

Lemma answer_without_keys_sample :
  FormDetectionService.detect_form JsonRef.loads (Sample.answers "{}")
    Sample.strict_str Sample.strict_bool Sample.strict_float
    OpenAIProvider "iVBORw0KGgo=" "<html></html>" "https://dir.example/submit"
  = FormDetectionService.no_form "https://dir.example/submit".
Proof.
  destruct (answer_without_keys JsonRef.loads (Sample.answers "{}")
              Sample.strict_str Sample.strict_bool Sample.strict_float
              (λ b, eq_refl) (λ q, eq_refl)
              OpenAIProvider "iVBORw0KGgo=" "<html></html>" "https://dir.example/submit")
    as [H _].
  apply (H []); reflexivity.
Defined.

(** ** The choice of the provider *)

Section provider_facts.

Import PyStr ProviderSetup.

(** X21.  The provider the detection service is built with.  The
    provider named by [LLM_PROVIDER] is taken when it is Gemini, Groq or
    Anthropic and its key is set.  Anthropic is taken in no other case.
    Otherwise the first of OpenAI, Gemini and Groq whose key is set is
    taken, in that order, and OpenAI when none is.  So the provider in
    use has its key set unless the keys of OpenAI, Google and Groq are
    all missing. *)
Theorem provider_choice settings :
  let named_available :=
    (LLM_PROVIDER settings = "gemini" ∧ truthy_opt (GOOGLE_API_KEY settings) = true) ∨
    (LLM_PROVIDER settings = "groq" ∧ truthy_opt (GROQ_API_KEY settings) = true) ∨
    (LLM_PROVIDER settings = "anthropic" ∧
     truthy_opt (ANTHROPIC_API_KEY settings) = true) in
  (select_provider settings = AnthropicProvider ↔
   LLM_PROVIDER settings = "anthropic" ∧
   truthy_opt (ANTHROPIC_API_KEY settings) = true) ∧
  (LLM_PROVIDER settings = "gemini" → truthy_opt (GOOGLE_API_KEY settings) = true →
   select_provider settings = GeminiProvider) ∧
  (LLM_PROVIDER settings = "groq" → truthy_opt (GROQ_API_KEY settings) = true →
   select_provider settings = GroqProvider) ∧
  (¬ named_available → truthy_opt (OPENAI_API_KEY settings) = true →
   select_provider settings = OpenAIProvider) ∧
  (¬ named_available → truthy_opt (OPENAI_API_KEY settings) = false →
   truthy_opt (GOOGLE_API_KEY settings) = true →
   select_provider settings = GeminiProvider) ∧
  (truthy_opt (api_key settings (select_provider settings)) = false →
   select_provider settings = OpenAIProvider ∧
   truthy_opt (OPENAI_API_KEY settings) = false ∧
   truthy_opt (GOOGLE_API_KEY settings) = false ∧
   truthy_opt (GROQ_API_KEY settings) = false).
Proof.
  intros named_available. unfold named_available, select_provider.
  destruct (String.eqb_spec (LLM_PROVIDER settings) "gemini") as [E1|E1];
  destruct (String.eqb_spec (LLM_PROVIDER settings) "groq") as [E2|E2];
  destruct (String.eqb_spec (LLM_PROVIDER settings) "anthropic") as [E3|E3];
  try congruence;
  destruct (truthy_opt (OPENAI_API_KEY settings)) eqn:K1;
  destruct (truthy_opt (ANTHROPIC_API_KEY settings)) eqn:K2;
  destruct (truthy_opt (GOOGLE_API_KEY settings)) eqn:K3;
  destruct (truthy_opt (GROQ_API_KEY settings)) eqn:K4;
  simpl; rewrite ?K1, ?K2, ?K3, ?K4;
  repeat split; intros; try done; try congruence; try tauto.
  all: try (exfalso; tauto).
  all: by destruct H.
Qed.

Lemma provider_choice_sample :
  select_provider (mkSettings None (Some "sk-ant") (Some "g-key") None
                     "anthropic" "gemini-1.5-flash" "*")
  = AnthropicProvider.
Proof.
  destruct (provider_choice (mkSettings None (Some "sk-ant") (Some "g-key") None
                               "anthropic" "gemini-1.5-flash" "*")) as [H _].
  apply H. split; reflexivity.
Defined.

(** X22.  The model each provider asks for.  Gemini always asks for a
    model whose name starts with [gemini]: the configured one if it is
    such a name, and [gemini-2.0-flash] otherwise.  OpenAI asks for the
    configured model whenever one is configured, whatever its name, and
    for [gpt-4o] only when the setting is empty. *)
Theorem provider_models settings :
  String.prefix "gemini" (model settings GeminiProvider) = true ∧
  (model settings GeminiProvider = LLM_MODEL settings ∨
   model settings GeminiProvider = "gemini-2.0-flash") ∧
  (String.prefix "gemini" (LLM_MODEL settings) = true →
   model settings GeminiProvider = LLM_MODEL settings) ∧
  (LLM_MODEL settings ≠ "" → model settings OpenAIProvider = LLM_MODEL settings) ∧
  (LLM_MODEL settings = "" → model settings OpenAIProvider = "gpt-4o").
Proof.
  unfold model. split; [|split; [|split; [|split]]].
  - destruct (truthy (LLM_MODEL settings)); simpl; [|done].
    by destruct (String.prefix "gemini" (LLM_MODEL settings)) eqn:E.
  - destruct (truthy (LLM_MODEL settings) && String.prefix "gemini" (LLM_MODEL settings));
      auto.
  - intros Hp. rewrite Hp.
    destruct (LLM_MODEL settings) eqn:E; [done|]. done.
  - intros Hne. apply truthy_ne in Hne. by rewrite Hne.
  - by intros ->.
Qed.

Lemma provider_models_sample :
  model (mkSettings (Some "sk") None None None "openai" "gemini-1.5-flash" "*")
    OpenAIProvider = "gemini-1.5-flash".
Proof.
  destruct (provider_models
              (mkSettings (Some "sk") None None None "openai" "gemini-1.5-flash" "*"))
    as (_ & _ & _ & H & _).
  apply H. discriminate.
Defined.

End provider_facts.

(** ** More on the rule-based fields, the mapper and the product data *)

Section rule_more.

Import PyStr RuleBasedFormDetector.

#[local] Arguments String.append !_ _ / : simpl nomatch.

Lemma truthy_opt_default o : truthy_opt o = true → default "" o ≠ "".
Proof. destruct o as [[|c s]|]; done. Qed.

Lemma detect_field_shape soup e f :
  detect_field soup e = Some f →
  name f ≠ "" ∧ options f = None ∧ is_Some (placeholder f) ∧
  (is_Some (label f) → String.prefix "#" (selector f) = true) ∧
  required f = match e with
               | Tag _ attrs _ => bool_decide (is_Some (PyDict.get "required" attrs))
               | NavigableString _ => false
               end.
Proof.
  destruct e as [tag attrs children|s]; [|done].
  unfold detect_field.
  destruct (truthy_opt (PyDict.get "id" attrs)) eqn:Hid;
    [|destruct (truthy_opt (PyDict.get "name" attrs)) eqn:Hn; [|done]];
    intros [= <-]; simpl.
  - split; [|split; [done|split; [by eexists|split; [|done]]]].
    + destruct (truthy (default "" (PyDict.get "name" attrs))) eqn:E.
      * by apply truthy_ne.
      * by apply truthy_opt_default.
    + intros _. apply prefix_nil.
  - split; [|split; [done|split; [by eexists|split; [|done]]]].
    + assert (Ht : truthy (default "" (PyDict.get "name" attrs)) = true).
      { by destruct (PyDict.get "name" attrs). }
      rewrite Ht. by apply truthy_ne.
    + intros [x Hx]. done.
Qed.

(** X23.  Every field the rule-based detector returns has a name that is
    not empty, a placeholder (the empty string when the element has
    none) and no options; it has a label only if it is addressed by its
    id.  A [textarea] or [select] element gives a field of that type
    whatever its [type] attribute says, and a field is required exactly
    when the element carries the attribute [required], whatever its
    value. *)
Theorem rule_fields_shape (BeautifulSoup : string → list node) (html : string) :
  (∀ f, f ∈ detect_fields_from_html BeautifulSoup html →
        name f ≠ "" ∧ options f = None ∧ is_Some (placeholder f) ∧
        (is_Some (label f) → String.prefix "#" (selector f) = true)) ∧
  (∀ soup tag attrs children f,
     detect_field soup (Tag tag attrs children) = Some f →
     (tag = "textarea" → field_type f = "textarea") ∧
     (tag = "select" → field_type f = "select") ∧
     (tag ≠ "textarea" → tag ≠ "select" →
      field_type f = default "text" (PyDict.get "type" attrs)) ∧
     (required f = true ↔ is_Some (PyDict.get "required" attrs))).
Proof.
  split.
  - intros f (e & _ & He)%list_elem_of_omap.
    destruct (detect_field_shape _ _ _ He) as (H1 & H2 & H3 & H4 & _). done.
  - intros soup tag attrs children f Hf.
    pose proof (detect_field_shape _ _ _ Hf) as (_ & _ & _ & _ & Hreq).
    unfold detect_field in Hf.
    assert (Hty : field_type f
                  = if String.eqb tag "textarea" then "textarea"
                    else if String.eqb tag "select" then "select"
                    else default "text" (PyDict.get "type" attrs)).
    { destruct (truthy_opt (PyDict.get "id" attrs));
        [|destruct (truthy_opt (PyDict.get "name" attrs)); [|done]];
        by injection Hf as <-. }
    rewrite Hty, Hreq. split; [|split; [|split]].
    + by intros ->.
    + by intros ->.
    + intros H1%String.eqb_neq H2%String.eqb_neq. by rewrite H1, H2.
    + apply bool_decide_eq_true.
Qed.

Lemma rule_fields_shape_sample :
  Forall (λ f, name f ≠ "")
    (detect_fields_from_html (Sample.parses_to Sample.email_form) "<html>").
Proof.
  apply Forall_forall. intros f Hf.
  destruct (rule_fields_shape (Sample.parses_to Sample.email_form) "<html>") as [H _].
  by destruct (H f Hf) as (H1 & _).
Defined.

End rule_more.

Section mapper_more.

Import PyStr FieldMapper.

Implicit Types (f g : FormField) (data : gmap string string).
Implicit Types (table : list (string * list string)) (d : FieldMapping).

Lemma set_keys {V} k (v : V) (d : list (string * V)) :
  (PyDict.set k v d).*1 = if bool_decide (k ∈ d.*1) then d.*1 else (d.*1 ++ [k])%list.
Proof.
  induction d as [|[k' v'] d IH]; [done|].
  change (PyDict.set k v ((k', v') :: d))
    with (if String.eqb k k' then (k, v) :: d else (k', v') :: PyDict.set k v d).
  destruct (String.eqb_spec k k') as [->|Hne]; rewrite !fmap_cons; cbn [fst].
  - rewrite bool_decide_eq_true_2; [done|]. left.
  - rewrite IH. destruct (bool_decide (k ∈ d.*1)) eqn:E.
    + apply bool_decide_eq_true in E.
      rewrite bool_decide_eq_true_2; [done|]. by right.
    + apply bool_decide_eq_false in E.
      rewrite bool_decide_eq_false_2; [done|].
      intros [?|?]%elem_of_cons; done.
Qed.

Lemma NoDup_set_keys {V} k (v : V) (d : list (string * V)) :
  NoDup d.*1 → NoDup (PyDict.set k v d).*1.
Proof.
  intros Hnd. rewrite set_keys. destruct (bool_decide (k ∈ d.*1)) eqn:E; [done|].
  apply bool_decide_eq_false in E.
  apply NoDup_app. split; [done|]. split; [|apply NoDup_singleton].
  intros x Hx ->%list_elem_of_singleton. done.
Qed.

Lemma elem_of_set {V} k (v : V) (d : list (string * V)) k' v' :
  (k', v') ∈ PyDict.set k v d → (k' = k ∧ v' = v) ∨ (k', v') ∈ d.
Proof.
  induction d as [|[k0 v0] d IH]; simpl.
  - intros [= -> ->]%list_elem_of_singleton. by left.
  - destruct (String.eqb k k0).
    + intros [[= -> ->]|Hin]%elem_of_cons; [by left|]. right. by right.
    + intros [[= -> ->]|Hin]%elem_of_cons; [right; left|].
      destruct (IH Hin) as [?|?]; [by left|]. right. by right.
Qed.

Lemma length_set {V} k (v : V) (d : list (string * V)) :
  (length (PyDict.set k v d) ≤ S (length d))%nat.
Proof.
  induction d as [|[k0 v0] d IH]; simpl; [lia|].
  destruct (String.eqb k k0); simpl; lia.
Qed.

Lemma match_value_nonempty table f data v : match_value table f data = Some v → v ≠ "".
Proof.
  intros (pre & key & keys & post & _ & _ & Hv & _)%match_value_spec.
  apply first_value_spec in Hv as (a & k & b & _ & _ & Hne & _). done.
Qed.

(** X24.  The output of the mapper has at most one entry for each
    selector and no more entries than there are fields.  Every entry
    stands for a field of the form: it is stored under that field's
    selector, carries its name and type, and its value is the value the
    table gives for that field, which is never the empty string. *)
Theorem mapper_output_shape fields data :
  NoDup (map_saas_data_to_fields fields data).*1 ∧
  (length (map_saas_data_to_fields fields data) ≤ length fields)%nat ∧
  (∀ sel e, (sel, e) ∈ map_saas_data_to_fields fields data →
     mapped_value e ≠ "" ∧
     ∃ f, f ∈ fields ∧ selector f = sel ∧
          mapped_name e = name f ∧ mapped_type e = field_type f ∧
          match_value field_mapping f data = Some (mapped_value e)).
Proof.
  induction fields as [|f fields (IH1 & IH2 & IH3)] using rev_ind.
  - split; [constructor|]. split; [done|]. intros sel e Hin. by apply elem_of_nil in Hin.
  - rewrite map_fields_snoc. unfold map_field.
    destruct (match_value field_mapping f data) as [v|] eqn:Hv.
    + split; [by apply NoDup_set_keys|]. split.
      * pose proof (length_set (selector f) (mkMappedField (name f) (field_type f) v)
                      (map_saas_data_to_fields fields data)).
        rewrite length_app. cbn [length]. lia.
      * intros sel e [[-> ->]|Hin]%elem_of_set.
        -- cbn [mapped_value mapped_name mapped_type].
           split; [by eapply match_value_nonempty|].
           exists f. split; [apply elem_of_app; right; left|].
           split; [reflexivity|]. split; [reflexivity|]. split; [reflexivity|exact Hv].
        -- destruct (IH3 sel e Hin) as (Hne & g & Hg & Hrest).
           split; [done|]. exists g. split; [apply elem_of_app; by left|done].
    + split; [done|]. split; [rewrite length_app; cbn [length]; lia|].
      intros sel e Hin. destruct (IH3 sel e Hin) as (Hne & g & Hg & Hrest).
      split; [done|]. exists g. split; [apply elem_of_app; by left|done].
Qed.

Lemma mapper_output_shape_sample :
  Forall (λ p, mapped_value p.2 ≠ "")
    (map_saas_data_to_fields [Sample.website_field; Sample.pricing_type_field]
       Sample.product_data).
Proof.
  apply Forall_forall. intros [sel e] Hin.
  destruct (mapper_output_shape [Sample.website_field; Sample.pricing_type_field]
              Sample.product_data) as (_ & _ & H).
  by destruct (H sel e Hin) as [Hne _].
Defined.

(** The mapper looks only at the attributes its table names. *)

Lemma first_value_ext data1 data2 keys :
  (∀ k, k ∈ keys → data1 !! k = data2 !! k) → first_value data1 keys = first_value data2 keys.
Proof.
  induction keys as [|k keys IH]; intros Hall; [done|]. simpl.
  rewrite <- (Hall k) by left.
  rewrite IH; [done|]. intros k' Hk'. apply Hall. by right.
Qed.

Lemma match_value_ext table f data1 data2 :
  (∀ grp k, grp ∈ table → k ∈ grp.2 → data1 !! k = data2 !! k) →
  match_value table f data1 = match_value table f data2.
Proof.
  induction table as [|[key keys] table IH]; intros Hall; [done|].
  rewrite !match_value_step.
  rewrite (first_value_ext data1 data2 keys) by (intros k Hk; apply (Hall (key, keys)); [left|done]).
  rewrite IH; [done|]. intros grp k Hgrp Hk. apply (Hall grp); [by right|done].
Qed.

Lemma map_fields_ext fields data1 data2 :
  (∀ grp k, grp ∈ field_mapping → k ∈ grp.2 → data1 !! k = data2 !! k) →
  map_saas_data_to_fields fields data1 = map_saas_data_to_fields fields data2.
Proof.
  intros Hall. induction fields as [|f fields IH] using rev_ind; [done|].
  rewrite !map_fields_snoc, IH. unfold map_field.
  by rewrite (match_value_ext field_mapping f data1 data2 Hall).
Qed.

(** The attributes the table names. *)
Lemma table_keys grp k :
  grp ∈ field_mapping → k ∈ grp.2 →
  k ∈ ["name"; "saas_name"; "product_name"; "title"; "tool_name"; "startup_name";
       "tagline"; "website_url"; "url"; "website"; "link"; "homepage";
       "short_description"; "long_description"; "contact_email"; "category";
       "pricing_model"; "pricing_details"; "twitter_url"; "linkedin_url"; "github_url"].
Proof.
  unfold field_mapping. intros Hgrp Hk.
  repeat (apply elem_of_cons in Hgrp as [->|Hgrp];
          [simpl in Hk;
           repeat (apply elem_of_cons in Hk as [->|Hk];
                   [repeat (first [by left|right])|]);
           by apply elem_of_nil in Hk|]).
  by apply elem_of_nil in Hgrp.
Qed.

(** X25.  The mapper never uses the contact name or the tags of a
    product: whatever value the product data has under [contact_name] or
    [tags], the mapping of any list of fields is the same; so two
    products that differ in these two columns only are mapped alike. *)
Theorem contact_name_and_tags_unused fields :
  (∀ data k v, k ∈ ["contact_name"; "tags"] →
     map_saas_data_to_fields fields (<[k := v]> data)
     = map_saas_data_to_fields fields data) ∧
  (∀ n w tl sd ld c ce cn tw li gh lp pm pd tg cn' tg',
     map_saas_data_to_fields fields
       (Prepare._prepare_saas_data
          (Product.mk n w tl sd ld c ce cn' tw li gh lp pm pd tg'))
     = map_saas_data_to_fields fields
         (Prepare._prepare_saas_data
            (Product.mk n w tl sd ld c ce cn tw li gh lp pm pd tg))).
Proof.
  split.
  - intros data k v Hk. apply map_fields_ext. intros grp k' Hgrp Hk'.
    apply lookup_insert_ne. intros ->.
    pose proof (table_keys grp k' Hgrp Hk') as Hin.
    apply elem_of_cons in Hk as [->|Hk];
      [repeat (apply elem_of_cons in Hin as [Hin|Hin]; [discriminate|]);
       by apply elem_of_nil in Hin|].
    apply elem_of_cons in Hk as [->|Hk];
      [repeat (apply elem_of_cons in Hin as [Hin|Hin]; [discriminate|]);
       by apply elem_of_nil in Hin|].
    by apply elem_of_nil in Hk.
  - intros n w tl sd ld c ce cn tw li gh lp pm pd tg cn' tg'.
    apply map_fields_ext. intros grp k Hgrp Hk.
    pose proof (table_keys grp k Hgrp Hk) as Hin.
    repeat (apply elem_of_cons in Hin as [->|Hin]; [reflexivity|]).
    by apply elem_of_nil in Hin.
Qed.

Lemma contact_name_and_tags_unused_sample :
  map_saas_data_to_fields [Sample.website_field]
    (<["contact_name" := "Ada"]> Sample.product_data)
  = map_saas_data_to_fields [Sample.website_field] Sample.product_data.
Proof.
  destruct (contact_name_and_tags_unused [Sample.website_field]) as [H _].
  apply H. left.
Defined.

(** X26.  With the data the worker prepares, a field whose normalized
    name contains [name] is given the name of the product whenever that
    is not empty: so it is for a field called [contact_name] or
    [company-name] as for one called [name]. *)
Theorem name_like_fields_get_product_name product f :
  Product.name product ≠ "" →
  contains "name" (normalize (name f)) = true →
  match_value field_mapping f (Prepare._prepare_saas_data product)
  = Some (Product.name product) ∧
  map_saas_data_to_fields [f] (Prepare._prepare_saas_data product)
  = [(selector f, mkMappedField (name f) (field_type f) (Product.name product))].
Proof.
  intros Hne Hc.
  assert (Hm : match_value field_mapping f (Prepare._prepare_saas_data product)
               = Some (Product.name product)).
  { unfold field_mapping. rewrite match_value_step.
    unfold key_matches. rewrite Hc. cbn [orb first_value].
    change (Prepare._prepare_saas_data product !! "name") with (Some (Product.name product)).
    cbv beta iota. apply truthy_ne in Hne. by rewrite Hne. }
  split; [exact Hm|].
  unfold map_saas_data_to_fields. cbn [fold_left]. unfold map_field. by rewrite Hm.
Qed.

Lemma name_like_fields_get_product_name_sample :
  map_saas_data_to_fields
    [mkFormField "contact_name" "text" None None false "#contact_name" None]
    (Prepare._prepare_saas_data
       (Product.mk "Acme" "https://x.io" None None None None "team@x.io" (Some "Ada")
          None None None None None None None))
  = [("#contact_name", mkMappedField "contact_name" "text" "Acme")].
Proof.
  destruct (name_like_fields_get_product_name
              (Product.mk "Acme" "https://x.io" None None None None "team@x.io" (Some "Ada")
                 None None None None None None None)
              (mkFormField "contact_name" "text" None None false "#contact_name" None))
    as [_ H].
  - discriminate.
  - reflexivity.
  - exact H.
Defined.

End mapper_more.

(** ** config.py: the list of origins *)

Section config_facts.

Import PyStr.

(** X27.  Every entry of the list of CORS origins is a non-empty string
    without white space at its ends.  The setting [*] gives the list with
    [*] alone, and a setting without a comma gives the setting stripped,
    or no entry at all when nothing is left of it. *)
Theorem cors_origins_clean settings :
  (∀ origin, origin ∈ Config.cors_origins_list settings →
             origin ≠ "" ∧ strip origin = origin) ∧
  (CORS_ORIGINS settings = "*" → Config.cors_origins_list settings = ["*"]) ∧
  (contains "," (CORS_ORIGINS settings) = false →
   Config.cors_origins_list settings
   = if truthy (strip (CORS_ORIGINS settings)) then [strip (CORS_ORIGINS settings)] else []).
Proof.
  unfold Config.cors_origins_list. split; [|split].
  - intros origin. destruct (String.eqb (CORS_ORIGINS settings) "*").
    + intros ->%list_elem_of_singleton. done.
    + intros [Ht (piece & -> & _)%list_elem_of_fmap]%list_elem_of_filter.
      split; [by apply truthy_ne|apply strip_idem].
  - by intros ->.
  - intros Hc. destruct (String.eqb_spec (CORS_ORIGINS settings) "*") as [E|E].
    + by rewrite E.
    + rewrite split_none by done. simpl.
      rewrite filter_cons, filter_nil.
      by destruct (truthy (strip (CORS_ORIGINS settings))).
Qed.

Lemma cors_origins_clean_sample :
  Config.cors_origins_list
    (mkSettings None None None None "gemini" "gemini-1.5-flash" " http://localhost:3000 ")
  = ["http://localhost:3000"].
Proof.
  destruct (cors_origins_clean
              (mkSettings None None None None "gemini" "gemini-1.5-flash"
                 " http://localhost:3000 ")) as (_ & _ & H).
  rewrite H; [reflexivity|]. reflexivity.
Defined.

End config_facts.

(** ** The outcomes of parsing; a job put back by hand *)

Section parse_outcomes.

Import PyStr.

Variable json_loads : string → Res json.

(** X28.  In [_parse_response] the indexing of the pieces around the
    fences cannot fail: a text is extracted from every answer, and it is
    the whole answer when that holds no run of three backquotes.  When
    the decoder returns a value for the stripped text, that value is the
    result, whatever its type; when the decoder raises
    [JSONDecodeError], the result is the parse-failure dict; any other
    exception of the decoder leaves the function.  So the function
    raises exactly when the decoder raises something else than
    [JSONDecodeError]. *)
Theorem parse_response_outcomes p content :
  ∃ text,
    extract_json (cleaned p content) = inr text ∧
    (contains "```" (cleaned p content) = false → text = cleaned p content) ∧
    (∀ v, json_loads (strip text) = inr v →
          LLMProvider._parse_response json_loads p content = inr v) ∧
    (json_loads (strip text) = inl JSONDecodeError →
     LLMProvider._parse_response json_loads p content = inr parse_failure) ∧
    (∀ e, json_loads (strip text) = inl e → e ≠ JSONDecodeError →
          LLMProvider._parse_response json_loads p content = inl e) ∧
    (∀ e, LLMProvider._parse_response json_loads p content = inl e →
          json_loads (strip text) = inl e ∧ e ≠ JSONDecodeError).
Proof.
  unfold LLMProvider._parse_response.
  destruct (extract_json_total (cleaned p content)) as [t Ht].
  exists t. rewrite Ht. split; [done|]. simpl. split; [|split; [|split; [|split]]].
  - intros Hc. rewrite extract_bare in Ht by done. by injection Ht.
  - by intros v ->.
  - by intros ->.
  - intros e -> He. by destruct e.
  - intros e. destruct (json_loads (strip t)) as [e'|v]; [|done].
    destruct e'; intros [= <-]; done.
Qed.

End parse_outcomes.

Lemma parse_response_outcomes_sample :
  LLMProvider._parse_response JsonRef.loads GeminiProvider "  [1, 2]  "
  = inr (JArr [JInt 1; JInt 2]) ∧
  LLMProvider._parse_response (λ _, raise RecursionError) OpenAIProvider "[[[[...]]]]"
  = inl RecursionError.
Proof.
  split.
  - destruct (parse_response_outcomes JsonRef.loads GeminiProvider "  [1, 2]  ")
      as (text & _ & Hb & Hv & _).
    apply Hv. rewrite Hb; vm_compute; reflexivity.
  - destruct (parse_response_outcomes (λ _, raise RecursionError) OpenAIProvider
                "[[[[...]]]]") as (text & _ & _ & _ & _ & He & _).
    by apply He.
Defined.

Section manual_reset.

Import SubmissionService.

Implicit Types (db : Database) (s : DirectorySubmission) (i j : Z).

Lemma well_keyed_update_status now i st em lu sp db :
  well_keyed db → well_keyed (update_status now i st em lu sp db).2.
Proof.
  intros Hk j s Hj. destruct (decide (i = j)) as [<-|Hne].
  - destruct (get_by_id i db) as [s0|] eqn:Hs.
    + rewrite (update_status_found now i st em lu sp db s0 Hs) in Hj.
      injection Hj as <-. simpl. by apply Hk.
    + unfold update_status in Hj. rewrite Hs in Hj. simpl in Hj. congruence.
  - rewrite update_status_other in Hj by done. by apply Hk.
Qed.

Lemma exhausted_not_fetched st j s :
  well_keyed st.2 →
  get_by_id j st.2 = Some s → max_attempts s ≤ attempt_count s →
  j ∉ sub_id <$> Worker.fetched st.
Proof.
  intros Hk Hj Hc Hin.
  apply list_elem_of_fmap in Hin as (s' & -> & Hin).
  unfold Worker.fetched in Hin.
  apply elem_of_pending in Hin as [Hrows [_ Hlt]].
  apply elem_of_rows in Hrows as [i Hi].
  pose proof (Hk _ _ Hi) as <-.
  rewrite Hi in Hj. injection Hj as ->. lia.
Qed.

(** X29.  Setting a job back to PENDING with [update_status] does not
    give it new attempts: [attempt_count] and [max_attempts] stay as
    they are.  A job that has used up its attempts and is set back to
    PENDING is therefore returned by no polling query, and a pass of the
    worker leaves it as it is. *)
Theorem exhausted_job_reset_is_stuck now i em lu sp db s :
  well_keyed db →
  get_by_id i db = Some s →
  max_attempts s ≤ attempt_count s →
  ∃ s', get_by_id i (update_status now i PENDING em lu sp db).2 = Some s' ∧
        status s' = PENDING ∧
        attempt_count s' = attempt_count s ∧ max_attempts s' = max_attempts s ∧
        (∀ limit,
           s' ∉ get_pending_submissions limit (update_status now i PENDING em lu sp db).2) ∧
        (∀ env w,
           get_by_id i
             (Worker._process_queue env
                (w, (update_status now i PENDING em lu sp db).2)).2 = Some s').
Proof.
  intros Hk Hs Hc.
  pose proof (update_status_found now i PENDING em lu sp db s Hs) as Hs'.
  eexists. split; [exact Hs'|]. cbn [with_status status attempt_count max_attempts].
  split; [done|]. split; [done|]. split; [done|]. split.
  - intros limit [_ [_ Hlt]]%elem_of_pending. simpl in Hlt. lia.
  - intros env w. unfold Worker._process_queue.
    rewrite process_each_other; [exact Hs'|].
    apply (exhausted_not_fetched (w, (update_status now i PENDING em lu sp db).2) i
             (with_status now PENDING em lu sp s)).
    + by apply well_keyed_update_status.
    + exact Hs'.
    + simpl. lia.
Qed.

Lemma exhausted_job_reset_is_stuck_sample :
  ∃ s', get_by_id 1
          (update_status 100 1 PENDING None None None
             (Sample.db_of [Sample.failed_at 1 3 3 (Some 0)])).2 = Some s' ∧
        status s' = PENDING ∧
        s' ∉ get_pending_submissions 10
               (update_status 100 1 PENDING None None None
                  (Sample.db_of [Sample.failed_at 1 3 3 (Some 0)])).2.
Proof.
  destruct (exhausted_job_reset_is_stuck 100 1 None None None
              (Sample.db_of [Sample.failed_at 1 3 3 (Some 0)])
              (Sample.failed_at 1 3 3 (Some 0)))
    as (s' & H1 & H2 & _ & _ & H3 & _).
  - apply well_keyed_db_of.
  - vm_compute. reflexivity.
  - vm_compute. discriminate.
  - exists s'. split; [exact H1|]. split; [exact H2|apply H3].
Defined.

End manual_reset.
